(** * xoutil.cl: the coercion algebra

    A shallow embedding of [xoutil/cl/__init__.py] and the properties of
    its coercers.

    The module is dynamically typed Python.  Its objects are embedded as
    one universe [value]; lists, dicts, sets and the [scope] field of the
    [custom] instances live in a [store], so that aliasing and in-place
    updates are visible; every call is a computation [M value] that
    threads the store and either returns a value or raises.

    What the Python run time supplies (the [float] parser of strings,
    [hash], [str], classes and functions defined outside the module, and
    the helper [xoutil.tools.both_args_repr]) is collected in the record
    [Builtins] and taken as a parameter. *)

From Stdlib Require Import ZArith String Ascii List Bool Lia SpecFloat.
From stdpp Require Import base list.
Import ListNotations.

Local Open Scope string_scope.
Local Open Scope list_scope.
Local Open Scope Z_scope.

(** ** Floats

    Python floats are IEEE 754 binary64 numbers: [spec_float] with a 53
    bit mantissa and [emax = 1024]. *)

Definition float := spec_float.

Definition f_prec : Z := 53.
Definition f_emax : Z := 1024.

Definition float_eqb (x y : float) : bool := SFeqb x y.
Definition float_sub (x y : float) : float := SFsub f_prec f_emax x y.
Definition float_zero : float := S754_zero false.

(** Identity of two float objects, decided on their representation. *)
Definition float_same (x y : float) : bool :=
  match x, y with
  | S754_zero a, S754_zero b => Bool.eqb a b
  | S754_infinity a, S754_infinity b => Bool.eqb a b
  | S754_nan, S754_nan => true
  | S754_finite a m e, S754_finite b n k =>
      Bool.eqb a b && Pos.eqb m n && Z.eqb e k
  | _, _ => false
  end.

Lemma float_same_eq (x y : float) : float_same x y = true <-> x = y.
Proof.
  destruct x as [a|a| |a m e], y as [b|b| |b n k]; simpl;
    try (split; [discriminate | intros H; discriminate H]).
  - rewrite Bool.eqb_true_iff. split; congruence.
  - rewrite Bool.eqb_true_iff. split; congruence.
  - split; reflexivity.
  - rewrite !andb_true_iff, Bool.eqb_true_iff, Pos.eqb_eq, Z.eqb_eq.
    split; [intros [[-> ->] ->]; reflexivity | intros H; injection H; auto].
Qed.

(** ** Exceptions and outcomes *)

Record exn := Exn { exn_class : string; exn_msg : string }.

Definition TypeError (msg : string) : exn := Exn "TypeError" msg.
Definition ValueError (msg : string) : exn := Exn "ValueError" msg.
Definition OverflowError (msg : string) : exn := Exn "OverflowError" msg.
Definition KeyError (msg : string) : exn := Exn "KeyError" msg.
Definition IndexError (msg : string) : exn := Exn "IndexError" msg.

Inductive result (A : Type) : Type :=
| Ret (a : A)
| Raise (e : exn).
Arguments Ret {A} a.
Arguments Raise {A} e.

(** [float(z)] of an integer: rounded to nearest even; too large an
    integer raises [OverflowError]. *)
Definition float_of_int (z : Z) : result float :=
  match binary_normalize f_prec f_emax z 0 false with
  | S754_infinity _ => Raise (OverflowError "int too large to convert to float")
  | f => Ret f
  end.

(** The float that is nearest to the integer [z]: [float_lit 2] is [2.0]. *)
Definition float_lit (z : Z) : float :=
  binary_normalize f_prec f_emax z 0 false.

(** [int(f)] of a float: truncation towards zero. *)
Definition int_of_float (f : float) : result Z :=
  match f with
  | S754_zero _ => Ret 0
  | S754_infinity _ =>
      Raise (OverflowError "cannot convert float infinity to integer")
  | S754_nan => Raise (ValueError "cannot convert float NaN to integer")
  | S754_finite s m e =>
      let a := if 0 <=? e then Zpos m * 2 ^ e else Zpos m / 2 ^ (- e) in
      Ret (if s then - a else a)
  end.

(** Exact comparison [f == z] of a float with an integer. *)
Definition float_eq_int (f : float) (z : Z) : bool :=
  match f with
  | S754_zero _ => z =? 0
  | S754_finite s m e =>
      let sm := if s then Zneg m else Zpos m in
      if 0 <=? e then z =? sm * 2 ^ e else z * 2 ^ (- e) =? sm
  | _ => false
  end.

(** ** Values *)

Abbreviation loc := nat (only parsing).

(** The functions of the module that are decorated with [@coercer]. *)
Inductive funcname :=
| fn_identity_coerce | fn_void_coerce | fn_type_coerce
| fn_types_tuple_coerce | fn_callable_coerce | fn_float_coerce
| fn_int_coerce | fn_number_coerce | fn_positive_int_coerce
| fn_identifier_coerce | fn_full_identifier_coerce | fn_names_coerce
| fn_sized_coerce.

(** The sub-classes of [custom] that have an [inward] in use. *)
Inductive custom_class := cls_compose | cls_some.

#[warnings="-register-all"]
Inductive value : Type :=
| VNone
| VUnset                                 (* [xoutil.Unset] *)
| VLogical (b : bool)                    (* [nil] and [t] *)
| VBool (b : bool)
| VInt (z : Z)
| VFloat (f : float)
| VComplex (re im : float)
| VStr (s : string)
| VTuple (items : list value)
| VList (l : loc)
| VDict (l : loc)
| VSet (l : loc)
| VObject (id : nat)                     (* any other plain object *)
| VClass (id : nat)                      (* a class other than [coercer] *)
| VFunction (id : nat) (marked : bool)   (* a function; [__coercer__] set? *)
| VCoerce (f : funcname)
| VCoercerClass                          (* the class [coercer] *)
| VInward (cls : custom_class)           (* the bound method [cls.inward] *)
| VUniqueMember (coerce container : value) (* [create_unique_member_coerce] *)
| VVouch (fn : value) (name : string) (marked : bool) (* what [vouch(fn)] returns *)
| IsType (self : loc) (inner : list value)
| Compose (self : loc) (inner : list value)
| Some_ (self : loc) (inner : list value)
| Combo (self : loc) (inner : list value)
| Pargs (self : loc) (inner : value)
| Iterable (self : loc) (member outer : value)
| Mapping (self : loc) (key val : value).

Definition v_nil : value := VLogical false.
Definition v_t : value := VLogical true.

Definition identity_coerce : value := VCoerce fn_identity_coerce.
Definition void_coerce : value := VCoerce fn_void_coerce.
Definition type_coerce : value := VCoerce fn_type_coerce.
Definition types_tuple_coerce : value := VCoerce fn_types_tuple_coerce.
Definition callable_coerce : value := VCoerce fn_callable_coerce.
Definition float_coerce : value := VCoerce fn_float_coerce.
Definition int_coerce : value := VCoerce fn_int_coerce.
Definition number_coerce : value := VCoerce fn_number_coerce.
Definition positive_int_coerce : value := VCoerce fn_positive_int_coerce.
Definition identifier_coerce : value := VCoerce fn_identifier_coerce.
Definition full_identifier_coerce : value :=
  VCoerce fn_full_identifier_coerce.
Definition names_coerce : value := VCoerce fn_names_coerce.
Definition sized_coerce : value := VCoerce fn_sized_coerce.

(** Induction over values that reaches into the tuples of members. *)
Section value_induction.
Variable P : value -> Prop.
Hypothesis HNone : P VNone.
Hypothesis HUnset : P VUnset.
Hypothesis HLogical : forall b, P (VLogical b).
Hypothesis HBool : forall b, P (VBool b).
Hypothesis HInt : forall z, P (VInt z).
Hypothesis HFloat : forall f, P (VFloat f).
Hypothesis HComplex : forall re im, P (VComplex re im).
Hypothesis HStr : forall s, P (VStr s).
Hypothesis HTuple : forall items, Forall P items -> P (VTuple items).
Hypothesis HList : forall l, P (VList l).
Hypothesis HDict : forall l, P (VDict l).
Hypothesis HSet : forall l, P (VSet l).
Hypothesis HObject : forall id, P (VObject id).
Hypothesis HClass : forall id, P (VClass id).
Hypothesis HFunction : forall id m, P (VFunction id m).
Hypothesis HCoerce : forall f, P (VCoerce f).
Hypothesis HCoercerClass : P VCoercerClass.
Hypothesis HInward : forall cls, P (VInward cls).
Hypothesis HUniqueMember :
  forall c k, P c -> P k -> P (VUniqueMember c k).
Hypothesis HVouch : forall fn name m, P fn -> P (VVouch fn name m).
Hypothesis HIsType : forall self inner, Forall P inner -> P (IsType self inner).
Hypothesis HCompose :
  forall self inner, Forall P inner -> P (Compose self inner).
Hypothesis HSome : forall self inner, Forall P inner -> P (Some_ self inner).
Hypothesis HCombo : forall self inner, Forall P inner -> P (Combo self inner).
Hypothesis HPargs : forall self inner, P inner -> P (Pargs self inner).
Hypothesis HIterable :
  forall self m o, P m -> P o -> P (Iterable self m o).
Hypothesis HMapping : forall self k v, P k -> P v -> P (Mapping self k v).

Fixpoint value_ind' (v : value) : P v :=
  let all :=
    fix all (l : list value) : Forall P l :=
      match l with
      | [] => List.Forall_nil P
      | x :: l' => List.Forall_cons P x l' (value_ind' x) (all l')
      end in
  match v with
  | VNone => HNone
  | VUnset => HUnset
  | VLogical b => HLogical b
  | VBool b => HBool b
  | VInt z => HInt z
  | VFloat f => HFloat f
  | VComplex re im => HComplex re im
  | VStr s => HStr s
  | VTuple items => HTuple items (all items)
  | VList l => HList l
  | VDict l => HDict l
  | VSet l => HSet l
  | VObject id => HObject id
  | VClass id => HClass id
  | VFunction id m => HFunction id m
  | VCoerce f => HCoerce f
  | VCoercerClass => HCoercerClass
  | VInward cls => HInward cls
  | VUniqueMember c k => HUniqueMember c k (value_ind' c) (value_ind' k)
  | VVouch fn name m => HVouch fn name m (value_ind' fn)
  | IsType self inner => HIsType self inner (all inner)
  | Compose self inner => HCompose self inner (all inner)
  | Some_ self inner => HSome self inner (all inner)
  | Combo self inner => HCombo self inner (all inner)
  | Pargs self inner => HPargs self inner (value_ind' inner)
  | Iterable self m o => HIterable self m o (value_ind' m) (value_ind' o)
  | Mapping self k v => HMapping self k v (value_ind' k) (value_ind' v)
  end.
End value_induction.

(** ** Identity ([is])

    Tuples, numbers and strings are immutable and carry no identity of
    their own in this embedding: [x is y] is decided on the structure.
    Lists, dicts, sets and [custom] instances are the same object when
    they sit at the same location. *)

#[global] Instance funcname_eq_dec : EqDecision funcname.
Proof. solve_decision. Defined.

#[global] Instance custom_class_eq_dec : EqDecision custom_class.
Proof. solve_decision. Defined.

Fixpoint py_is (a b : value) {struct a} : bool :=
  let all2 :=
    fix all2 (xs ys : list value) {struct xs} : bool :=
      match xs, ys with
      | [], [] => true
      | x :: xs', y :: ys' => py_is x y && all2 xs' ys'
      | _, _ => false
      end in
  match a, b with
  | VNone, VNone => true
  | VUnset, VUnset => true
  | VLogical x, VLogical y => Bool.eqb x y
  | VBool x, VBool y => Bool.eqb x y
  | VInt x, VInt y => x =? y
  | VFloat x, VFloat y => float_same x y
  | VComplex x x', VComplex y y' => float_same x y && float_same x' y'
  | VStr x, VStr y => String.eqb x y
  | VTuple xs, VTuple ys => all2 xs ys
  | VList x, VList y => Nat.eqb x y
  | VDict x, VDict y => Nat.eqb x y
  | VSet x, VSet y => Nat.eqb x y
  | VObject x, VObject y => Nat.eqb x y
  | VClass x, VClass y => Nat.eqb x y
  | VFunction x m, VFunction y n => Nat.eqb x y && Bool.eqb m n
  | VCoerce f, VCoerce g => bool_decide (f = g)
  | VCoercerClass, VCoercerClass => true
  | VInward c, VInward d => bool_decide (c = d)
  | VUniqueMember c k, VUniqueMember d j => py_is c d && py_is k j
  | VVouch f x m, VVouch g y n => py_is f g && String.eqb x y && Bool.eqb m n
  | IsType s xs, IsType r ys => Nat.eqb s r && all2 xs ys
  | Compose s xs, Compose r ys => Nat.eqb s r && all2 xs ys
  | Some_ s xs, Some_ r ys => Nat.eqb s r && all2 xs ys
  | Combo s xs, Combo r ys => Nat.eqb s r && all2 xs ys
  | Pargs s x, Pargs r y => Nat.eqb s r && py_is x y
  | Iterable s x x', Iterable r y y' =>
      Nat.eqb s r && py_is x y && py_is x' y'
  | Mapping s x x', Mapping r y y' =>
      Nat.eqb s r && py_is x y && py_is x' y'
  | _, _ => false
  end.

Fixpoint py_is_all (xs ys : list value) : bool :=
  match xs, ys with
  | [], [] => true
  | x :: xs', y :: ys' => py_is x y && py_is_all xs' ys'
  | _, _ => false
  end.

Lemma py_is_all_eq (xs : list value) :
  Forall (fun a => forall b, py_is a b = true <-> a = b) xs ->
  forall ys, py_is_all xs ys = true <-> xs = ys.
Proof.
  induction 1 as [|x xs Hx _ IH]; intros [|y ys]; simpl;
    try (split; [discriminate | intros E; discriminate E]).
  - split; reflexivity.
  - rewrite andb_true_iff, Hx, IH. split; [intros [-> ->] | intros E];
      [reflexivity | injection E; auto].
Qed.

Lemma py_is_eq (a b : value) : py_is a b = true <-> a = b.
Proof.
  revert b. induction a using value_ind'; intros other; destruct other;
    cbn [py_is];
    try (split; [discriminate | intros E; discriminate E]);
    try (split; reflexivity);
    fold py_is_all;
    rewrite ?andb_true_iff, ?Bool.eqb_true_iff, ?Z.eqb_eq, ?Nat.eqb_eq,
      ?String.eqb_eq, ?float_same_eq, ?bool_decide_eq_true,
      ?py_is_all_eq by assumption;
    rewrite ?IHa, ?IHa1, ?IHa2;
    try (split; [intros; f_equal; tauto | intros E; injection E; auto]).
Qed.

Lemma py_is_refl (a : value) : py_is a a = true.
Proof. apply py_is_eq. reflexivity. Qed.

(** ** The store *)

Inductive obj :=
| OList (items : list value)
| ODict (entries : list (value * value))
| OSet (members : list value)
| OCustom (scope : value).               (* the [scope] of a [custom] *)

Abbreviation store := (list obj) (only parsing).

(** ** Computations: a state and exception monad over the store *)

Definition M (A : Type) : Type := store -> result A * store.

Definition ret {A} (a : A) : M A := fun s => (Ret a, s).
Definition raise {A} (e : exn) : M A := fun s => (Raise e, s).
Definition bind {A B} (m : M A) (k : A -> M B) : M B :=
  fun s => match m s with
           | (Ret a, s') => k a s'
           | (Raise e, s') => (Raise e, s')
           end.
Definition lift {A} (r : result A) : M A := fun s => (r, s).
Definition read {A} (f : store -> A) : M A := fun s => (Ret (f s), s).

Notation "x <- m ;; k" := (bind m (fun x => k))
  (at level 100, m at next level, right associativity).
Notation "m ;;; k" := (bind m (fun _ => k))
  (at level 100, right associativity).

(** [try: ... except BaseException: pass] around [m], keeping [dflt]. *)
Definition try_or {A} (m : M A) (dflt : A) : M A :=
  fun s => match m s with
           | (Ret a, s') => (Ret a, s')
           | (Raise _, s') => (Ret dflt, s')
           end.

Definition alloc (o : obj) : M loc :=
  fun s => (Ret (length s), s ++ [o]).

Definition set_scope (self : loc) (v : value) : M unit :=
  fun s => (Ret tt, <[self := OCustom v]> s).

Definition scope_of (s : store) (self : loc) : option value :=
  match s !! self with
  | Some (OCustom v) => Some v
  | _ => None
  end.

(** [custom.__init__]: [self.scope = Unset] on a new instance. *)
Definition new_custom : M loc := alloc (OCustom VUnset).

Lemma bind_ret {A B} (a : A) (k : A -> M B) (s : store) :
  bind (ret a) k s = k a s.
Proof. reflexivity. Qed.

Lemma bind_eq_ret {A B} (m : M A) (k : A -> M B) s b s'' :
  bind m k s = (Ret b, s'') ->
  exists a s', m s = (Ret a, s') /\ k a s' = (Ret b, s'').
Proof.
  unfold bind. destruct (m s) as [[a|e] s']; [eauto | discriminate].
Qed.

(** ** What the run time supplies *)

Definition kwargs := list (string * value).

Record Builtins := {
  (* [float(s)] of a string; [None] when it raises [ValueError] *)
  float_of_str : string -> option float;
  (* [hash(v)] of a hashable value *)
  py_hash : value -> Z;
  (* [str(v)] *)
  py_str : store -> value -> string;
  (* [xoutil.tools.both_args_repr(args, kwargs)] *)
  both_args_repr : store -> list value -> kwargs -> string;
  (* the functions defined outside the module: name and body *)
  fun_name : nat -> string;
  fun_body : nat -> store -> list value -> kwargs -> result value;
  (* the classes defined outside the module *)
  class_name : nat -> string;
  class_call : nat -> store -> list value -> kwargs -> result value;
  class_instance : value -> nat -> bool;
  (* the class [collections.Mapping] *)
  abc_Mapping : nat;
}.

(** ** Truth, equality, hashing *)

Definition is_empty_str (s : string) : bool :=
  match s with EmptyString => true | _ => false end.

(** Python's truth value of an object.  The [custom] classes define
    neither [__bool__] nor [__len__]: their instances are true, as are
    functions, classes and plain objects. *)
Definition truthy (s : store) (v : value) : bool :=
  match v with
  | VNone | VUnset => false
  | VLogical b | VBool b => b
  | VInt z => negb (z =? 0)
  | VFloat f => negb (float_eqb f float_zero)
  | VComplex re im =>
      negb (float_eqb re float_zero) || negb (float_eqb im float_zero)
  | VStr x => negb (is_empty_str x)
  | VTuple items => match items with [] => false | _ => true end
  | VList l => match s !! l with Some (OList []) => false | _ => true end
  | VDict l => match s !! l with Some (ODict []) => false | _ => true end
  | VSet l => match s !! l with Some (OSet []) => false | _ => true end
  | _ => true
  end.

(** [logical.__call__]. *)
Definition logical_call (s : store) (self arg : value) : value :=
  if truthy s self then
    if truthy s arg || py_is arg v_nil then arg else self
  else
    if py_is arg self then v_t else self.

(** The test [if t(x):] of the module. *)
Definition t_ok (s : store) (x : value) : bool :=
  truthy s (logical_call s v_t x).

(** The algebra tests success against [nil] only: [0], the empty string
    and empty containers pass. *)
Lemma t_ok_not_nil (s : store) (x : value) : t_ok s x = negb (py_is x v_nil).
Proof.
  unfold t_ok, logical_call. simpl.
  destruct (truthy s x) eqn:Hx; simpl.
  - rewrite Hx. destruct x; try reflexivity. simpl in *. subst. reflexivity.
  - destruct (py_is x v_nil) eqn:Hn; simpl; [|reflexivity].
    apply py_is_eq in Hn. subst. reflexivity.
Qed.

Lemma t_ok_nil (s : store) : t_ok s v_nil = false.
Proof. reflexivity. Qed.

Lemma t_ok_true (s : store) (x : value) : x <> v_nil -> t_ok s x = true.
Proof.
  intros H. rewrite t_ok_not_nil. destruct (py_is x v_nil) eqn:E; [|reflexivity].
  apply py_is_eq in E. contradiction.
Qed.

Lemma t_ok_false (s : store) (x : value) : t_ok s x = false -> x = v_nil.
Proof.
  rewrite t_ok_not_nil. destruct (py_is x v_nil) eqn:E; [|discriminate].
  intros _. apply py_is_eq. exact E.
Qed.

(** The numbers.  [xoutil.symbols.boolean] is not part of the sources:
    its instances ([nil], [t], [Unset]) are integers that compare like
    their truth value, which is what [source == 1] in [coercer.__new__]
    relies on. *)
Inductive num := NInt (z : Z) | NFloat (f : float) | NComplex (re im : float).

Definition as_num (v : value) : option num :=
  match v with
  | VUnset => Some (NInt 0)
  | VLogical b | VBool b => Some (NInt (Z.b2z b))
  | VInt z => Some (NInt z)
  | VFloat f => Some (NFloat f)
  | VComplex re im => Some (NComplex re im)
  | _ => None
  end.

Definition num_eq (a b : num) : bool :=
  match a, b with
  | NInt x, NInt y => x =? y
  | NInt x, NFloat f | NFloat f, NInt x => float_eq_int f x
  | NFloat f, NFloat g => float_eqb f g
  | NInt x, NComplex re im | NComplex re im, NInt x =>
      float_eqb im float_zero && float_eq_int re x
  | NFloat f, NComplex re im | NComplex re im, NFloat f =>
      float_eqb im float_zero && float_eqb re f
  | NComplex re im, NComplex re' im' => float_eqb re re' && float_eqb im im'
  end.

(** Python's [==].  Numbers compare by value across their types, strings
    and tuples by content; every other object is equal to itself only.
    Two distinct lists, dicts or sets are never compared by content in
    the module: one operand of [==] is always hashable there (a dict key,
    a set member, or the left operand of [in] after [hash] succeeded). *)
Fixpoint py_eq (a b : value) {struct a} : bool :=
  match as_num a, as_num b with
  | Some x, Some y => num_eq x y
  | _, _ =>
      match a, b with
      | VStr x, VStr y => String.eqb x y
      | VTuple xs, VTuple ys =>
          (fix all2 (xs ys : list value) {struct xs} : bool :=
             match xs, ys with
             | [], [] => true
             | x :: xs', y :: ys' => (py_is x y || py_eq x y) && all2 xs' ys'
             | _, _ => false
             end) xs ys
      | _, _ => py_is a b
      end
  end.

Fixpoint hashable (v : value) : bool :=
  match v with
  | VList _ | VDict _ | VSet _ => false
  | VTuple items => forallb hashable items
  | _ => true
  end.

(** ** The abstract base classes, on the universe of values *)

Definition is_iterable (v : value) : bool :=
  match v with
  | VStr _ | VTuple _ | VList _ | VDict _ | VSet _ => true
  | _ => false
  end.

(** Every iterable among these values has a length.  The iterables
    that have none, generators and the other one-shot iterators, are not
    values of this embedding; no statement below speaks of them. *)
Definition is_sized (v : value) : bool := is_iterable v.

Definition is_sequence (v : value) : bool :=
  match v with VStr _ | VTuple _ | VList _ => true | _ => false end.

Definition is_mutable_sequence (v : value) : bool :=
  match v with VList _ => true | _ => false end.

Definition is_set (v : value) : bool :=
  match v with VSet _ => true | _ => false end.

Definition is_mapping (v : value) : bool :=
  match v with VDict _ => true | _ => false end.

Definition is_mutable_mapping (v : value) : bool :=
  match v with VDict _ => true | _ => false end.

(** [integer_types]: [bool] and the [symbol]s are integers too. *)
Definition int_value (v : value) : option Z :=
  match as_num v with
  | Some (NInt z) => Some z
  | _ => None
  end.

Definition is_tuple (v : value) : bool :=
  match v with VTuple _ => true | _ => false end.

Definition is_tuple_or_list (v : value) : bool :=
  match v with VTuple _ | VList _ => true | _ => false end.

(** ** Strings *)

Definition chars_of (x : string) : list value :=
  map (fun c => VStr (String c EmptyString)) (list_ascii_of_string x).

Definition ends_with (suffix x : string) : bool :=
  (String.length suffix <=? String.length x)%nat &&
  String.eqb
    (substring (String.length x - String.length suffix)
               (String.length suffix) x) suffix.

(** [res[:-len(suffix)]] when [res.endswith(suffix)]. *)
Definition strip_suffix (suffix x : string) : string :=
  if ends_with suffix x
  then substring 0 (String.length x - String.length suffix) x
  else x.

Fixpoint join_str (sep : string) (parts : list string) : string :=
  match parts with
  | [] => EmptyString
  | [p] => p
  | p :: rest => (p ++ sep ++ join_str sep rest)%string
  end.

(** [x in y] for two strings. *)
Fixpoint is_substring (x y : string) : bool :=
  String.prefix x y ||
  match y with
  | EmptyString => false
  | String _ y' => is_substring x y'
  end.

(** The character classes of the two regular expressions. *)
Definition is_letter_ (c : ascii) : bool :=
  let n := nat_of_ascii c in
  ((65 <=? n) && (n <=? 90) || (97 <=? n) && (n <=? 122) || (n =? 95))%nat.

Definition is_word (c : ascii) : bool :=
  let n := nat_of_ascii c in
  (is_letter_ c || (48 <=? n) && (n <=? 57))%nat.

Definition newline : ascii := "010"%char.
Definition dot : ascii := "."%char.

(** [[\w]*$]: word characters up to the end of the string, or up to a
    newline that ends it. *)
Fixpoint word_tail (x : string) : bool :=
  match x with
  | EmptyString => true
  | String c r =>
      if is_word c then word_tail r
      else Ascii.eqb c newline && is_empty_str r
  end.

(** [_IDENTIFIER_REGEX.match]: [(?i)^[_a-z][\w]*$].  The letters and
    the word characters are the ASCII ones; what [(?i)] and [\w] add
    to them on the Unicode strings of Python 3 is left out. *)
Definition identifier_match (x : string) : bool :=
  match x with
  | EmptyString => false
  | String c r => is_letter_ c && word_tail r
  end.

(** The rest of a dotted identifier: word characters, then any number of
    groups made of a dot, a letter or underscore and word characters, up
    to the end of the string or to a newline that ends it. *)
Fixpoint dotted_tail (x : string) : bool :=
  match x with
  | EmptyString => true
  | String c r =>
      if is_word c then dotted_tail r
      else if Ascii.eqb c dot then
        match r with
        | EmptyString => false
        | String c' r' => is_letter_ c' && dotted_tail r'
        end
      else Ascii.eqb c newline && is_empty_str r
  end.

(** [_FULL_IDENTIFIER_REGEX.match]. *)
Definition full_identifier_match (x : string) : bool :=
  match x with
  | EmptyString => false
  | String c r => is_letter_ c && dotted_tail r
  end.

(** * The module, over the run time [B] *)

Section Algebra.

Variable B : Builtins.

(** ** Containers *)

Definition not_iterable {A} : M A := raise (TypeError "object is not iterable").
Definition lost {A} : M A := raise (Exn "SystemError" "no such object").

(** [hash(v)]. *)
Definition hash_of (v : value) : M Z :=
  if hashable v then ret (py_hash B v) else raise (TypeError "unhashable type").

(** The members that iterating over [v] yields. *)
Definition items_of (v : value) : M (list value) :=
  match v with
  | VStr x => ret (chars_of x)
  | VTuple items => ret items
  | VList l =>
      fun s => match s !! l with
               | Some (OList items) => (Ret items, s)
               | _ => lost s
               end
  | VDict l =>
      fun s => match s !! l with
               | Some (ODict entries) => (Ret (map fst entries), s)
               | _ => lost s
               end
  | VSet l =>
      fun s => match s !! l with
               | Some (OSet members) => (Ret members, s)
               | _ => lost s
               end
  | _ => not_iterable
  end.

(** [tuple(v)]: a tuple is returned as it is. *)
Definition py_tuple (v : value) : M value :=
  items <- items_of v ;; ret (VTuple items).

(** [list(v)]: always a new list. *)
Definition py_list (v : value) : M value :=
  items <- items_of v ;; l <- alloc (OList items) ;; ret (VList l).

(** [len(v)]. *)
Definition py_len (v : value) : M nat :=
  if is_sized v then items <- items_of v ;; ret (length items)
  else raise (TypeError "object has no len()").

(** [v[i]] of a sequence. *)
Definition py_getitem (v : value) (i : nat) : M value :=
  if is_sequence v then
    items <- items_of v ;;
    match items !! i with
    | Some x => ret x
    | None => raise (IndexError "index out of range")
    end
  else raise (TypeError "object is not subscriptable").

(** [v[i] = x]: in place, on a list only. *)
Definition py_setitem (v : value) (i : nat) (x : value) : M unit :=
  match v with
  | VList l =>
      fun s => match s !! l with
               | Some (OList items) =>
                   if (i <? length items)%nat
                   then (Ret tt, <[l := OList (<[i := x]> items)]> s)
                   else raise (IndexError "assignment index out of range") s
               | _ => lost s
               end
  | _ => raise (TypeError "object does not support item assignment")
  end.

(** Two keys of a dict or members of a set are the same entry. *)
Definition key_match (k k' : value) : bool :=
  (py_hash B k =? py_hash B k') && (py_is k' k || py_eq k' k).

Fixpoint entries_get (entries : list (value * value)) (k : value)
  : option value :=
  match entries with
  | [] => None
  | (k', v) :: rest => if key_match k k' then Some v else entries_get rest k
  end.

Fixpoint entries_del (entries : list (value * value)) (k : value)
  : list (value * value) :=
  match entries with
  | [] => []
  | (k', v) :: rest =>
      if key_match k k' then rest else (k', v) :: entries_del rest k
  end.

(** Assignment keeps the key object already stored and its position. *)
Fixpoint entries_set (entries : list (value * value)) (k v : value)
  : list (value * value) :=
  match entries with
  | [] => [(k, v)]
  | (k', v') :: rest =>
      if key_match k k' then (k', v) :: rest
      else (k', v') :: entries_set rest k v
  end.

Definition entries_of (d : value) : M (list (value * value)) :=
  match d with
  | VDict l =>
      fun s => match s !! l with
               | Some (ODict entries) => (Ret entries, s)
               | _ => lost s
               end
  | _ => raise (TypeError "object is not a mapping")
  end.

Definition put_entries (d : value) (entries : list (value * value)) : M unit :=
  match d with
  | VDict l => fun s => (Ret tt, <[l := ODict entries]> s)
  | _ => raise (TypeError "object is not a mapping")
  end.

(** [d[k]]. *)
Definition dict_getitem (d k : value) : M value :=
  entries <- entries_of d ;;
  _ <- hash_of k ;;
  match entries_get entries k with
  | Some v => ret v
  | None => raise (KeyError "key")
  end.

(** [del d[k]]. *)
Definition dict_delitem (d k : value) : M unit :=
  entries <- entries_of d ;;
  _ <- hash_of k ;;
  match entries_get entries k with
  | Some _ => put_entries d (entries_del entries k)
  | None => raise (KeyError "key")
  end.

(** [d[k] = v]. *)
Definition dict_setitem (d k v : value) : M unit :=
  entries <- entries_of d ;;
  _ <- hash_of k ;;
  put_entries d (entries_set entries k v).

(** [dict(d)] of a mapping: a new dict with the same entries. *)
Definition dict_copy (d : value) : M value :=
  entries <- entries_of d ;;
  l <- alloc (ODict entries) ;;
  ret (VDict l).

(** The members of [set(items)], in the order of their first occurrence. *)
Fixpoint set_members (items acc : list value) : list value :=
  match items with
  | [] => acc
  | x :: rest =>
      if existsb (key_match x) acc then set_members rest acc
      else set_members rest (acc ++ [x])
  end.

(** [dict(items)] of a sequence of pairs. *)
Fixpoint pairs_of (members : list (list value)) : option (list (value * value)) :=
  match members with
  | [] => Some []
  | [k; v] :: rest =>
      match pairs_of rest with
      | Some ps => Some ((k, v) :: ps)
      | None => None
      end
  | _ => None
  end.

Fixpoint map_m {A C} (f : A -> M C) (l : list A) : M (list C) :=
  match l with
  | [] => ret []
  | x :: rest => y <- f x ;; ys <- map_m f rest ;; ret (y :: ys)
  end.

(** [type(arg)(items)] for the members [items]. *)
Definition build (arg : value) (items : list value) : M value :=
  match arg with
  | VTuple _ => ret (VTuple items)
  | VList _ => l <- alloc (OList items) ;; ret (VList l)
  | VSet _ =>
      _ <- map_m hash_of items ;;
      l <- alloc (OSet (set_members items [])) ;;
      ret (VSet l)
  | VDict _ =>
      members <- map_m items_of items ;;
      match pairs_of members with
      | Some ps =>
          _ <- map_m hash_of (map fst ps) ;;
          l <- alloc (ODict (fold_left
                               (fun acc p => entries_set acc (fst p) (snd p))
                               ps [])) ;;
          ret (VDict l)
      | None => raise (TypeError "cannot convert dictionary update sequence")
      end
  | _ => raise (TypeError "cannot construct")
  end.

(** [type(arg)(res)], for [res] a list of the store. *)
Definition construct_like (arg res : value) : M value :=
  match arg with
  | VStr _ => fun s => (Ret (VStr (py_str B s res)), s)
  | _ => items <- items_of res ;; build arg items
  end.

(** [x in container]. *)
Definition py_contains (container x : value) : M bool :=
  match container with
  | VTuple _ | VList _ =>
      items <- items_of container ;;
      ret (existsb (fun e => py_is e x || py_eq e x) items)
  | VSet _ | VDict _ =>
      items <- items_of container ;;
      _ <- hash_of x ;;
      ret (existsb (key_match x) items)
  | VStr y =>
      match x with
      | VStr x' => ret (is_substring x' y)
      | _ => raise (TypeError "'in <string>' requires string as left operand")
      end
  | _ => raise (TypeError "argument is not iterable")
  end.

(** ** The primitive coercers *)

(** [int(v)], for the floats that [float_coerce] returns. *)
Definition py_int (v : value) : M Z :=
  match v with
  | VFloat f => lift (int_of_float f)
  | _ => match int_value v with
         | Some z => ret z
         | None => raise (TypeError "int() argument must be a number")
         end
  end.

(** [v - z == 0], for a float [v] and an integer [z]. *)
Definition minus_is_zero (v : value) (z : Z) : M bool :=
  match v with
  | VFloat f =>
      g <- lift (float_of_int z) ;;
      ret (float_eq_int (float_sub f g) 0)
  | _ => raise (TypeError "unsupported operand type(s) for -")
  end.

Definition identity_coerce_body (arg : value) : M value := ret arg.

Definition void_coerce_body (arg : value) : M value := ret v_nil.

Definition is_class (v : value) : bool :=
  match v with VClass _ | VCoercerClass => true | _ => false end.

Definition type_coerce_body (arg : value) : M value :=
  ret (if is_class arg then arg else v_nil).

(** [t(type_coerce(x))] holds exactly when [x] is a class. *)
Definition types_tuple_coerce_body (arg : value) : M value :=
  if is_class arg then ret (VTuple [arg])
  else match arg with
       | VTuple tps => ret (if forallb is_class tps then arg else v_nil)
       | _ => ret v_nil
       end.

Definition is_callable (v : value) : bool :=
  match v with
  | VLogical _ | VClass _ | VFunction _ _ | VCoerce _ | VCoercerClass
  | VInward _ | VUniqueMember _ _ | VVouch _ _ _ | IsType _ _ | Compose _ _
  | Some_ _ _ | Combo _ _ | Pargs _ _ | Iterable _ _ _ | Mapping _ _ _ => true
  | _ => false
  end.

Definition callable_coerce_body (arg : value) : M value :=
  ret (if is_callable arg then arg else v_nil).

Definition float_coerce_body (arg : value) : M value :=
  match arg with
  | VFloat _ => ret arg
  | _ =>
      match int_value arg with
      | Some z => f <- lift (float_of_int z) ;; ret (VFloat f)
      | None =>
          match arg with
          | VStr x =>
              match float_of_str B x with
              | Some f => ret (VFloat f)
              | None => ret v_nil
              end
          | VComplex re im =>
              ret (if float_eq_int im 0 then VFloat re else v_nil)
          | _ => ret v_nil
          end
      end
  end.

Definition int_coerce_body (arg : value) : M value :=
  match int_value arg with
  | Some _ => ret arg
  | None =>
      arg <- float_coerce_body arg ;;
      ok <- read (fun s => t_ok s arg) ;;
      if ok then
        res <- py_int arg ;;
        exact <- minus_is_zero arg res ;;
        ret (if exact then VInt res else v_nil)
      else ret v_nil
  end.

Definition number_coerce_body (arg : value) : M value :=
  match int_value arg with
  | Some _ => ret arg
  | None =>
      f <- float_coerce_body arg ;;
      ok <- read (fun s => t_ok s f) ;;
      if ok then
        i <- py_int f ;;
        exact <- minus_is_zero f i ;;
        ret (if exact then VInt i else f)
      else ret v_nil
  end.

(** [res >= 0]. *)
Definition ge_zero (res : value) : M bool :=
  match as_num res with
  | Some (NInt z) => ret (0 <=? z)
  | Some (NFloat f) => ret (SFleb float_zero f)
  | _ => raise (TypeError "'>=' not supported")
  end.

Definition positive_int_coerce_body (arg : value) : M value :=
  res <- int_coerce_body arg ;;
  if py_is res v_nil then ret res
  else ok <- ge_zero res ;; ret (if ok then res else v_nil).

Definition identifier_coerce_body (arg : value) : M value :=
  match arg with
  | VStr x => ret (if identifier_match x then arg else v_nil)
  | _ => ret v_nil
  end.

Definition full_identifier_coerce_body (arg : value) : M value :=
  match arg with
  | VStr x => ret (if full_identifier_match x then arg else v_nil)
  | _ => ret v_nil
  end.

(** [sized_coerce].  The branch [list(arg)] is the one of the
    iterables without a length, of which the embedding has none. *)
Definition sized_coerce_body (arg : value) : M value :=
  if is_iterable arg then
    if is_sized arg then ret arg else py_list arg
  else ret v_nil.

(** ** The coercer capability *)

(** [isinstance(v, boolean)]: [MetaSymbol] is not part of the sources.
    Python's own [True] and [False] pass the test: the module hands
    [True] to [coercer] where it means identity ([flatten.__init__],
    [iterable.__init__], [mapping.__new__]). *)
Definition is_boolean (v : value) : bool :=
  match v with VUnset | VLogical _ | VBool _ => true | _ => false end.

(** [MetaCoercer.__instancecheck__]: the mark [__coercer__], or an
    instance of a class that [coercer] adopted. *)
Definition has_coercer_mark (v : value) : bool :=
  match v with
  | VFunction _ m | VVouch _ _ m => m
  | VCoerce _ | VCoercerClass | VInward _ | VUniqueMember _ _ => true
  | _ => false
  end.

Definition is_custom (v : value) : bool :=
  match v with
  | IsType _ _ | Compose _ _ | Some_ _ _ | Combo _ _ | Pargs _ _
  | Iterable _ _ _ | Mapping _ _ _ => true
  | _ => false
  end.

Definition is_coercer (v : value) : bool := has_coercer_mark v || is_custom v.

(** [isinstance(v, (function, staticmethod, classmethod))]. *)
Definition is_function (v : value) : bool :=
  match v with
  | VFunction _ _ | VCoerce _ | VUniqueMember _ _ | VVouch _ _ _ => true
  | _ => false
  end.

(** [_coercer_decorator]: sets [__coercer__] on the function.  The mark
    is part of the value here, so that the marked function is another
    value than the unmarked one and [py_is] tells them apart, whereas
    Python marks the function object itself and returns that object. *)
Definition coercer_decorator (v : value) : value :=
  match v with
  | VFunction id _ => VFunction id true
  | VVouch fn name _ => VVouch fn name true
  | _ => v
  end.

(** [isinstance(arg, types)] for a tuple of classes. *)
Fixpoint isinstance_any (arg : value) (types : list value) : M bool :=
  match types with
  | [] => ret false
  | VClass id :: rest =>
      if class_instance B arg id then ret true else isinstance_any arg rest
  | VCoercerClass :: rest =>
      if is_coercer arg then ret true else isinstance_any arg rest
  | _ :: _ => raise (TypeError "isinstance() arg 2 must be a type")
  end.

(** ** Names *)

Definition funcname_str (f : funcname) : string :=
  match f with
  | fn_identity_coerce => "identity_coerce"
  | fn_void_coerce => "void_coerce"
  | fn_type_coerce => "type_coerce"
  | fn_types_tuple_coerce => "types_tuple_coerce"
  | fn_callable_coerce => "callable_coerce"
  | fn_float_coerce => "float_coerce"
  | fn_int_coerce => "int_coerce"
  | fn_number_coerce => "number_coerce"
  | fn_positive_int_coerce => "positive_int_coerce"
  | fn_identifier_coerce => "identifier_coerce"
  | fn_full_identifier_coerce => "full_identifier_coerce"
  | fn_names_coerce => "names_coerce"
  | fn_sized_coerce => "sized_coerce"
  end.

(** [type(self).__name__], [self.inner] and [self._str_join] of a
    [custom] instance. *)
Definition custom_cls_name (v : value) : string :=
  match v with
  | IsType _ _ => "istype"
  | Compose _ _ => "compose"
  | Some_ _ _ => "some"
  | Combo _ _ => "combo"
  | Pargs _ _ => "pargs"
  | Iterable _ _ _ => "iterable"
  | Mapping _ _ _ => "mapping"
  | _ => ""
  end.

Definition custom_inner (v : value) : value :=
  match v with
  | IsType _ inner | Compose _ inner | Some_ _ inner | Combo _ inner =>
      VTuple inner
  | Pargs _ inner => inner
  | Iterable _ m o => VTuple [m; o]
  | Mapping _ k v => VTuple [k; v]
  | _ => VNone
  end.

Definition custom_str_join (v : value) : string :=
  match v with Mapping _ _ _ => ":" | _ => "_" end.

(** ["{}".format(v)]. *)
Definition py_format (s : store) (v : value) : string :=
  match v with VStr x => x | _ => py_str B s v end.

Definition is_tuple_list_set (v : value) : bool :=
  match v with VTuple _ | VList _ | VSet _ => true | _ => false end.

Fixpoint strs_of (items : list value) : M (list string) :=
  match items with
  | [] => ret []
  | VStr x :: rest => xs <- strs_of rest ;; ret (x :: xs)
  | _ :: _ => raise (TypeError "sequence item: expected str instance")
  end.

(** Python bounds the depth of recursion; [coercer_name] recurses into
    the members of collections, and lists of the store may be cyclic. *)
Definition recursion_limit : nat := 1000.
Definition RecursionError : exn :=
  Exn "RecursionError" "maximum recursion depth exceeded".

(** [coercer_name(arg, join)] and, for a [custom] instance without a
    [__name__], [custom.__str__].  [join] is [None], a string, or a
    function defined outside the module; another callable given as
    [join] is not embedded, and the call raises on it here.  The name that
    [create_unique_member_coerce] gives its closure is computed here
    rather than stored. *)
Fixpoint coercer_name (depth : nat) (arg join : value) {struct depth}
  : M value :=
  match depth with
  | O => raise RecursionError
  | S depth' =>
      if is_tuple_list_set arg then
        items <- items_of arg ;;
        names <- map_m (fun c => coercer_name depth' c VNone) items ;;
        res <- build arg names ;;
        match join with
        | VStr sep =>
            members <- items_of res ;;
            parts <- strs_of members ;;
            ret (VStr (join_str sep parts))
        | VFunction id _ =>
            joined <- (fun s => (fun_body B id s [res] [], s)) ;;
            fun s => (Ret (VStr (py_format s joined)), s)
        | _ =>
            is_given <- read (fun s => truthy s join) ;;
            if is_given then raise (TypeError "object is not callable")
            else ret res
        end
      else
        res <- match arg with
               | VFunction id _ => ret (fun_name B id)
               | VCoerce f => ret (funcname_str f)
               | VCoercerClass => ret "coercer"
               | VClass id => ret (class_name B id)
               | VInward _ => ret "inward"
               | VVouch _ name _ => ret name
               | VUniqueMember coerce _ =>
                   cname <- coercer_name depth' coerce VNone ;;
                   fun s => (Ret ("unique_member_" ++ py_format s cname
                                    ++ "_coerce")%string, s)
               | _ =>
                   if is_custom arg then
                     name <- coercer_name depth' (custom_inner arg)
                               (VStr (custom_str_join arg)) ;;
                     fun s => (Ret (py_format s name ++ "_"
                                      ++ custom_cls_name arg ++ "_coerce")%string,
                               s)
                   else fun s => (Ret (py_str B s arg), s)
               end ;;
        ret (VStr (strip_suffix "_coerce" res))
  end.

(** ** Calling *)

Section Calls.

(** [call callee arg] is [callee(arg)]; the knot is tied below. *)
Variable call : value -> value -> M value.

(** The one parameter of the callables of the module. *)
Definition param_name (callee : value) : string :=
  match callee with
  | VCoercerClass => "source"
  | VInward _ => "c"
  | _ => "arg"
  end.

Definition one_arg (pname : string) (args : list value) (kw : kwargs)
  : M value :=
  match args, kw with
  | [a], [] => ret a
  | [], [(k, a)] =>
      if String.eqb k pname then ret a
      else raise (TypeError "got an unexpected keyword argument")
  | _, _ => raise (TypeError "wrong number of arguments")
  end.

(** [fn( *args, **kwargs)]. *)
Definition apply_rec (fn : value) (args : list value) (kw : kwargs)
  : M value :=
  match fn with
  | VFunction id _ => fun s => (fun_body B id s args kw, s)
  | VClass id => fun s => (class_call B id s args kw, s)
  | _ => a <- one_arg (param_name fn) args kw ;; call fn a
  end.

Definition quote : string := String "034"%char EmptyString.

(** ['"{}" fails with when called with: ({})'.format(name, args)]. *)
Definition vouch_message (name args_repr : string) : string :=
  (quote ++ name ++ quote ++ " fails with when called with: ("
     ++ args_repr ++ ")")%string.

(** [vouch(fn, *args, **kwargs)], with [run] for [fn( *args, **kwargs)]. *)
Definition vouch_by (run : list value -> kwargs -> M value)
    (fn : value) (args : list value) (kw : kwargs) : M value :=
  match args, kw with
  | [], [] =>
      name <- try_or (n <- coercer_name recursion_limit fn VNone ;;
                      match n with
                      | VStr x => ret x
                      | _ => raise (TypeError "__name__ must be a string")
                      end) "res" ;;
      ret (VVouch fn name false)
  | _, _ =>
      let args := match args with
                  | [a] => if py_is a v_nil then [] else args
                  | _ => args
                  end in
      res <- run args kw ;;
      ok <- read (fun s => t_ok s res) ;;
      if ok then ret res
      else
        name <- coercer_name recursion_limit fn VNone ;;
        msg <- read (fun s => vouch_message (py_format s name)
                                (both_args_repr B s args kw)) ;;
        raise (TypeError msg)
  end.

Definition vouch_rec (fn : value) (args : list value) (kw : kwargs)
  : M value :=
  vouch_by (apply_rec fn) fn args kw.

(** [istype.__new__]. *)
Definition istype_new (types : value) : M value :=
  nonempty <- read (fun s => truthy s types) ;;
  if nonempty then
    self <- new_custom ;;
    inner <- vouch_by (fun args kw => a <- one_arg "arg" args kw ;;
                                      types_tuple_coerce_body a)
               types_tuple_coerce [types] [] ;;
    match inner with
    | VTuple tps => ret (IsType self tps)
    | _ => raise (TypeError "isinstance() arg 2 must be a type")
    end
  else ret void_coerce.

(** [coercer.__new__]. *)
Definition coercer_new (source : value) : M value :=
  if py_eq source (VInt 1) && is_boolean source then ret identity_coerce
  else if py_is source VNone || (py_eq source (VInt 0) && is_boolean source)
  then ret void_coerce
  else if is_coercer source then ret source
  else if is_function source then ret (coercer_decorator source)
  else
    inner <- types_tuple_coerce_body source ;;
    ok <- read (fun s => truthy s inner) ;;
    if ok then istype_new inner else ret v_nil.

(** [custom.inward], bound to [cls]. *)
Definition inward (cls : custom_class) (c : value) : M value :=
  match cls, c with
  | cls_compose, Compose _ inner => ret (VTuple inner)
  | cls_some, Some_ _ inner => ret (VTuple inner)
  | _, _ => ret c
  end.

(** [istype.__call__]. *)
Definition istype_call (inner : list value) (arg : value) : M value :=
  ok <- isinstance_any arg inner ;;
  ret (if ok then arg else v_nil).

(** [compose.__call__]: the loop over [coercers[i:]], [res] so far. *)
Fixpoint compose_loop (self : loc) (coercers : list value) (res : value)
  : M value :=
  match coercers with
  | [] => ret res
  | coerce :: rest =>
      aux <- call coerce res ;;
      ok <- read (fun s => t_ok s aux) ;;
      if ok then compose_loop self rest aux
      else set_scope self (VTuple [res; coerce]) ;;; ret aux
  end.

Definition compose_call (self : loc) (inner : list value) (arg : value)
  : M value :=
  compose_loop self inner arg.

(** [some.__call__]. *)
Fixpoint some_loop (self : loc) (coercers : list value) (arg : value)
  : M value :=
  match coercers with
  | [] => ret v_nil
  | coercer :: rest =>
      value <- call coercer arg ;;
      ok <- read (fun s => t_ok s value) ;;
      if ok then set_scope self coercer ;;; ret value
      else some_loop self rest arg
  end.

Definition some_call (self : loc) (inner : list value) (arg : value)
  : M value :=
  some_loop self inner arg.

(** Iterators.  The iterator of a list reads the list when it is asked
    for the next member; the other containers cannot change while they
    are iterated over. *)
Inductive iterator :=
| ItMembers (rest : list value)
| ItList (l : loc) (i : nat).

Definition py_iter (arg : value) : M iterator :=
  match arg with
  | VList l => ret (ItList l 0)
  | _ => items <- items_of arg ;; ret (ItMembers items)
  end.

(** [next(items, dflt)]. *)
Definition py_next (items : iterator) (dflt : value) : M (value * iterator) :=
  match items with
  | ItMembers [] => ret (dflt, items)
  | ItMembers (x :: rest) => ret (x, ItMembers rest)
  | ItList l i =>
      members <- items_of (VList l) ;;
      match members !! i with
      | Some x => ret (x, ItList l (S i))
      | None => ret (dflt, items)
      end
  end.

(** [combo.__call__]: the loop over [coercers[i:]].  The list [res] is
    local to the call until it is returned: it is kept as the sequence of
    its members and put in the store after the loop.  [None] stands for
    [res = nil]. *)
Fixpoint combo_loop (self : loc) (coercers : list value) (items : iterator)
    (res : list value) : M (option (list value)) :=
  match coercers with
  | [] => ret (Some res)
  | coerce :: rest =>
      nxt <- py_next items VUnset ;;
      let '(item, items) := nxt in
      if negb (py_is item VUnset) then
        value <- call coerce item ;;
        ok <- read (fun s => t_ok s value) ;;
        if ok then combo_loop self rest items (res ++ [value])
        else set_scope self (VTuple [item; coerce]) ;;; ret None
      else ret (Some res)
  end.

Definition combo_call (self : loc) (inner : list value) (arg : value)
  : M value :=
  if is_iterable arg then
    items <- py_iter arg ;;
    out <- combo_loop self inner items [] ;;
    match out with
    | Some members =>
        l <- alloc (OList members) ;;
        try_or (construct_like arg (VList l)) (VList l)
    | None => ret v_nil
    end
  else ret v_nil.

(** [pargs.__call__]: the loop over [res[i:]].  [res] is a tuple, or the
    list made of it at the first change; that list is local to the call
    and turned into a tuple before it returns, so [res] is kept as the
    sequence [done ++ todo] of its members.  [None] stands for
    [res = nil]. *)
Fixpoint pargs_loop (self : loc) (coerce : value) (todo done : list value)
  : M (option (list value)) :=
  match todo with
  | [] => ret (Some done)
  | item :: rest =>
      new <- call coerce item ;;
      ok <- read (fun s => t_ok s new) ;;
      if ok then
        pargs_loop self coerce rest
          (done ++ [if negb (py_is new item) then new else item])
      else set_scope self item ;;; ret None
  end.

Definition pargs_call (self : loc) (coerce : value) (arg : value) : M value :=
  if is_iterable arg then
    arg <- items_of arg ;;
    st <- match arg with
          | [item] =>
              aux <- call coerce item ;;
              ok <- read (fun s => t_ok s aux) ;;
              if ok then ret (VTuple [aux], arg)
              else if is_iterable item then
                arg <- items_of item ;; ret (VUnset, arg)
              else set_scope self item ;;; ret (v_nil, arg)
          | _ => ret (VUnset, arg)
          end ;;
    let '(res, arg) := st in
    if py_is res VUnset then
      out <- pargs_loop self coerce arg [] ;;
      match out with
      | Some members => ret (VTuple members)
      | None => ret v_nil
      end
    else ret res
  else ret v_nil.

(** [create_unique_member_coerce]: the closure [inner]. *)
Definition unique_member_call (coerce container : value) (arg : value)
  : M value :=
  res <- call coerce arg ;;
  ok <- read (fun s => t_ok s res) ;;
  if ok then
    hres <- hash_of res ;;
    harg <- hash_of arg ;;
    if negb (hres =? harg) then
      found <- py_contains container res ;;
      ret (if found then v_nil else res)
    else ret res
  else ret res.

(** [mapping.__call__]: the loop over [keys[i:]]. *)
Fixpoint mapping_loop (self : loc) (key_coercer value_coercer : value)
    (keys : list value) (res : value) (retyped mutable : bool)
  : M (value * bool) :=
  match keys with
  | [] => ret (res, retyped)
  | key :: rest =>
      value <- dict_getitem res key ;;
      new_key <- call key_coercer key ;;
      ok <- read (fun s => t_ok s new_key) ;;
      if ok then
        new_value <- call value_coercer value ;;
        ok <- read (fun s => t_ok s new_value) ;;
        if ok then
          if negb (py_is new_key key) || negb (py_is new_value value) then
            st <- (if negb mutable
                   then r <- dict_copy res ;; ret (r, true, true)
                   else ret (res, retyped, mutable)) ;;
            let '(res, retyped, mutable) := st in
            (if negb (py_is key new_key) then dict_delitem res key
             else ret tt) ;;;
            dict_setitem res new_key new_value ;;;
            mapping_loop self key_coercer value_coercer rest res
              retyped mutable
          else
            mapping_loop self key_coercer value_coercer rest res
              retyped mutable
        else
          d <- alloc (ODict [(key, value)]) ;;
          set_scope self (VTuple [VDict d; value_coercer]) ;;;
          ret (v_nil, retyped)
      else
        d <- alloc (ODict [(key, value)]) ;;
        set_scope self (VTuple [VDict d; key_coercer]) ;;;
        ret (v_nil, retyped)
  end.

Definition mapping_call (self : loc) (key_coercer value_coercer : value)
    (arg : value) : M value :=
  if is_mapping arg then
    keys <- items_of arg ;;
    out <- mapping_loop self key_coercer value_coercer keys arg false
             (is_mutable_mapping arg) ;;
    let '(res, retyped) := out in
    ok <- read (fun s => t_ok s res) ;;
    if ok && retyped then try_or (dict_copy res) res
    else ret res
  else set_scope self (VTuple []) ;;; ret v_nil.

End Calls.

(** [iterable.__call__], for the two inner coercers given by what they
    compute.  The list that [res] may become is read and written in the
    store.  No coercer changes the length of a list, so that [len(res)]
    at the entry of the loop bounds the number of its rounds. *)
Section iterable_call.

Variables member_coerce outer_coerce : value -> M value.
Variable self : loc.

Fixpoint iterable_loop (rounds i : nat) (res : value)
    (retyped mutable modified : bool) : M (value * bool * bool) :=
  match rounds with
  | O => ret (res, retyped, modified)
  | S rounds' =>
      len <- py_len res ;;
      if (i <? len)%nat then
        item <- py_getitem res i ;;
        new <- member_coerce item ;;
        ok <- read (fun s => t_ok s new) ;;
        if ok then
          if negb (py_is new item) then
            st <- (if negb mutable
                   then r <- py_list res ;; ret (r, true, true)
                   else ret (res, retyped, mutable)) ;;
            let '(res, retyped, mutable) := st in
            py_setitem res i new ;;;
            iterable_loop rounds' (S i) res retyped mutable true
          else iterable_loop rounds' (S i) res retyped mutable modified
        else set_scope self item ;;; ret (v_nil, retyped, modified)
      else ret (res, retyped, modified)
  end.

Definition iterable_call (arg : value) : M value :=
  aux <- outer_coerce arg ;;
  ok <- read (fun s => t_ok s aux) ;;
  if ok then
    let arg := aux in
    st <- (if is_sequence arg
           then ret (arg, false, is_mutable_sequence arg)
           else r <- py_list arg ;; ret (r, true, true)) ;;
    let '(res, retyped, mutable) := st in
    rounds <- py_len res ;;
    out <- iterable_loop rounds 0 res retyped mutable false ;;
    let '(res, retyped, modified) := out in
    ok <- read (fun s => t_ok s res) ;;
    if ok then
      if is_set arg && negb modified then ret arg
      else if retyped then try_or (construct_like arg res) res
      else ret res
    else ret res
  else set_scope self arg ;;; ret v_nil.

End iterable_call.

(** [names_coerce]: [iterable(identifier_coerce)] is an instance with
    [inner = (identifier_coerce, sized_coerce)] (see [iterable_new]
    below), made anew at each call. *)
Definition names_coerce_body (arg : value) : M value :=
  arg <- match arg with
         | VStr _ => ret (VTuple [arg])
         | _ => py_tuple arg
         end ;;
  self <- new_custom ;;
  iterable_call identifier_coerce_body sized_coerce_body self arg.

Definition coerce_body (f : funcname) : value -> M value :=
  match f with
  | fn_identity_coerce => identity_coerce_body
  | fn_void_coerce => void_coerce_body
  | fn_type_coerce => type_coerce_body
  | fn_types_tuple_coerce => types_tuple_coerce_body
  | fn_callable_coerce => callable_coerce_body
  | fn_float_coerce => float_coerce_body
  | fn_int_coerce => int_coerce_body
  | fn_number_coerce => number_coerce_body
  | fn_positive_int_coerce => positive_int_coerce_body
  | fn_identifier_coerce => identifier_coerce_body
  | fn_full_identifier_coerce => full_identifier_coerce_body
  | fn_names_coerce => names_coerce_body
  | fn_sized_coerce => sized_coerce_body
  end.

(** [callee(arg)]. *)
Fixpoint call (callee arg : value) {struct callee} : M value :=
  match callee with
  | VLogical _ => fun s => (Ret (logical_call s callee arg), s)
  | VClass id => fun s => (class_call B id s [arg] [], s)
  | VFunction id _ => fun s => (fun_body B id s [arg] [], s)
  | VCoerce f => coerce_body f arg
  | VCoercerClass => coercer_new arg
  | VInward cls => inward cls arg
  | VUniqueMember coerce container =>
      unique_member_call call coerce container arg
  | VVouch fn _ _ => vouch_rec call fn [arg] []
  | IsType _ inner => istype_call inner arg
  | Compose self inner => compose_call call self inner arg
  | Some_ self inner => some_call call self inner arg
  | Combo self inner => combo_call call self inner arg
  | Pargs self inner => pargs_call call self inner arg
  | Iterable self member outer =>
      iterable_call (call member) (call outer) self arg
  | Mapping self key val => mapping_call call self key val arg
  | _ => raise (TypeError "object is not callable")
  end.

(** [fn( *args, **kwargs)] and [vouch(fn, *args, **kwargs)]. *)
Definition apply : value -> list value -> kwargs -> M value := apply_rec call.
Definition vouch : value -> list value -> kwargs -> M value := vouch_rec call.

(** ** Construction *)

(** [x or y]. *)
Definition py_or (x y : value) : M value :=
  fun s => (Ret (if truthy s x then x else y), s).

(** [flatten.__init__]: the fields [inner] and [checker] of the new
    instance. *)
Definition flatten_new (itemize checker : value) : M (value * value) :=
  _ <- new_custom ;;
  src <- py_or itemize (VBool true) ;;
  inner <- vouch VCoercerClass [src] [] ;;
  src <- py_or checker VCoercerClass ;;
  checker <- vouch VCoercerClass [src] [] ;;
  ret (inner, checker).

(** [flatten.__call__], to a bounded depth of recursion. *)
Fixpoint flatten_call (depth : nat) (inner checker : value) (arg : value)
  : M (list value) :=
  match depth with
  | O => raise RecursionError
  | S depth' =>
      aux <- call inner arg ;;
      if is_tuple_or_list aux then
        members <- items_of aux ;;
        ls <- map_m (flatten_call depth' inner checker) members ;;
        ret (concat ls)
      else
        c <- vouch checker [aux] [] ;;
        ret [c]
  end.

(** [options.pop(key, dflt)]. *)
Fixpoint kw_pop (key : string) (dflt : value) (options : kwargs)
  : value * kwargs :=
  match options with
  | [] => (dflt, [])
  | (k, v) :: rest =>
      if String.eqb k key then (v, rest)
      else let '(r, rest') := kw_pop key dflt rest in (r, (k, v) :: rest')
  end.

(** [type.__call__] runs [custom.__init__] on what [__new__] returned
    when that is an instance of the class. *)
Definition init_custom (cls : custom_class) (obj : value) : M unit :=
  match cls, obj with
  | cls_compose, Compose self _ => set_scope self VUnset
  | cls_some, Some_ self _ => set_scope self VUnset
  | _, _ => ret tt
  end.

(** [compose.__new__], from [len(inner)] on. *)
Definition compose_of (inner : list value) (options : kwargs) : M value :=
  match inner with
  | _ :: _ :: _ => self <- new_custom ;; ret (Compose self inner)
  | [c] => ret c
  | [] =>
      let '(res, options) := kw_pop "default" identity_coerce options in
      match options with
      | [] => ret res
      | _ :: _ =>
          keys <- alloc (OSet (map (fun o => VStr (fst o)) options)) ;;
          fun s =>
            (Raise (TypeError
               ("`compose` got unexpected keyword argument(s) "
                  ++ quote ++ py_str B s (VSet keys) ++ quote)%string),
             s)
      end
  end.

(** [compose.__new__]. *)
Definition compose_new (coercers : list value) (options : kwargs) : M value :=
  fl <- flatten_new (VInward cls_compose) VUnset ;;
  flat <- flatten_call recursion_limit (fst fl) (snd fl) (VTuple coercers) ;;
  obj <- compose_of
           (List.filter (fun c => negb (py_is c identity_coerce)) flat)
           options ;;
  init_custom cls_compose obj ;;;
  ret obj.

(** [some.__new__], from [len(inner)] on. *)
Definition some_of (inner : list value) : M value :=
  match inner with
  | _ :: _ :: _ => self <- new_custom ;; ret (Some_ self inner)
  | [c] => ret c
  | [] => ret void_coerce
  end.

(** [some.__new__]. *)
Definition some_new (coercers : list value) : M value :=
  fl <- flatten_new (VInward cls_some) VUnset ;;
  flat <- flatten_call recursion_limit (fst fl) (snd fl) (VTuple coercers) ;;
  obj <- some_of (List.filter (fun c => negb (py_is c void_coerce)) flat) ;;
  init_custom cls_some obj ;;;
  ret obj.

(** [pargs.__init__]. *)
Definition pargs_new (arg_coerce : value) : M value :=
  self <- new_custom ;;
  inner <- vouch VCoercerClass [arg_coerce] [] ;;
  ret (Pargs self inner).

(** [combo.__init__]. *)
Definition combo_new (coercers : list value) : M value :=
  self <- new_custom ;;
  check <- pargs_new VCoercerClass ;;
  coercers <- call check (VTuple coercers) ;;
  members <- items_of coercers ;;
  inner <- map_m (fun c => vouch VCoercerClass [c] []) members ;;
  ret (Combo self inner).

(** [iterable.__init__]; [outer_coerce] defaults to [True]. *)
Definition iterable_new (member_coerce outer_coerce : value) : M value :=
  self <- new_custom ;;
  member_coerce <- vouch VCoercerClass [member_coerce] [] ;;
  outer <- coercer_new outer_coerce ;;
  outer_coerce <- compose_new [outer; sized_coerce] [] ;;
  ret (Iterable self member_coerce outer_coerce).

(** [mapping.__new__]; both arguments default to [Unset]. *)
Definition mapping_new (key_coercer value_coercer : value) : M value :=
  if py_is key_coercer VUnset && py_is value_coercer VUnset
  then coercer_new (VClass (abc_Mapping B))
  else
    self <- new_custom ;;
    src <- py_or key_coercer (VBool true) ;;
    key_coercer <- vouch VCoercerClass [src] [] ;;
    src <- py_or value_coercer (VBool true) ;;
    value_coercer <- vouch VCoercerClass [src] [] ;;
    ret (Mapping self key_coercer value_coercer).

(** [create_unique_member_coerce]. *)
Definition create_unique_member_coerce (coerce container : value) : M value :=
  coerce <- vouch VCoercerClass [coerce] [] ;;
  ret (VUniqueMember coerce container).

(** * Properties *)

(** ** Running computations *)

Lemma bind_run {A C} (m : M A) (k : A -> M C) s a s' :
  m s = (Ret a, s') -> bind m k s = k a s'.
Proof. unfold bind. intros ->. reflexivity. Qed.

Lemma bind_raise {A C} (m : M A) (k : A -> M C) s e s' :
  m s = (Raise e, s') -> bind m k s = (Raise e, s').
Proof. unfold bind. intros ->. reflexivity. Qed.

Lemma call_coerce (f : funcname) (arg : value) :
  call (VCoerce f) arg = coerce_body f arg.
Proof. reflexivity. Qed.

(** ** The primitive coercers *)

Lemma int_value_as_num (v : value) (z : Z) :
  int_value v = Some z -> as_num v = Some (NInt z).
Proof.
  unfold int_value. destruct (as_num v) as [[x|f|re im]|]; congruence.
Qed.

(** [float_coerce] returns a float or [nil]. *)
Lemma float_coerce_returns (arg : value) s r s' :
  float_coerce_body arg s = (Ret r, s') ->
  s' = s /\ (r = v_nil \/ exists f, r = VFloat f).
Proof.
  unfold float_coerce_body.
  assert (Hint : forall z, (f <- lift (float_of_int z) ;; ret (VFloat f)) s
                           = (Ret r, s') ->
                 s' = s /\ (r = v_nil \/ exists f, r = VFloat f)).
  { intros z. unfold bind, lift, ret. destruct (float_of_int z); [|discriminate].
    intros [= <- <-]. eauto. }
  destruct arg; simpl; try apply Hint;
    repeat match goal with
           | |- context [match ?x with _ => _ end] => destruct x
           end;
    unfold ret; intros [= <- <-]; eauto.
Qed.

(** [int_coerce] returns an integer ([nil] is one) and leaves the store. *)
Lemma int_coerce_returns (arg : value) s r s' :
  int_coerce_body arg s = (Ret r, s') ->
  s' = s /\ exists z, int_value r = Some z.
Proof.
  unfold int_coerce_body. destruct (int_value arg) as [z|] eqn:Hz.
  - unfold ret. intros [= <- <-]. eauto.
  - intros H. apply bind_eq_ret in H as (a & s1 & Ha & H).
    apply float_coerce_returns in Ha as [-> Ha].
    unfold bind, read in H. simpl in H.
    destruct Ha as [-> | [f ->]].
    + rewrite t_ok_nil in H. injection H as <- <-. split; [reflexivity|].
      exists 0. reflexivity.
    + rewrite t_ok_true in H by discriminate.
      unfold py_int, minus_is_zero, lift, bind, ret in H.
      destruct (int_of_float f) as [z|e]; [|discriminate].
      destruct (float_of_int z) as [g|e]; [|discriminate].
      injection H as <- <-. split; [reflexivity|].
      destruct (float_eq_int _ _); [exists z | exists 0]; reflexivity.
Qed.

(** What [positive_int_coerce] computes from the result of
    [int_coerce]. *)
Lemma positive_int_coerce_eq (arg : value) s :
  positive_int_coerce_body arg s =
  match int_coerce_body arg s with
  | (Ret r, s') =>
      (Ret (match int_value r with
            | Some z => if py_is r v_nil || (0 <=? z) then r else v_nil
            | None => r
            end), s')
  | (Raise e, s') => (Raise e, s')
  end.
Proof.
  unfold positive_int_coerce_body, bind.
  destruct (int_coerce_body arg s) as [[r|e] s'] eqn:E; [|reflexivity].
  apply int_coerce_returns in E as [-> [z Hz]]. rewrite Hz.
  destruct (py_is r v_nil); [reflexivity|]. simpl.
  unfold ge_zero. rewrite (int_value_as_num _ _ Hz). reflexivity.
Qed.

(** C10.  The positive-integer coercer accepts zero:
    [positive_int_coerce(0)] is [0]; it returns what [int_coerce]
    returns whenever that is an integer greater than or equal to 0; it
    returns [nil] only when [int_coerce] returns [nil] or a negative
    integer; and it does return [nil] whenever [int_coerce] returns a
    negative integer, which is what tells it from [int_coerce].  What
    [int_coerce] raises, it raises. *)
Theorem positive_int_coerce_accepts_zero :
  (forall s, call positive_int_coerce (VInt 0) s = (Ret (VInt 0), s)) /\
  (forall arg s r s' z,
      call int_coerce arg s = (Ret r, s') ->
      r <> v_nil -> int_value r = Some z -> 0 <= z ->
      call positive_int_coerce arg s = (Ret r, s')) /\
  (forall arg s s',
      call positive_int_coerce arg s = (Ret v_nil, s') ->
      call int_coerce arg s = (Ret v_nil, s') \/
      exists r z, call int_coerce arg s = (Ret r, s') /\
                  int_value r = Some z /\ z < 0) /\
  (forall arg s r s' z,
      call int_coerce arg s = (Ret r, s') ->
      int_value r = Some z -> z < 0 ->
      call positive_int_coerce arg s = (Ret v_nil, s')) /\
  (forall arg s e s',
      call int_coerce arg s = (Raise e, s') ->
      call positive_int_coerce arg s = (Raise e, s')).
Proof.
  split; [reflexivity | split; [|split; [|split]]].
  - intros arg s r s' z Hr Hnil Hz Hpos.
    change (int_coerce_body arg s = (Ret r, s')) in Hr.
    change (positive_int_coerce_body arg s = (Ret r, s')).
    rewrite positive_int_coerce_eq, Hr, Hz.
    replace (0 <=? z) with true by (symmetry; apply Z.leb_le; exact Hpos).
    rewrite orb_true_r. reflexivity.
  - intros arg s s'.
    change (call positive_int_coerce arg) with (positive_int_coerce_body arg).
    change (call int_coerce arg) with (int_coerce_body arg).
    rewrite positive_int_coerce_eq.
    destruct (int_coerce_body arg s) as [[r|e] s1] eqn:E; [|discriminate].
    destruct (int_coerce_returns _ _ _ _ E) as [_ [z Hz]]. rewrite Hz.
    destruct (py_is r v_nil) eqn:Hn; simpl.
    + intros [= -> ->]. left. reflexivity.
    + destruct (0 <=? z) eqn:Hle.
      * intros [= -> ->]. discriminate Hn.
      * intros [= <-]. right. exists r, z. repeat split; try assumption.
        apply Z.leb_gt. exact Hle.
  - intros arg s r s' z Hr Hz Hneg.
    change (int_coerce_body arg s = (Ret r, s')) in Hr.
    change (positive_int_coerce_body arg s = (Ret v_nil, s')).
    rewrite positive_int_coerce_eq, Hr, Hz.
    replace (0 <=? z) with false by (symmetry; apply Z.leb_gt; exact Hneg).
    destruct (py_is r v_nil) eqn:Hn; [|reflexivity].
    apply py_is_eq in Hn. subst r. simpl in Hz. injection Hz as Hz. lia.
  - intros arg s e s' Hr.
    change (int_coerce_body arg s = (Raise e, s')) in Hr.
    change (positive_int_coerce_body arg s = (Raise e, s')).
    rewrite positive_int_coerce_eq, Hr. reflexivity.
Qed.

(** C2.  For every value [v], [0], the empty string and the empty
    containers among them: the coercer that the factory makes of [t]
    is the identity and returns [v] itself, and the one it makes
    of [None] or of [nil] is void and returns [nil]. *)
Theorem coercer_of_t_is_identity_of_nil_is_void (v : value) (s : store) :
  coercer_new v_t s = (Ret identity_coerce, s) /\
  call identity_coerce v s = (Ret v, s) /\
  coercer_new VNone s = (Ret void_coerce, s) /\
  coercer_new v_nil s = (Ret void_coerce, s) /\
  call void_coerce v s = (Ret v_nil, s).
Proof. repeat split. Qed.

(** C9, at an integer.  [names_coerce] raises [TypeError] there: [tuple(arg)]
    is evaluated for every argument that is no string. *)
Theorem names_coerce_raises_on_an_integer (z : Z) (s : store) :
  exists msg, call names_coerce (VInt z) s = (Raise (TypeError msg), s).
Proof. eexists. reflexivity. Qed.

Lemma bind_read {A C} (f : store -> A) (k : A -> M C) s :
  bind (read f) k s = k (f s) s.
Proof. reflexivity. Qed.

(** ** compose *)

(** The coercers [fs] applied in the order given, the first one to [v]
    and each one to the result of the one before it, all of them with
    success: [v'] is the result of the last one. *)
Inductive chain : list value -> value -> store -> value -> store -> Prop :=
| chain_nil v s : chain [] v s v s
| chain_cons f fs v s r s1 v' s' :
    call f v s = (Ret r, s1) ->
    r <> v_nil ->
    chain fs r s1 v' s' ->
    chain (f :: fs) v s v' s'.

Lemma compose_loop_chain (self : loc) fs v s v' s' :
  chain fs v s v' s' ->
  forall rest, compose_loop call self (fs ++ rest) v s
               = compose_loop call self rest v' s'.
Proof.
  induction 1 as [|f fs v s r s1 v' s' Hf Hr _ IH]; intros rest; [reflexivity|].
  simpl. rewrite (bind_run _ _ _ _ _ Hf).
  rewrite bind_read, t_ok_true by exact Hr. apply IH.
Qed.

(** C1.  A [compose] instance applies its coercers in the order given.
    When each of them succeeds on the result of the one before, the
    call returns the result of the last one; when the coercers before
    [f] succeed and [f] returns [nil] on the value [w] they lead to,
    the call stops there, puts the pair [(w, f)] in the [scope] of the
    instance and returns [nil]. *)
Theorem compose_applies_in_order
    (self : loc) (inner : list value) (v : value) (s : store) :
  (forall r s',
      chain inner v s r s' ->
      call (Compose self inner) v s = (Ret r, s')) /\
  (forall pre f post w s1 s2,
      inner = pre ++ f :: post ->
      chain pre v s w s1 ->
      call f w s1 = (Ret v_nil, s2) ->
      call (Compose self inner) v s
      = (Ret v_nil, <[self := OCustom (VTuple [w; f])]> s2) /\
      ((self < length s2)%nat ->
       scope_of (<[self := OCustom (VTuple [w; f])]> s2) self
       = Some (VTuple [w; f]))).
Proof.
  split.
  - intros r s' H. change (compose_loop call self inner v s = (Ret r, s')).
    rewrite <- (app_nil_r inner). rewrite (compose_loop_chain _ _ _ _ _ _ H).
    reflexivity.
  - intros pre f post w s1 s2 -> Hpre Hf. split.
    + change (compose_loop call self (pre ++ f :: post) v s
              = (Ret v_nil, <[self := OCustom (VTuple [w; f])]> s2)).
      rewrite (compose_loop_chain _ _ _ _ _ _ Hpre). simpl.
      rewrite (bind_run _ _ _ _ _ Hf). reflexivity.
    + intros Hlt. unfold scope_of.
      rewrite list_lookup_insert_eq by exact Hlt. reflexivity.
Qed.

Lemma bind_ret_l {A C} (a : A) (k : A -> M C) : bind (ret a) k = k a.
Proof. reflexivity. Qed.

(** ** Construction of compose and some *)

Definition is_compose (c : value) : bool :=
  match c with Compose _ _ => true | _ => false end.

(** What [flatten] leaves in the flat list: a coercer that is no [compose]
    instance. *)
Definition atom (c : value) : bool := is_coercer c && negb (is_compose c).

Lemma is_coercer_not_nil (c : value) : is_coercer c = true -> c <> v_nil.
Proof. intros H ->. discriminate H. Qed.

Lemma coercer_new_coercer (c : value) s :
  is_coercer c = true -> coercer_new c s = (Ret c, s).
Proof.
  intros H. unfold coercer_new.
  destruct c; try discriminate H; try reflexivity;
    unfold is_coercer in H; simpl in H; rewrite ?orb_false_r in H; subst;
    reflexivity.
Qed.

Lemma vouch_coercer (c : value) s :
  is_coercer c = true -> vouch VCoercerClass [c] [] s = (Ret c, s).
Proof.
  intros H. unfold vouch, vouch_rec, vouch_by.
  replace (py_is c v_nil) with false
    by (destruct c; try discriminate H; reflexivity).
  unfold apply_rec, one_arg. rewrite bind_ret_l.
  change (call VCoercerClass c) with (coercer_new c).
  rewrite (bind_run _ _ _ _ _ (coercer_new_coercer c s H)).
  rewrite bind_read, t_ok_true by (apply is_coercer_not_nil; exact H).
  reflexivity.
Qed.

(** [cls.inward] leaves [c] as it is. *)
Definition inward_keeps (cls : custom_class) (c : value) : bool :=
  match cls, c with
  | cls_compose, Compose _ _ => false
  | cls_some, Some_ _ _ => false
  | _, _ => true
  end.

Lemma inward_kept cls c : inward_keeps cls c = true -> inward cls c = ret c.
Proof. destruct cls, c; try discriminate; reflexivity. Qed.

Lemma map_m_Forall2 {A C} (f : A -> M C) (l : list A) (rs : list C) s :
  Forall2 (fun x r => f x s = (Ret r, s)) l rs ->
  map_m f l s = (Ret rs, s).
Proof.
  induction 1 as [|x r l rs Hx _ IH]; [reflexivity|].
  simpl. rewrite (bind_run _ _ _ _ _ Hx), (bind_run _ _ _ _ _ IH).
  reflexivity.
Qed.

(** A member that is no tuple, no list and no instance of [cls] goes
    through the factory. *)
Lemma flatten_call_leaf cls d c r s :
  is_tuple_or_list c = false ->
  inward_keeps cls c = true ->
  c <> v_nil ->
  coercer_new c s = (Ret r, s) ->
  r <> v_nil ->
  flatten_call (S d) (VInward cls) VCoercerClass c s = (Ret [r], s).
Proof.
  intros Htl Hin Hc Hnew Hr. simpl.
  rewrite (inward_kept _ _ Hin), bind_ret, Htl.
  unfold vouch, vouch_rec, vouch_by.
  replace (py_is c v_nil) with false.
  2:{ destruct (py_is c v_nil) eqn:E; [|reflexivity].
      apply py_is_eq in E. contradiction. }
  unfold apply_rec, one_arg. rewrite bind_ret_l.
  change (call VCoercerClass c) with (coercer_new c).
  unfold bind at 1. rewrite (bind_run _ _ _ _ _ Hnew).
  rewrite bind_read, t_ok_true by exact Hr. reflexivity.
Qed.

Lemma flatten_call_tuple cls d cs rs s :
  Forall2 (fun c r => flatten_call d (VInward cls) VCoercerClass c s
                      = (Ret r, s)) cs rs ->
  flatten_call (S d) (VInward cls) VCoercerClass (VTuple cs) s
  = (Ret (concat rs), s).
Proof.
  intros H. simpl.
  rewrite (inward_kept cls (VTuple cs)) by (destruct cls; reflexivity).
  rewrite bind_ret_l. simpl. rewrite bind_ret_l.
  rewrite (bind_run _ _ _ _ _ (map_m_Forall2 _ _ _ _ H)). reflexivity.
Qed.

Lemma flatten_new_inward cls s :
  flatten_new (VInward cls) VUnset s
  = (Ret (VInward cls, VCoercerClass), s ++ [OCustom VUnset]).
Proof. reflexivity. Qed.

Lemma insert_last (l : list obj) (x y : obj) :
  <[length l := y]> (l ++ [x]) = l ++ [y].
Proof.
  rewrite insert_app_r_alt by lia. rewrite Nat.sub_diag. reflexivity.
Qed.

(** The member [c] of the arguments becomes [r] in the flat list. *)
Definition leaf (cls : custom_class) (s : store) (c r : value) : Prop :=
  is_tuple_or_list c = false /\ inward_keeps cls c = true /\ c <> v_nil /\
  coercer_new c s = (Ret r, s) /\ r <> v_nil.

Lemma concat_singletons {A} (l : list A) : concat (map (fun x => [x]) l) = l.
Proof. induction l; simpl; congruence. Qed.

Lemma flatten_call_leaves cls d cs rs s :
  Forall2 (leaf cls s) cs rs ->
  flatten_call (S (S d)) (VInward cls) VCoercerClass (VTuple cs) s
  = (Ret rs, s).
Proof.
  intros H. rewrite <- (concat_singletons rs) at 1.
  apply flatten_call_tuple.
  induction H as [|c r cs rs (Htl & Hin & Hc & Hnew & Hr) _ IH];
    constructor; [|exact IH].
  apply flatten_call_leaf; assumption.
Qed.

Lemma leaf_atom s c : atom c = true -> leaf cls_compose s c c.
Proof.
  unfold atom. intros [Hc Hn]%andb_true_iff. repeat split.
  - destruct c; try reflexivity; discriminate Hc.
  - destruct c; try reflexivity; discriminate Hn.
  - apply is_coercer_not_nil, Hc.
  - apply coercer_new_coercer, Hc.
  - apply is_coercer_not_nil, Hc.
Qed.

Lemma compose_new_run cs options flat s :
  flatten_call recursion_limit (VInward cls_compose) VCoercerClass
    (VTuple cs) (s ++ [OCustom VUnset])
  = (Ret flat, s ++ [OCustom VUnset]) ->
  compose_new cs options s
  = (obj <- compose_of
              (List.filter (fun c => negb (py_is c identity_coerce)) flat)
              options ;;
     init_custom cls_compose obj ;;;
     ret obj) (s ++ [OCustom VUnset]).
Proof.
  intros H. unfold compose_new.
  rewrite (bind_run _ _ _ _ _ (flatten_new_inward cls_compose s)).
  simpl fst. simpl snd. rewrite (bind_run _ _ _ _ _ H). reflexivity.
Qed.

Lemma some_new_run cs flat s :
  flatten_call recursion_limit (VInward cls_some) VCoercerClass
    (VTuple cs) (s ++ [OCustom VUnset])
  = (Ret flat, s ++ [OCustom VUnset]) ->
  some_new cs s
  = (obj <- some_of (List.filter (fun c => negb (py_is c void_coerce)) flat) ;;
     init_custom cls_some obj ;;;
     ret obj) (s ++ [OCustom VUnset]).
Proof.
  intros H. unfold some_new.
  rewrite (bind_run _ _ _ _ _ (flatten_new_inward cls_some s)).
  simpl fst. simpl snd. rewrite (bind_run _ _ _ _ _ H). reflexivity.
Qed.

Lemma filter_keeps_all (x : value) (l : list value) :
  Forall (fun c => c <> x) l ->
  List.filter (fun c => negb (py_is c x)) l = l.
Proof.
  induction 1 as [|c l Hc _ IH]; [reflexivity|]. simpl.
  destruct (py_is c x) eqn:E; [apply py_is_eq in E; contradiction|].
  simpl. rewrite IH. reflexivity.
Qed.

Lemma filter_drops_all (x : value) (l : list value) :
  Forall (fun c => c = x) l ->
  List.filter (fun c => negb (py_is c x)) l = [].
Proof.
  induction 1 as [|c l -> _ IH]; [reflexivity|]. simpl.
  rewrite py_is_refl. exact IH.
Qed.

(** [compose(f1, ..., fn)] of two or more coercers that are neither
    [compose] instances nor the identity is the instance that holds
    them in the order given. *)
Lemma compose_new_atoms (cs : list value) s :
  Forall (fun c => atom c = true /\ c <> identity_coerce) cs ->
  (2 <= length cs)%nat ->
  compose_new cs [] s
  = (Ret (Compose (S (length s)) cs), s ++ [OCustom VUnset; OCustom VUnset]).
Proof.
  intros Hcs Hlen.
  assert (Hflat : Forall2 (leaf cls_compose (s ++ [OCustom VUnset])) cs cs).
  { clear Hlen. induction Hcs as [|c cs [Hc _] _ IH]; constructor; auto.
    apply leaf_atom, Hc. }
  rewrite (compose_new_run cs [] cs s).
  2:{ change recursion_limit with (S (S 998)).
      apply flatten_call_leaves, Hflat. }
  rewrite filter_keeps_all by (eapply Forall_impl; [exact Hcs|]; intros ? [_ ?]; assumption).
  destruct cs as [|c1 [|c2 cs]]; simpl in Hlen; try lia.
  unfold bind, new_custom, alloc, ret, init_custom, set_scope. simpl.
  rewrite length_app. simpl. rewrite Nat.add_1_r.
  f_equal. rewrite <- app_assoc. simpl.
  change (s ++ [OCustom VUnset; OCustom VUnset])
    with (s ++ [OCustom VUnset] ++ [OCustom VUnset]).
  rewrite app_assoc.
  replace (S (length s)) with (length (s ++ [OCustom VUnset]))
    by (rewrite length_app; simpl; lia).
  apply insert_last.
Qed.

Lemma flatten_call_compose d self inner rs s :
  Forall2 (leaf cls_compose s) inner rs ->
  flatten_call (S (S d)) (VInward cls_compose) VCoercerClass
    (Compose self inner) s
  = (Ret rs, s).
Proof.
  intros H. rewrite <- (concat_singletons rs) at 1.
  change (flatten_call (S (S d)) (VInward cls_compose) VCoercerClass
            (Compose self inner) s)
    with ((ls <- map_m (flatten_call (S d) (VInward cls_compose) VCoercerClass)
                   inner ;;
           ret (concat ls)) s).
  erewrite bind_run; [reflexivity|].
  apply map_m_Forall2.
  induction H as [|c r cs rs' (Htl & Hin & Hc & Hnew & Hr) _ IH];
    constructor; [|exact IH].
  apply flatten_call_leaf; assumption.
Qed.

Lemma Forall_map_const {A} (x : value) (l : list A) :
  Forall (fun c => c = x) (map (fun _ => x) l).
Proof. induction l; simpl; constructor; auto. Qed.

Lemma compose_of_many (inner : list value) s :
  (2 <= length inner)%nat ->
  (obj <- compose_of inner [] ;; init_custom cls_compose obj ;;; ret obj) s
  = (Ret (Compose (length s) inner), s ++ [OCustom VUnset]).
Proof.
  intros Hlen. destruct inner as [|c1 [|c2 cs]]; simpl in Hlen; try lia.
  unfold bind, compose_of, new_custom, alloc, ret, init_custom, set_scope.
  simpl. rewrite insert_last. reflexivity.
Qed.

(** What [compose.__new__] builds: two or more coercers, none of them a
    [compose] instance or the identity. *)
Definition compose_built (c : value) : Prop :=
  match c with
  | Compose _ inner =>
      Forall (fun x => atom x = true /\ x <> identity_coerce) inner /\
      (2 <= length inner)%nat
  | _ => True
  end.

(** The instance is used for its [scope] only: the result of a call does
    not depend on it. *)
Lemma compose_loop_any_self (self self' : loc) cs v s :
  fst (compose_loop call self' cs v s) = fst (compose_loop call self cs v s).
Proof.
  revert v s. induction cs as [|c cs IH]; intros v s; [reflexivity|].
  simpl. destruct (call c v s) as [[r|e] s1] eqn:E.
  - rewrite !(bind_run _ _ _ _ _ E), !bind_read.
    destruct (t_ok s1 r); [apply IH | reflexivity].
  - rewrite !(bind_raise _ _ _ _ _ E). reflexivity.
Qed.

Lemma compose_new_single (A : value) s :
  is_coercer A = true -> is_compose A = false ->
  compose_new [A] [] s = (Ret A, s ++ [OCustom VUnset]).
Proof.
  intros Hc Hn.
  assert (Hleaf : leaf cls_compose (s ++ [OCustom VUnset]) A A)
    by (apply leaf_atom; unfold atom; rewrite Hc, Hn; reflexivity).
  rewrite (compose_new_run [A] [] [A] s).
  2:{ change recursion_limit with (S (S 998)).
      apply flatten_call_leaves. constructor; [exact Hleaf | constructor]. }
  simpl. destruct (py_is A identity_coerce) eqn:E.
  - apply py_is_eq in E. subst. reflexivity.
  - simpl. unfold bind, ret, init_custom.
    destruct A; try discriminate Hn; reflexivity.
Qed.

(** C3.  The degenerate arities.  [compose] of arguments that all stand
    for the identity (none at all, in particular) is [identity_coerce],
    which returns every value unchanged; [some] of arguments that all
    stand for the void coercer (none at all, in particular) is
    [void_coerce], which returns [nil] for every value; and [compose(A)]
    of one coercer [A] is [A] itself, or, when [A] is a [compose]
    instance, an instance over the same coercers: called on any value
    in any store it returns what [A] returns. *)
Theorem compose_some_degenerate :
  (forall cs s,
      Forall (fun c => c = identity_coerce \/ c = v_t \/ c = VBool true) cs ->
      compose_new cs [] s = (Ret identity_coerce, s ++ [OCustom VUnset])) /\
  (forall v s, call identity_coerce v s = (Ret v, s)) /\
  (forall cs s,
      Forall (fun c => c = void_coerce \/ c = VNone \/ c = VBool false) cs ->
      some_new cs s = (Ret void_coerce, s ++ [OCustom VUnset])) /\
  (forall v s, call void_coerce v s = (Ret v_nil, s)) /\
  (forall A s,
      is_coercer A = true -> compose_built A ->
      exists A' s',
        compose_new [A] [] s = (Ret A', s') /\
        (is_compose A = false -> A' = A) /\
        (forall self inner,
            A = Compose self inner -> exists self', A' = Compose self' inner) /\
        (forall v t, fst (call A' v t) = fst (call A v t))).
Proof.
  split; [|split; [reflexivity|split; [|split; [reflexivity|]]]].
  - intros cs s Hcs.
    rewrite (compose_new_run cs [] (map (fun _ => identity_coerce) cs) s).
    + rewrite filter_drops_all; [reflexivity|]. apply Forall_map_const.
    + change recursion_limit with (S (S 998)). apply flatten_call_leaves.
      induction Hcs as [|c cs Hc _ IH]; constructor; [|exact IH].
      destruct Hc as [-> | [-> | ->]]; repeat split; discriminate.
  - intros cs s Hcs.
    rewrite (some_new_run cs (map (fun _ => void_coerce) cs) s).
    + rewrite filter_drops_all; [reflexivity|]. apply Forall_map_const.
    + change recursion_limit with (S (S 998)). apply flatten_call_leaves.
      induction Hcs as [|c cs Hc _ IH]; constructor; [|exact IH].
      destruct Hc as [-> | [-> | ->]]; repeat split; discriminate.
  - intros A s Hc Hb. destruct (is_compose A) eqn:Hn.
    + destruct A; try discriminate Hn. destruct Hb as [Hin Hlen].
      exists (Compose (S (length s)) inner), (s ++ [OCustom VUnset; OCustom VUnset]).
      split; [|split; [discriminate|split]].
      * assert (Hflat : Forall2 (leaf cls_compose (s ++ [OCustom VUnset]))
                          inner inner).
        { clear Hlen. induction Hin as [|c cs [Hc' _] _ IH]; constructor; auto.
          apply leaf_atom, Hc'. }
        rewrite (compose_new_run [Compose self inner] [] inner s).
        2:{ change recursion_limit with (S (S (S 997))).
            rewrite <- (app_nil_r inner) at 2.
            apply (flatten_call_tuple cls_compose _ [Compose self inner] [inner]).
            constructor; [|constructor].
            apply flatten_call_compose, Hflat. }
        rewrite filter_keeps_all
          by (eapply Forall_impl; [exact Hin|]; intros ? [_ ?]; assumption).
        rewrite compose_of_many by exact Hlen.
        rewrite length_app, Nat.add_1_r, <- app_assoc. reflexivity.
      * intros self0 inner0 [= -> ->]. eauto.
      * intros v t. apply compose_loop_any_self.
    + exists A, (s ++ [OCustom VUnset]).
      split; [apply compose_new_single; assumption|].
      split; [reflexivity|]. split; [|reflexivity].
      intros self inner ->. discriminate Hn.
Qed.

(** ** vouch *)

(** The arguments that [vouch] passes on: a single [nil] stands for no
    argument. *)
Definition passed_args (args : list value) : list value :=
  match args with
  | [a] => if py_is a v_nil then [] else args
  | _ => args
  end.

(** C5, as the code has it.  When [vouch] is called with arguments and
    [fn] applied to them returns a value other than [nil], [vouch]
    returns that value; when [fn] returns [nil], [vouch] raises
    [TypeError] with the message
    ["<name>" fails with when called with: (<arguments>)], [<name>]
    being [coercer_name(fn)] and [<arguments>] what [both_args_repr]
    makes of the arguments. *)
Theorem vouch_called_with_arguments
    (fn : value) (args : list value) (kw : kwargs) (s : store) :
  args <> [] \/ kw <> [] ->
  (forall res s',
      apply fn (passed_args args) kw s = (Ret res, s') ->
      res <> v_nil ->
      vouch fn args kw s = (Ret res, s')) /\
  (forall s' name s'',
      apply fn (passed_args args) kw s = (Ret v_nil, s') ->
      coercer_name recursion_limit fn VNone s' = (Ret name, s'') ->
      vouch fn args kw s
      = (Raise (TypeError
                  (vouch_message (py_format s'' name)
                     (both_args_repr B s'' (passed_args args) kw))),
         s'')).
Proof.
  intros Hargs.
  assert (Hv : vouch fn args kw s
               = (res <- apply fn (passed_args args) kw ;;
                  ok <- read (fun s => t_ok s res) ;;
                  if ok then ret res
                  else
                    name <- coercer_name recursion_limit fn VNone ;;
                    msg <- read (fun s =>
                                   vouch_message (py_format s name)
                                     (both_args_repr B s (passed_args args) kw)) ;;
                    raise (TypeError msg)) s).
  { unfold vouch, vouch_rec, vouch_by, apply, passed_args.
    destruct args as [|a [|b args]], kw as [|k kw];
      try reflexivity.
    destruct Hargs as [H|H]; contradiction. }
  split.
  - intros res s' Hrun Hres. rewrite Hv, (bind_run _ _ _ _ _ Hrun).
    rewrite bind_read, t_ok_true by exact Hres. reflexivity.
  - intros s' name s'' Hrun Hname. rewrite Hv, (bind_run _ _ _ _ _ Hrun).
    rewrite bind_read, t_ok_nil, (bind_run _ _ _ _ _ Hname). reflexivity.
Qed.

(** ** pargs *)

(** [int_coerce] of a string that [float] reads as a whole number. *)
Lemma int_coerce_str (x : string) (f g : float) (z : Z) s :
  float_of_str B x = Some f ->
  int_of_float f = Ret z ->
  float_of_int z = Ret g ->
  float_eq_int (float_sub f g) 0 = true ->
  call int_coerce (VStr x) s = (Ret (VInt z), s).
Proof.
  intros Hf Hz Hg He.
  change (int_coerce_body (VStr x) s = (Ret (VInt z), s)).
  unfold int_coerce_body, float_coerce_body.
  change (int_value (VStr x)) with (@None Z). cbv iota. rewrite Hf.
  rewrite bind_ret, bind_read, t_ok_true by discriminate.
  unfold py_int, minus_is_zero, lift, bind, ret. rewrite Hz, Hg, He.
  reflexivity.
Qed.

Lemma float_coerce_str (x : string) (f : float) s :
  float_of_str B x = Some f ->
  call float_coerce (VStr x) s = (Ret (VFloat f), s).
Proof.
  intros Hf. change (float_coerce_body (VStr x) s = (Ret (VFloat f), s)).
  unfold float_coerce_body.
  change (int_value (VStr x)) with (@None Z). cbv iota. rewrite Hf. reflexivity.
Qed.

Lemma pargs_loop_all (self : loc) (c : value) items news :
  Forall2 (fun item new => forall s, call c item s = (Ret new, s) /\ new <> v_nil)
    items news ->
  forall done s,
    pargs_loop call self c items done s = (Ret (Some (done ++ news)), s).
Proof.
  induction 1 as [|item new items news Hi _ IH]; intros done s.
  - simpl. rewrite app_nil_r. reflexivity.
  - destruct (Hi s) as [Hc Hn]. simpl.
    rewrite (bind_run _ _ _ _ _ Hc), bind_read, t_ok_true by exact Hn.
    rewrite IH, <- app_assoc. simpl.
    destruct (py_is new item) eqn:E; simpl; [|reflexivity].
    apply py_is_eq in E. subst. reflexivity.
Qed.

Lemma pargs_new_coercer (c : value) s :
  is_coercer c = true ->
  pargs_new c s = (Ret (Pargs (length s) c), s ++ [OCustom VUnset]).
Proof.
  intros H. unfold pargs_new, new_custom, alloc.
  unfold bind at 1. rewrite (bind_run _ _ _ _ _ (vouch_coercer c _ H)).
  reflexivity.
Qed.

(** The members of a tuple of none or of several are the arguments. *)
Lemma pargs_call_many (self : loc) (c : value) items s :
  length items <> 1%nat ->
  pargs_call call self c (VTuple items) s
  = (out <- pargs_loop call self c items [] ;;
     match out with
     | Some members => ret (VTuple members)
     | None => ret v_nil
     end) s.
Proof.
  intros H. unfold pargs_call. cbn [is_iterable items_of]. rewrite bind_ret_l.
  destruct items as [|x [|y items]]; try reflexivity.
  contradiction H. reflexivity.
Qed.

(** The members of a single invalid member that is iterable are the
    arguments. *)
Lemma pargs_call_single (self : loc) (c : value) item items s s1 s2 :
  call c item s = (Ret v_nil, s1) ->
  is_iterable item = true ->
  items_of item s1 = (Ret items, s2) ->
  pargs_call call self c (VTuple [item]) s
  = (out <- pargs_loop call self c items [] ;;
     match out with
     | Some members => ret (VTuple members)
     | None => ret v_nil
     end) s2.
Proof.
  intros Hc Hit Hitems. unfold pargs_call. cbn [is_iterable items_of].
  rewrite bind_ret_l.
  unfold bind at 1. unfold bind at 1.
  rewrite Hc, bind_read, t_ok_nil, Hit.
  unfold bind at 1. rewrite Hitems. reflexivity.
Qed.

(** C6.  [pargs(int_coerce)] on [(1, 2.0, "3.0")] and on the tuple that
    holds this tuple alone returns [(1, 2, 3)]; on a tuple whose single
    member is invalid and not iterable it returns [nil]; and a result
    other than [nil] is always a tuple. *)
Theorem pargs_spreads_a_single_sequence :
  float_of_str B "3.0" = Some (float_lit 3) ->
  let args := VTuple [VInt 1; VFloat (float_lit 2); VStr "3.0"] in
  let coerced := VTuple [VInt 1; VInt 2; VInt 3] in
  (forall s, (c <- pargs_new int_coerce ;; call c args) s
             = (Ret coerced, s ++ [OCustom VUnset])) /\
  (forall s, (c <- pargs_new int_coerce ;; call c (VTuple [args])) s
             = (Ret coerced, s ++ [OCustom VUnset])) /\
  (forall self c item s s1,
      call c item s = (Ret v_nil, s1) ->
      is_iterable item = false ->
      call (Pargs self c) (VTuple [item]) s
      = (Ret v_nil, <[self := OCustom item]> s1)) /\
  (forall self c arg s r s',
      call (Pargs self c) arg s = (Ret r, s') ->
      r <> v_nil -> exists items, r = VTuple items).
Proof.
  intros Hf args coerced.
  assert (Hall : Forall2 (fun item new => forall s,
                     call int_coerce item s = (Ret new, s) /\ new <> v_nil)
                   [VInt 1; VFloat (float_lit 2); VStr "3.0"]
                   [VInt 1; VInt 2; VInt 3]).
  { repeat constructor; try discriminate; try reflexivity.
    apply (int_coerce_str _ _ (float_lit 3) 3 _ Hf); reflexivity. }
  split; [|split; [|split]].
  - intros s. rewrite (bind_run _ _ _ _ _ (pargs_new_coercer int_coerce s eq_refl)).
    change (pargs_call call (length s) int_coerce args (s ++ [OCustom VUnset])
            = (Ret coerced, s ++ [OCustom VUnset])).
    unfold args. rewrite pargs_call_many by (simpl; lia).
    rewrite (bind_run _ _ _ _ _ (pargs_loop_all _ _ _ _ Hall [] _)).
    reflexivity.
  - intros s. rewrite (bind_run _ _ _ _ _ (pargs_new_coercer int_coerce s eq_refl)).
    change (pargs_call call (length s) int_coerce (VTuple [args])
              (s ++ [OCustom VUnset])
            = (Ret coerced, s ++ [OCustom VUnset])).
    rewrite (pargs_call_single _ _ args _ _ _ (s ++ [OCustom VUnset]))
      by reflexivity.
    rewrite (bind_run _ _ _ _ _ (pargs_loop_all _ _ _ _ Hall [] _)).
    reflexivity.
  - intros self c item s s1 Hc Hit.
    change (pargs_call call self c (VTuple [item]) s
            = (Ret v_nil, <[self := OCustom item]> s1)).
    unfold pargs_call. cbn [is_iterable items_of]. rewrite !bind_ret_l.
    unfold bind at 1. unfold bind at 1.
    rewrite Hc, bind_read, t_ok_nil, Hit. reflexivity.
  - intros self c arg s r s' H Hr.
    change (pargs_call call self c arg s = (Ret r, s')) in H.
    unfold pargs_call in H. destruct (is_iterable arg).
    2:{ injection H as <- <-. contradiction. }
    apply bind_eq_ret in H as (members & s1 & _ & H).
    apply bind_eq_ret in H as ([res rest] & s2 & Hst & H).
    destruct (py_is res VUnset) eqn:Eres.
    + apply bind_eq_ret in H as (out & s3 & _ & H).
      destruct out as [ms|]; injection H as <- <-; [eauto | contradiction].
    + injection H as <- <-.
      destruct members as [|item [|item2 members]].
      * injection Hst as <- _ _. discriminate Eres.
      * apply bind_eq_ret in Hst as (aux & s3 & _ & Hst).
        rewrite bind_read in Hst. destruct (t_ok s3 aux).
        -- injection Hst as <- _ _. eauto.
        -- destruct (is_iterable item).
           ++ apply bind_eq_ret in Hst as (a & s4 & _ & Hst).
              injection Hst as <- _ _. discriminate Eres.
           ++ apply bind_eq_ret in Hst as (a & s4 & _ & Hst).
              injection Hst as <- _ _. contradiction.
      * injection Hst as <- _ _. discriminate Eres.
Qed.

(** ** The unique-member wrapper *)

Lemma items_of_snd (v : value) s : snd (items_of v s) = s.
Proof.
  destruct v; simpl; try reflexivity;
    match goal with
    | |- context [s !! ?l] => destruct (s !! l) as [[]|]
    end; reflexivity.
Qed.

Lemma items_of_store (v : value) s r s' : items_of v s = (r, s') -> s' = s.
Proof. intros H. rewrite <- (items_of_snd v s), H. reflexivity. Qed.

Lemma hash_of_snd (v : value) s : snd (hash_of v s) = s.
Proof. unfold hash_of. destruct (hashable v); reflexivity. Qed.


Lemma hash_of_ret (v : value) s h s' :
  hash_of v s = (Ret h, s') -> hashable v = true /\ h = py_hash B v /\ s' = s.
Proof.
  unfold hash_of. destruct (hashable v); [|discriminate].
  intros [= <- <-]. auto.
Qed.

(** [x in container] reads the store and leaves it as it is. *)
Lemma py_contains_snd (container x : value) s :
  snd (py_contains container x s) = s.
Proof.
  assert (Hb : forall {A C} (m : M A) (k : A -> M C),
             snd (m s) = s -> (forall a, snd (k a s) = s) ->
             snd (bind m k s) = s).
  { intros A C m k Hm Hk. unfold bind. destruct (m s) as [[a|e] s1].
    - simpl in Hm. subst. apply Hk.
    - exact Hm. }
  unfold py_contains.
  destruct container; try reflexivity;
    try (destruct x; reflexivity);
    repeat (apply Hb; [first [apply items_of_snd | apply hash_of_snd]
                      | intros ?]);
    reflexivity.
Qed.

Lemma py_contains_store (container x : value) s r s' :
  py_contains container x s = (r, s') -> s' = s.
Proof. intros H. rewrite <- (py_contains_snd container x s), H. reflexivity. Qed.

(** What the wrapper returns, from what the inner coercer returns. *)
Lemma unique_member_call_eq (coerce container arg : value) s res s1 :
  call coerce arg s = (Ret res, s1) ->
  call (VUniqueMember coerce container) arg s
  = (if t_ok s1 res then
       hres <- hash_of res ;;
       harg <- hash_of arg ;;
       if negb (hres =? harg) then
         found <- py_contains container res ;;
         ret (if found then v_nil else res)
       else ret res
     else ret res) s1.
Proof.
  intros H. change (call (VUniqueMember coerce container) arg s)
    with (unique_member_call call coerce container arg s).
  unfold unique_member_call. rewrite (bind_run _ _ _ _ _ H), bind_read.
  reflexivity.
Qed.

Lemma create_unique_member_coercer (c container : value) s :
  is_coercer c = true ->
  create_unique_member_coerce c container s
  = (Ret (VUniqueMember c container), s).
Proof.
  intros H. unfold create_unique_member_coerce.
  rewrite (bind_run _ _ _ _ _ (vouch_coercer c s H)). reflexivity.
Qed.

Local Ltac um_finish :=
  repeat split; intros;
  repeat match goal with
         | H : _ /\ _ |- _ => destruct H
         | H : _ \/ _ |- _ => destruct H
         end;
  try discriminate; try congruence.

(** C8.  The wrapper around [int_coerce] returns [nil] on ["1"] when
    the reference container holds [1] already ([1] and ["1"] hash
    differently), and [1] when the container is empty.  In general, when
    the inner coercion succeeds with a result [res], the wrapper fails
    exactly when the hash of [res] differs from the hash of the argument
    and [res] is in the container.  The rest of the closure is pinned
    down as well: with equal hashes the wrapper returns [res] and does
    not look into the container; with different hashes it returns [res]
    when [res] is not in the container; it raises [TypeError] when [res]
    or the argument cannot be hashed, and what the membership test
    raises; a failure of the inner coercer is passed on as it is, and so
    is what the inner coercer raises. *)
Theorem unique_member_fails_on_collision :
  float_of_str B "1" = Some (float_lit 1) ->
  py_hash B (VInt 1) <> py_hash B (VStr "1") ->
  (forall s l,
      s !! l = Some (OList [VInt 1]) ->
      (c <- create_unique_member_coerce int_coerce (VList l) ;;
       call c (VStr "1")) s = (Ret v_nil, s)) /\
  (forall s l,
      s !! l = Some (OList []) ->
      (c <- create_unique_member_coerce int_coerce (VList l) ;;
       call c (VStr "1")) s = (Ret (VInt 1), s)) /\
  (forall coerce container arg s res s1,
      call coerce arg s = (Ret res, s1) ->
      res <> v_nil ->
      (call (VUniqueMember coerce container) arg s = (Ret v_nil, s1) <->
       hashable res = true /\ hashable arg = true /\
       py_hash B res <> py_hash B arg /\
       py_contains container res s1 = (Ret true, s1)) /\
      (hashable res = true -> hashable arg = true ->
       py_hash B res = py_hash B arg ->
       call (VUniqueMember coerce container) arg s = (Ret res, s1)) /\
      (hashable res = true -> hashable arg = true ->
       py_hash B res <> py_hash B arg ->
       py_contains container res s1 = (Ret false, s1) ->
       call (VUniqueMember coerce container) arg s = (Ret res, s1)) /\
      (hashable res = true -> hashable arg = true ->
       py_hash B res <> py_hash B arg ->
       forall e, py_contains container res s1 = (Raise e, s1) ->
       call (VUniqueMember coerce container) arg s = (Raise e, s1)) /\
      (hashable res = false \/ hashable arg = false ->
       call (VUniqueMember coerce container) arg s
       = (Raise (TypeError "unhashable type"), s1))) /\
  (forall coerce container arg s s1,
      call coerce arg s = (Ret v_nil, s1) ->
      call (VUniqueMember coerce container) arg s = (Ret v_nil, s1)) /\
  (forall coerce container arg s e s1,
      call coerce arg s = (Raise e, s1) ->
      call (VUniqueMember coerce container) arg s = (Raise e, s1)).
Proof.
  intros Hf Hh.
  assert (Hint : forall s, call int_coerce (VStr "1") s = (Ret (VInt 1), s)).
  { intros s. apply (int_coerce_str _ _ (float_lit 1) 1 _ Hf); reflexivity. }
  split; [|split; [|split; [|split]]].
  - intros s l Hl.
    rewrite (bind_run _ _ _ _ _
               (create_unique_member_coercer int_coerce (VList l) s eq_refl)).
    rewrite (unique_member_call_eq _ _ _ _ _ _ (Hint s)).
    rewrite t_ok_true by discriminate.
    unfold bind, hash_of, ret. simpl.
    destruct (py_hash B (VInt 1) =? py_hash B (VStr "1")) eqn:E.
    + apply Z.eqb_eq in E. contradiction.
    + simpl. unfold bind. rewrite Hl. reflexivity.
  - intros s l Hl.
    rewrite (bind_run _ _ _ _ _
               (create_unique_member_coercer int_coerce (VList l) s eq_refl)).
    rewrite (unique_member_call_eq _ _ _ _ _ _ (Hint s)).
    rewrite t_ok_true by discriminate.
    unfold bind, hash_of, ret. simpl.
    destruct (py_hash B (VInt 1) =? py_hash B (VStr "1")) eqn:E;
      simpl; [reflexivity|].
    unfold bind. rewrite Hl. reflexivity.
  - intros coerce container arg s res s1 Hc Hres.
    rewrite (unique_member_call_eq _ _ _ _ _ _ Hc).
    rewrite (t_ok_true _ _ Hres).
    unfold bind, hash_of, ret, raise. cbv beta.
    destruct (hashable res) eqn:H1; [|um_finish].
    destruct (hashable arg) eqn:H2; [|um_finish].
    destruct (py_hash B res =? py_hash B arg) eqn:H3; simpl.
    { apply Z.eqb_eq in H3. um_finish. }
    apply Z.eqb_neq in H3.
    destruct (py_contains container res s1) as [[found|e] s2] eqn:H4;
      pose proof (py_contains_store _ _ _ _ _ H4) as ->;
      [destruct found|]; um_finish.
  - intros coerce container arg s s1 Hc.
    rewrite (unique_member_call_eq _ _ _ _ _ _ Hc), t_ok_nil. reflexivity.
  - intros coerce container arg s e s1 Hc.
    change (call (VUniqueMember coerce container) arg s)
      with (unique_member_call call coerce container arg s).
    unfold unique_member_call. rewrite (bind_raise _ _ _ _ _ Hc).
    reflexivity.
Qed.

(** ** combo *)

(** The coercers [cs] applied to the members [xs] of [arg] in lockstep,
    the i-th coercer to the i-th member, as far as the shorter of the
    two goes and all with success: [ys] are the results.  [all] are the
    members of [arg], which it keeps during the walk. *)
Inductive lockstep (arg : value) (all : list value)
  : list value -> list value -> store -> list value -> store -> Prop :=
| lockstep_no_coercer xs s : lockstep arg all [] xs s [] s
| lockstep_no_member c cs s :
    items_of arg s = (Ret all, s) ->
    lockstep arg all (c :: cs) [] s [] s
| lockstep_step c cs x xs s y s1 ys s' :
    items_of arg s = (Ret all, s) ->
    call c x s = (Ret y, s1) ->
    y <> v_nil ->
    lockstep arg all cs xs s1 ys s' ->
    lockstep arg all (c :: cs) (x :: xs) s (y :: ys) s'.

Lemma lockstep_length arg all cs xs s ys s' :
  lockstep arg all cs xs s ys s' ->
  length ys = Nat.min (length cs) (length xs).
Proof.
  induction 1; simpl; try reflexivity. rewrite IHlockstep. reflexivity.
Qed.

(** The iterator [it] over [arg] has the members [xs] left to yield. *)
Definition iter_at (arg : value) (all xs : list value) (it : iterator) : Prop :=
  it = ItMembers xs \/
  exists l i, arg = VList l /\ it = ItList l i /\ drop i all = xs.

Lemma drop_cons_lookup {A} (l : list A) i x xs :
  drop i l = x :: xs -> l !! i = Some x /\ drop (S i) l = xs.
Proof.
  revert i. induction l as [|a l IH]; intros [|i]; simpl; try discriminate.
  - intros [= -> ->]. rewrite drop_0. auto.
  - intros H. apply IH in H. exact H.
Qed.

Lemma drop_nil_lookup {A} (l : list A) i : drop i l = [] -> l !! i = None.
Proof.
  revert i. induction l as [|a l IH]; intros [|i]; simpl; try discriminate;
    auto.
Qed.

Lemma py_next_member arg all x xs it s :
  iter_at arg all (x :: xs) it ->
  items_of arg s = (Ret all, s) ->
  exists it', py_next it VUnset s = (Ret (x, it'), s) /\ iter_at arg all xs it'.
Proof.
  intros [-> | (l & i & -> & -> & Hd)] Hall.
  - exists (ItMembers xs). split; [reflexivity | left; reflexivity].
  - apply drop_cons_lookup in Hd as [Hx Hd]. exists (ItList l (S i)). split.
    + unfold py_next. rewrite (bind_run _ _ _ _ _ Hall), Hx. reflexivity.
    + right. eauto.
Qed.

Lemma py_next_end arg all it s :
  iter_at arg all [] it ->
  items_of arg s = (Ret all, s) ->
  py_next it VUnset s = (Ret (VUnset, it), s).
Proof.
  intros [-> | (l & i & -> & -> & Hd)] Hall; [reflexivity|].
  apply drop_nil_lookup in Hd.
  unfold py_next. rewrite (bind_run _ _ _ _ _ Hall), Hd. reflexivity.
Qed.

Lemma combo_loop_lockstep (self : loc) arg all cs xs s ys s' :
  lockstep arg all cs xs s ys s' ->
  Forall (fun x => x <> VUnset) xs ->
  forall it res,
    iter_at arg all xs it ->
    combo_loop call self cs it res s = (Ret (Some (res ++ ys)), s').
Proof.
  induction 1 as [xs s | c cs s Hall | c cs x xs s y s1 ys s' Hall Hc Hy _ IH];
    intros Hxs it res Hit.
  - simpl. rewrite app_nil_r. reflexivity.
  - simpl. rewrite (bind_run _ _ _ _ _ (py_next_end _ _ _ _ Hit Hall)).
    rewrite app_nil_r. reflexivity.
  - destruct (py_next_member _ _ _ _ _ _ Hit Hall) as (it' & Hn & Hit').
    apply Forall_cons in Hxs as [Hx Hxs].
    simpl. rewrite (bind_run _ _ _ _ _ Hn).
    replace (py_is x VUnset) with false.
    2:{ destruct (py_is x VUnset) eqn:E; [|reflexivity].
        apply py_is_eq in E. contradiction. }
    cbn [negb]. rewrite (bind_run _ _ _ _ _ Hc), bind_read, t_ok_true by exact Hy.
    rewrite (IH Hxs it' (res ++ [y]) Hit'), <- app_assoc. reflexivity.
Qed.

Lemma combo_loop_failure (self : loc) arg all pre xpre s ys s1 :
  lockstep arg all pre xpre s ys s1 ->
  length xpre = length pre ->
  Forall (fun x => x <> VUnset) xpre ->
  forall c post x xpost it res s2,
    iter_at arg all (xpre ++ x :: xpost) it ->
    x <> VUnset ->
    items_of arg s1 = (Ret all, s1) ->
    call c x s1 = (Ret v_nil, s2) ->
    combo_loop call self (pre ++ c :: post) it res s
    = (Ret None, <[self := OCustom (VTuple [x; c])]> s2).
Proof.
  induction 1 as [xs s | c0 cs s Hall
                 | c0 cs x0 xs s y s1 ys s' Hall Hc0 Hy _ IH];
    intros Hlen Hxs c post x xpost it res s2 Hit Hx Hall1 Hc.
  - destruct xs; [|discriminate Hlen]. simpl in *.
    destruct (py_next_member _ _ _ _ _ _ Hit Hall1) as (it' & Hn & Hit').
    rewrite (bind_run _ _ _ _ _ Hn).
    replace (py_is x VUnset) with false.
    2:{ destruct (py_is x VUnset) eqn:E; [|reflexivity].
        apply py_is_eq in E. contradiction. }
    cbn [negb]. rewrite (bind_run _ _ _ _ _ Hc), bind_read, t_ok_nil.
    reflexivity.
  - discriminate Hlen.
  - simpl in Hlen. injection Hlen as Hlen.
    apply Forall_cons in Hxs as [Hx0 Hxs]. simpl in Hit.
    destruct (py_next_member _ _ _ _ _ _ Hit Hall) as (it' & Hn & Hit').
    simpl. rewrite (bind_run _ _ _ _ _ Hn).
    replace (py_is x0 VUnset) with false.
    2:{ destruct (py_is x0 VUnset) eqn:E; [|reflexivity].
        apply py_is_eq in E. contradiction. }
    cbn [negb]. rewrite (bind_run _ _ _ _ _ Hc0), bind_read, t_ok_true by exact Hy.
    apply (IH Hlen Hxs c post x xpost it' _ s2 Hit' Hx Hall1 Hc).
Qed.

Lemma py_iter_at arg xs s :
  is_iterable arg = true ->
  items_of arg s = (Ret xs, s) ->
  exists it, py_iter arg s = (Ret it, s) /\ iter_at arg xs xs it.
Proof.
  intros Hit Hxs. destruct arg; try discriminate Hit.
  - exists (ItMembers xs). unfold py_iter.
    rewrite (bind_run _ _ _ _ _ Hxs). split; [reflexivity | left; reflexivity].
  - exists (ItMembers xs). unfold py_iter.
    rewrite (bind_run _ _ _ _ _ Hxs). split; [reflexivity | left; reflexivity].
  - exists (ItList l 0). split; [reflexivity|]. right. exists l, 0%nat.
    rewrite drop_0. auto.
  - exists (ItMembers xs). unfold py_iter.
    rewrite (bind_run _ _ _ _ _ Hxs). split; [reflexivity | left; reflexivity].
  - exists (ItMembers xs). unfold py_iter.
    rewrite (bind_run _ _ _ _ _ Hxs). split; [reflexivity | left; reflexivity].
Qed.

Lemma lookup_last (s : list obj) (o : obj) : (s ++ [o]) !! length s = Some o.
Proof. rewrite lookup_app_r by lia. rewrite Nat.sub_diag. reflexivity. Qed.

Lemma combo_new_coercers (cs : list value) s :
  Forall (fun c => is_coercer c = true) cs ->
  length cs <> 1%nat ->
  combo_new cs s
  = (Ret (Combo (length s) cs), s ++ [OCustom VUnset; OCustom VUnset]).
Proof.
  intros Hcs Hlen. unfold combo_new, new_custom.
  unfold bind at 1. unfold alloc at 1.
  rewrite (bind_run _ _ _ _ _ (pargs_new_coercer VCoercerClass _ eq_refl)).
  change (call (Pargs (length (s ++ [OCustom VUnset])) VCoercerClass) (VTuple cs))
    with (pargs_call call (length (s ++ [OCustom VUnset])) VCoercerClass
            (VTuple cs)).
  unfold bind at 1. rewrite pargs_call_many by exact Hlen.
  assert (Hall : Forall2 (fun item new => forall s,
                     call VCoercerClass item s = (Ret new, s) /\ new <> v_nil)
                   cs cs).
  { clear Hlen. induction Hcs as [|c cs Hc _ IH]; constructor; [|exact IH].
    intros s0. split; [apply coercer_new_coercer, Hc|].
    apply is_coercer_not_nil, Hc. }
  rewrite (bind_run _ _ _ _ _ (pargs_loop_all _ _ _ _ Hall [] _)).
  cbn [app ret items_of]. rewrite bind_ret_l.
  erewrite bind_run.
  2:{ apply map_m_Forall2 with (rs := cs).
      clear Hlen Hall. induction Hcs as [|c cs Hc _ IH]; constructor;
        [|exact IH]. apply vouch_coercer, Hc. }
  rewrite <- app_assoc. reflexivity.
Qed.

(** [combo.__call__], as the code has it.  On an iterable input that
    keeps its members [xs] during the walk, none of them [Unset], [combo] applies
    its i-th coercer to the i-th member as far as the shorter of the two
    goes.  When all these applications succeed, the list [ys] of the
    results, as long as the shorter of the two, is turned into the type of
    the input: a tuple of [ys] for a tuple, a new list of [ys] for a
    list.  When the i-th application is the first to fail, [combo] puts
    the pair of the member and the coercer in its [scope] and returns
    [nil].  And [combo(int_coerce, float_coerce)] on [("3", "4")] returns
    [(3, 4.0)]. *)
Theorem combo_coerces_in_lockstep :
  float_of_str B "3" = Some (float_lit 3) ->
  float_of_str B "4" = Some (float_lit 4) ->
  (forall self cs arg xs s ys s',
      is_iterable arg = true ->
      items_of arg s = (Ret xs, s) ->
      Forall (fun x => x <> VUnset) xs ->
      lockstep arg xs cs xs s ys s' ->
      length ys = Nat.min (length cs) (length xs) /\
      call (Combo self cs) arg s
      = (l <- alloc (OList ys) ;;
         try_or (construct_like arg (VList l)) (VList l)) s' /\
      (forall items, arg = VTuple items ->
                     call (Combo self cs) arg s
                     = (Ret (VTuple ys), s' ++ [OList ys])) /\
      (forall l, arg = VList l ->
                 call (Combo self cs) arg s
                 = (Ret (VList (S (length s'))), s' ++ [OList ys; OList ys]))) /\
  (forall self pre c post arg xpre x xpost s ys s1 s2,
      is_iterable arg = true ->
      items_of arg s = (Ret (xpre ++ x :: xpost), s) ->
      Forall (fun x => x <> VUnset) (xpre ++ [x]) ->
      length xpre = length pre ->
      lockstep arg (xpre ++ x :: xpost) pre xpre s ys s1 ->
      items_of arg s1 = (Ret (xpre ++ x :: xpost), s1) ->
      call c x s1 = (Ret v_nil, s2) ->
      call (Combo self (pre ++ c :: post)) arg s
      = (Ret v_nil, <[self := OCustom (VTuple [x; c])]> s2)) /\
  (forall s,
      (c <- combo_new [int_coerce; float_coerce] ;;
       call c (VTuple [VStr "3"; VStr "4"])) s
      = (Ret (VTuple [VInt 3; VFloat (float_lit 4)]),
         s ++ [OCustom VUnset; OCustom VUnset;
               OList [VInt 3; VFloat (float_lit 4)]])).
Proof.
  intros H3 H4.
  assert (Hok : forall self cs arg xs s ys s',
             is_iterable arg = true ->
             items_of arg s = (Ret xs, s) ->
             Forall (fun x => x <> VUnset) xs ->
             lockstep arg xs cs xs s ys s' ->
             call (Combo self cs) arg s
             = (l <- alloc (OList ys) ;;
                try_or (construct_like arg (VList l)) (VList l)) s').
  { intros self cs arg xs s ys s' Hit Hxs Hun Hl.
    change (call (Combo self cs) arg s) with (combo_call call self cs arg s).
    unfold combo_call. rewrite Hit.
    destruct (py_iter_at _ _ _ Hit Hxs) as (it & Hiter & Hat).
    rewrite (bind_run _ _ _ _ _ Hiter).
    rewrite (bind_run _ _ _ _ _ (combo_loop_lockstep self _ _ _ _ _ _ _ Hl Hun it [] Hat)).
    reflexivity. }
  split; [|split].
  - intros self cs arg xs s ys s' Hit Hxs Hun Hl.
    split; [apply (lockstep_length _ _ _ _ _ _ _ Hl)|].
    split; [apply (Hok _ _ _ _ _ _ _ Hit Hxs Hun Hl)|]. split.
    + intros items ->. rewrite (Hok _ _ _ _ _ _ _ Hit Hxs Hun Hl).
      cbv [bind alloc try_or construct_like py_tuple items_of ret].
      rewrite lookup_last. reflexivity.
    + intros l ->. rewrite (Hok _ _ _ _ _ _ _ Hit Hxs Hun Hl).
      cbv [bind alloc try_or construct_like build items_of ret].
      rewrite lookup_last, length_app, Nat.add_1_r, <- app_assoc.
      reflexivity.
  - intros self pre c post arg xpre x xpost s ys s1 s2
      Hit Hxs Hun Hlen Hl Hall1 Hc.
    change (combo_call call self (pre ++ c :: post) arg s
            = (Ret v_nil, <[self := OCustom (VTuple [x; c])]> s2)).
    unfold combo_call. rewrite Hit.
    destruct (py_iter_at _ _ _ Hit Hxs) as (it & Hiter & Hat).
    rewrite (bind_run _ _ _ _ _ Hiter).
    apply Forall_app in Hun as [Hun Hx]. apply Forall_cons in Hx as [Hx _].
    rewrite (bind_run _ _ _ _ _
               (combo_loop_failure self _ _ _ _ _ _ _ Hl Hlen Hun
                  c post x xpost it [] s2 Hat Hx Hall1 Hc)).
    reflexivity.
  - intros s.
    rewrite (bind_run _ _ _ _ _
               (combo_new_coercers [int_coerce; float_coerce] s
                  ltac:(repeat constructor) ltac:(discriminate))).
    assert (Hl : lockstep (VTuple [VStr "3"; VStr "4"]) [VStr "3"; VStr "4"]
                   [int_coerce; float_coerce] [VStr "3"; VStr "4"]
                   (s ++ [OCustom VUnset; OCustom VUnset])
                   [VInt 3; VFloat (float_lit 4)]
                   (s ++ [OCustom VUnset; OCustom VUnset])).
    { eapply lockstep_step; [reflexivity | | discriminate |].
      { apply (int_coerce_str _ _ (float_lit 3) 3 _ H3); reflexivity. }
      eapply lockstep_step; [reflexivity | | discriminate | constructor].
      apply float_coerce_str, H4. }
    rewrite (Hok (length s) _ (VTuple [VStr "3"; VStr "4"]) _ _ _ _
               eq_refl eq_refl ltac:(repeat constructor; discriminate) Hl).
    cbv [bind alloc try_or construct_like py_tuple items_of ret].
    rewrite lookup_last, <- app_assoc. reflexivity.
Qed.

(** ** iterable and mapping: what becomes of the input *)








Lemma coercer_is_not_Unset (c : value) :
  is_coercer c = true -> py_is c VUnset = false.
Proof. destruct c; intros H; try discriminate H; reflexivity. Qed.

Lemma coercer_is_true (c : value) s : is_coercer c = true -> truthy s c = true.
Proof. destruct c; intros H; try discriminate H; reflexivity. Qed.

(** [iterable(m)] of a coercer [m]: the outer coercer is the default,
    [compose(coercer(True), sized_coerce)], which is [sized_coerce]. *)
Lemma iterable_new_coercer (m : value) s :
  is_coercer m = true ->
  iterable_new m (VBool true) s
  = (Ret (Iterable (length s) m sized_coerce),
     s ++ [OCustom VUnset; OCustom VUnset]).
Proof.
  intros H. unfold iterable_new, new_custom, alloc.
  unfold bind at 1. rewrite (bind_run _ _ _ _ _ (vouch_coercer m _ H)).
  assert (Ho : coercer_new (VBool true) (s ++ [OCustom VUnset])
               = (Ret identity_coerce, s ++ [OCustom VUnset]))
    by reflexivity.
  rewrite (bind_run _ _ _ _ _ Ho).
  assert (Hc : compose_new [identity_coerce; sized_coerce] []
                 (s ++ [OCustom VUnset])
               = (Ret sized_coerce, (s ++ [OCustom VUnset]) ++ [OCustom VUnset])).
  { rewrite (compose_new_run _ [] [identity_coerce; sized_coerce]).
    - reflexivity.
    - change recursion_limit with (S (S 998)).
      apply flatten_call_leaves.
      constructor; [apply leaf_atom; reflexivity|].
      constructor; [apply leaf_atom; reflexivity|]. constructor. }
  rewrite (bind_run _ _ _ _ _ Hc), <- app_assoc. reflexivity.
Qed.


(** * Further properties of the module *)

(** ** [logical.__call__] *)

(** The two tests [t(x)] and [nil(x)] are complementary.  [t(x)] is
    true exactly when [x] is not [nil]: [0], [False], the empty string
    and the empty containers pass, and a true [x] comes back as itself;
    [nil(x)] is [t] when [x] is [nil] and [nil] otherwise. *)
Theorem t_and_nil_test_against_nil (x : value) (s : store) :
  exists a b,
    call v_t x s = (Ret a, s) /\
    call v_nil x s = (Ret b, s) /\
    (truthy s a = true <-> x <> v_nil) /\
    (truthy s b = true <-> x = v_nil) /\
    (truthy s x = true -> a = x) /\
    (truthy s x = false -> x <> v_nil -> a = v_t) /\
    (b = if py_is x v_nil then v_t else v_nil).
Proof.
  exists (logical_call s v_t x), (logical_call s v_nil x).
  split; [reflexivity|]. split; [reflexivity|].
  split; [|split; [|split; [|split]]].
  - change (t_ok s x = true <-> x <> v_nil). rewrite t_ok_not_nil.
    destruct (py_is x v_nil) eqn:E; simpl.
    + apply py_is_eq in E. split; [discriminate | intros H; contradiction].
    + split; [|reflexivity]. intros _ H. apply py_is_eq in H. congruence.
  - unfold logical_call. simpl.
    destruct (py_is x v_nil) eqn:E.
    + apply py_is_eq in E. split; [intros _; exact E | reflexivity].
    + split; [discriminate|]. intros H. apply py_is_eq in H. congruence.
  - intros H. unfold logical_call. simpl. rewrite H. reflexivity.
  - intros H Hn. unfold logical_call. simpl. rewrite H.
    destruct (py_is x v_nil) eqn:E; [|reflexivity].
    apply py_is_eq in E. contradiction.
  - reflexivity.
Qed.

(** ** [vouch] *)

Lemma vouch_with_arguments (fn : value) (args : list value) (kw : kwargs) s :
  args <> [] \/ kw <> [] ->
  vouch fn args kw s
  = (res <- apply fn (passed_args args) kw ;;
     ok <- read (fun s => t_ok s res) ;;
     if ok then ret res
     else
       name <- coercer_name recursion_limit fn VNone ;;
       msg <- read (fun s =>
                      vouch_message (py_format s name)
                        (both_args_repr B s (passed_args args) kw)) ;;
       raise (TypeError msg)) s.
Proof.
  intros H. unfold vouch, vouch_rec, vouch_by, passed_args.
  destruct args as [|a [|a' args]]; destruct kw as [|k kw]; try reflexivity.
  destruct H as [H | H]; contradiction H; reflexivity.
Qed.

(** [vouch] called with arguments never returns [nil]: what it returns
    is what [fn] returned, and any exception of [fn] goes through; the
    wrapper that [vouch(fn)] makes, which [vouch] always returns without
    calling [fn], never returns [nil] either. *)
Theorem vouch_never_returns_nil (fn : value) :
  (forall args kw s r s',
      args <> [] \/ kw <> [] ->
      vouch fn args kw s = (Ret r, s') ->
      r <> v_nil /\ apply fn (passed_args args) kw s = (Ret r, s')) /\
  (forall args kw s e s',
      args <> [] \/ kw <> [] ->
      apply fn (passed_args args) kw s = (Raise e, s') ->
      vouch fn args kw s = (Raise e, s')) /\
  (forall s, exists name s',
        vouch fn [] [] s = (Ret (VVouch fn name false), s')) /\
  (forall name marked arg s r s',
      call (VVouch fn name marked) arg s = (Ret r, s') -> r <> v_nil).
Proof.
  assert (Hret : forall args kw s r s',
             args <> [] \/ kw <> [] ->
             vouch fn args kw s = (Ret r, s') ->
             r <> v_nil /\ apply fn (passed_args args) kw s = (Ret r, s')).
  { intros args kw s r s' Hargs H.
    rewrite (vouch_with_arguments _ _ _ _ Hargs) in H.
    apply bind_eq_ret in H as (res & s1 & Hres & H).
    rewrite bind_read in H.
    destruct (t_ok s1 res) eqn:Hok.
    - injection H as <- <-. split; [|exact Hres].
      intros ->. rewrite t_ok_nil in Hok. discriminate.
    - apply bind_eq_ret in H as (name & s2 & _ & H). discriminate H. }
  split; [exact Hret|]. split; [|split].
  - intros args kw s e s' Hargs H.
    rewrite (vouch_with_arguments _ _ _ _ Hargs). apply bind_raise. exact H.
  - intros s. unfold vouch, vouch_rec, vouch_by, try_or, bind, ret.
    destruct (coercer_name recursion_limit fn VNone s) as [[n|e] s1];
      [destruct n|]; eauto.
  - intros name marked arg s r s' H.
    apply (Hret [arg] [] s r s'); [left; discriminate | exact H].
Qed.

(** ** [coercer.__new__] *)

Lemma coercer_decorator_coercer (v : value) :
  is_function v = true -> is_coercer (coercer_decorator v) = true.
Proof. destruct v; intros H; try discriminate H; reflexivity. Qed.

Lemma istype_new_returns (types : value) s r s' :
  istype_new types s = (Ret r, s') -> is_coercer r = true.
Proof.
  unfold istype_new. rewrite bind_read.
  destruct (truthy s types); [|intros [= <- <-]; reflexivity].
  intros H. apply bind_eq_ret in H as (self & s1 & _ & H).
  apply bind_eq_ret in H as (inner & s2 & _ & H).
  destruct inner; try discriminate H. injection H as <- <-. reflexivity.
Qed.

(** What [coercer(source)] returns is [nil] or an instance of [coercer],
    and [coercer] gives an instance of [coercer] back as it is; a class
    makes an [istype] instance over that class alone; a string, a number
    other than a [boolean] and the empty tuple make [nil]. *)
Theorem coercer_makes_a_coercer_or_nil :
  (forall source s r s',
      coercer_new source s = (Ret r, s') ->
      (r = v_nil \/ is_coercer r = true) /\
      (r <> v_nil -> coercer_new r s' = (Ret r, s'))) /\
  (forall id s,
      coercer_new (VClass id) s
      = (Ret (IsType (length s) [VClass id]), s ++ [OCustom VUnset])) /\
  (forall source s,
      (exists x, source = VStr x) \/ (exists z, source = VInt z) \/
      (exists f, source = VFloat f) \/ source = VTuple [] ->
      coercer_new source s = (Ret v_nil, s)).
Proof.
  split; [|split].
  - intros source s r s' H.
    assert (Hr : r = v_nil \/ is_coercer r = true).
    { unfold coercer_new in H.
      destruct (py_eq source (VInt 1) && is_boolean source);
        [injection H as <- <-; right; reflexivity|].
      destruct (py_is source VNone || py_eq source (VInt 0) && is_boolean source);
        [injection H as <- <-; right; reflexivity|].
      destruct (is_coercer source) eqn:Hc;
        [injection H as <- <-; right; exact Hc|].
      destruct (is_function source) eqn:Hf;
        [injection H as <- <-; right; apply coercer_decorator_coercer; exact Hf|].
      apply bind_eq_ret in H as (inner & s1 & _ & H).
      rewrite bind_read in H.
      destruct (truthy s1 inner); [|injection H as <- <-; left; reflexivity].
      right. eapply istype_new_returns. exact H. }
    split; [exact Hr|]. intros Hn. destruct Hr as [-> | Hc]; [contradiction|].
    apply coercer_new_coercer. exact Hc.
  - reflexivity.
  - intros source s [[x ->] | [[z ->] | [[f ->] | ->]]];
      unfold coercer_new; cbn [is_boolean py_is];
      rewrite ?andb_false_r; reflexivity.
Qed.

(** ** The numeric coercers *)

(** What [number_coerce] computes for an argument that is no integer. *)
Lemma number_coerce_returns (arg : value) s r s' :
  number_coerce_body arg s = (Ret r, s') ->
  s' = s /\
  (int_value arg <> None /\ r = arg \/
   int_value arg = None /\ float_coerce_body arg s = (Ret v_nil, s) /\
   r = v_nil \/
   exists f i exact,
     int_value arg = None /\
     float_coerce_body arg s = (Ret (VFloat f), s) /\
     py_int (VFloat f) s = (Ret i, s) /\
     minus_is_zero (VFloat f) i s = (Ret exact, s) /\
     r = if exact then VInt i else VFloat f).
Proof.
  unfold number_coerce_body. destruct (int_value arg) as [z|] eqn:Hz.
  - intros [= <- <-]. split; [reflexivity|]. left. split; [discriminate|reflexivity].
  - intros H. apply bind_eq_ret in H as (a & s1 & Ha & H).
    destruct (float_coerce_returns _ _ _ _ Ha) as [-> Hshape].
    rewrite bind_read in H. destruct Hshape as [-> | [f ->]].
    + rewrite t_ok_nil in H. injection H as <- <-. split; [reflexivity|].
      right. left. auto.
    + rewrite t_ok_true in H by discriminate.
      unfold py_int, minus_is_zero, lift, bind, ret in H |- *.
      destruct (int_of_float f) as [i|e] eqn:Hi; [|discriminate].
      destruct (float_of_int i) as [g|e] eqn:Hg; [|discriminate].
      injection H as <- <-. split; [reflexivity|].
      right. right. exists f, i, (float_eq_int (float_sub f g) 0).
      rewrite Hi, Hg. auto.
Qed.

Lemma int_coerce_of_int (r : value) (z : Z) s :
  int_value r = Some z -> int_coerce_body r s = (Ret r, s).
Proof. unfold int_coerce_body. intros ->. reflexivity. Qed.

(** The numeric coercers are idempotent: each of them returns a valid
    result of its own as it is, and none of them changes the store. *)
Theorem numeric_coercers_are_idempotent (c : value) (arg : value) s r s' :
  In c [float_coerce; int_coerce; number_coerce; positive_int_coerce] ->
  call c arg s = (Ret r, s') ->
  r <> v_nil ->
  s' = s /\ call c r s = (Ret r, s).
Proof.
  intros Hc H Hr.
  destruct Hc as [<- | [<- | [<- | [<- | []]]]].
  - change (float_coerce_body arg s = (Ret r, s')) in H.
    destruct (float_coerce_returns _ _ _ _ H) as [-> [-> | [f ->]]];
      [contradiction|]. split; reflexivity.
  - change (int_coerce_body arg s = (Ret r, s')) in H.
    destruct (int_coerce_returns _ _ _ _ H) as [-> [z Hz]].
    split; [reflexivity|]. exact (int_coerce_of_int _ _ _ Hz).
  - change (number_coerce_body arg s = (Ret r, s')) in H.
    change (s' = s /\ number_coerce_body r s = (Ret r, s)).
    destruct (number_coerce_returns _ _ _ _ H)
      as [-> [[Hi ->] | [(_ & _ & ->) | (f & i & exact & Hi & Hf & Hz & He & ->)]]];
      split; try reflexivity; try contradiction.
    + unfold number_coerce_body. destruct (int_value arg); [reflexivity|].
      contradiction Hi. reflexivity.
    + destruct exact; [reflexivity|].
      unfold number_coerce_body.
      change (int_value (VFloat f)) with (@None Z). cbv iota.
      change (float_coerce_body (VFloat f)) with (@ret value (VFloat f)).
      rewrite bind_ret_l, bind_read, t_ok_true by discriminate.
      rewrite (bind_run _ _ _ _ _ Hz), (bind_run _ _ _ _ _ He). reflexivity.
  - change (positive_int_coerce_body arg s = (Ret r, s')) in H.
    change (s' = s /\ positive_int_coerce_body r s = (Ret r, s)).
    rewrite positive_int_coerce_eq in H.
    destruct (int_coerce_body arg s) as [[q|e] s1] eqn:E; [|discriminate].
    destruct (int_coerce_returns _ _ _ _ E) as [-> [z Hz]].
    rewrite Hz in H.
    destruct (py_is q v_nil || (0 <=? z)) eqn:Hpos;
      injection H as <- <-; [|contradiction].
    split; [reflexivity|].
    rewrite positive_int_coerce_eq, (int_coerce_of_int _ _ _ Hz), Hz, Hpos.
    reflexivity.
Qed.

(** [number_coerce] returns what [int_coerce] returns where that
    succeeds, and what [float_coerce] returns, a float, where
    [int_coerce] fails. *)
Theorem number_coerce_is_int_or_float (arg : value) s :
  (forall r s',
      call int_coerce arg s = (Ret r, s') -> r <> v_nil ->
      call number_coerce arg s = (Ret r, s')) /\
  (forall r s',
      call number_coerce arg s = (Ret r, s') -> r <> v_nil ->
      call int_coerce arg s = (Ret r, s') \/
      call int_coerce arg s = (Ret v_nil, s') /\
      call float_coerce arg s = (Ret r, s') /\
      exists f, r = VFloat f) /\
  (forall s',
      call number_coerce arg s = (Ret v_nil, s') ->
      call int_coerce arg s = (Ret v_nil, s')).
Proof.
  change (call int_coerce arg) with (int_coerce_body arg).
  change (call number_coerce arg) with (number_coerce_body arg).
  change (call float_coerce arg) with (float_coerce_body arg).
  assert (Hint : int_value arg = None ->
                 int_coerce_body arg s
                 = (a <- float_coerce_body arg ;;
                    ok <- read (fun s => t_ok s a) ;;
                    if ok then
                      res <- py_int a ;;
                      exact <- minus_is_zero a res ;;
                      ret (if exact then VInt res else v_nil)
                    else ret v_nil) s).
  { intros Hn. unfold int_coerce_body. rewrite Hn. reflexivity. }
  split; [|split].
  - intros r s' H Hr. unfold number_coerce_body.
    destruct (int_value arg) as [z|] eqn:Hz.
    + rewrite (int_coerce_of_int _ _ _ Hz) in H. exact H.
    + rewrite (Hint eq_refl) in H.
      apply bind_eq_ret in H as (a & s1 & Ha & H).
      rewrite (bind_run _ _ _ _ _ Ha). rewrite bind_read in H |- *.
      destruct (t_ok s1 a); [|injection H as <- <-; contradiction].
      apply bind_eq_ret in H as (i & s2 & Hi & H).
      apply bind_eq_ret in H as (exact & s3 & He & H).
      rewrite (bind_run _ _ _ _ _ Hi), (bind_run _ _ _ _ _ He).
      destruct exact; [exact H | injection H as <- <-; contradiction].
  - intros r s' H Hr.
    destruct (number_coerce_returns _ _ _ _ H)
      as [-> [[Hi ->] | [(_ & _ & ->) | (f & i & exact & Hi & Hf & Hz & He & ->)]]];
      [ | contradiction | ].
    + left. unfold int_coerce_body. destruct (int_value arg); [reflexivity|].
      contradiction Hi. reflexivity.
    + rewrite (Hint Hi), (bind_run _ _ _ _ _ Hf), bind_read,
        t_ok_true, (bind_run _ _ _ _ _ Hz), (bind_run _ _ _ _ _ He)
        by discriminate.
      destruct exact; [left; reflexivity|].
      right. split; [reflexivity|]. split; [exact Hf|]. eauto.
  - intros s' H.
    destruct (number_coerce_returns _ _ _ _ H)
      as [-> [[Hi E] | [(Hi & Hf & _) | (f & i & exact & Hi & Hf & Hz & He & E)]]].
    + unfold int_coerce_body. destruct (int_value arg); [rewrite <- E; reflexivity|].
      contradiction Hi. reflexivity.
    + rewrite (Hint Hi), (bind_run _ _ _ _ _ Hf), bind_read, t_ok_nil.
      reflexivity.
    + destruct exact; discriminate E.
Qed.

(** [int_coerce] and [number_coerce] raise on a float that is infinite
    or not a number: [int(arg)] raises there, and nothing catches it. *)
Theorem int_coerce_raises_on_infinity_and_nan (c : value) s :
  c = int_coerce \/ c = number_coerce ->
  (forall sign,
      call c (VFloat (S754_infinity sign)) s
      = (Raise (OverflowError "cannot convert float infinity to integer"), s)) /\
  call c (VFloat S754_nan) s
  = (Raise (ValueError "cannot convert float NaN to integer"), s) /\
  (forall x f,
      float_of_str B x = Some f ->
      (exists sign, f = S754_infinity sign) \/ f = S754_nan ->
      exists e, call c (VStr x) s = (Raise e, s)).
Proof.
  assert (Hstr : forall x f,
             float_of_str B x = Some f ->
             (exists sign, f = S754_infinity sign) \/ f = S754_nan ->
             (exists e, int_coerce_body (VStr x) s = (Raise e, s)) /\
             (exists e, number_coerce_body (VStr x) s = (Raise e, s))).
  { intros x f Hf Hinf.
    unfold int_coerce_body, number_coerce_body, float_coerce_body.
    change (int_value (VStr x)) with (@None Z). cbv iota. rewrite Hf.
    rewrite !bind_ret, !bind_read, t_ok_true by discriminate.
    destruct Hinf as [[sign ->] | ->]; split; eexists; reflexivity. }
  intros [-> | ->].
  - split; [intros []; reflexivity|]. split; [reflexivity|].
    intros x f Hf Hinf. exact (proj1 (Hstr x f Hf Hinf)).
  - split; [intros []; reflexivity|]. split; [reflexivity|].
    intros x f Hf Hinf. exact (proj2 (Hstr x f Hf Hinf)).
Qed.

(** ** Identifiers *)

Lemma word_tail_dotted (x : string) : word_tail x = true -> dotted_tail x = true.
Proof.
  induction x as [|c r IH]; [reflexivity|]. simpl.
  destruct (is_word c); [exact IH|].
  intros H. apply andb_true_iff in H as [Hc Hr]. rewrite Hc, Hr.
  apply Ascii.eqb_eq in Hc. subst c. reflexivity.
Qed.

(** The characters of [x] are letters, digits and underscores. *)
Definition plain (x : string) : bool :=
  forallb is_word (list_ascii_of_string x).

Lemma plain_word_tail (x : string) : plain x = true -> word_tail x = true.
Proof.
  unfold plain. induction x as [|c r IH]; [reflexivity|]. simpl.
  intros H. apply andb_true_iff in H as [-> Hr]. exact (IH Hr).
Qed.

Lemma dotted_tail_app (a b : string) :
  plain a = true -> full_identifier_match b = true ->
  dotted_tail (a ++ String dot b) = true.
Proof.
  unfold plain. induction a as [|c r IH]; simpl; intros Ha Hb.
  - destruct b as [|c' r']; [discriminate|]. exact Hb.
  - apply andb_true_iff in Ha as [-> Hr]. exact (IH Hr Hb).
Qed.

Lemma word_tail_newline (a : string) :
  plain a = true -> word_tail (a ++ String newline EmptyString) = true.
Proof.
  unfold plain. induction a as [|c r IH]; simpl; intros Ha; [reflexivity|].
  apply andb_true_iff in Ha as [-> Hr]. exact (IH Hr).
Qed.

(** The two identifier coercers return their argument as it is, or
    [nil].  What [identifier_coerce] accepts [full_identifier_coerce]
    accepts too; a plain identifier, a dot and a dotted identifier make a
    dotted identifier; and, [$] of the regular expression matching before
    a newline that ends the string, an identifier followed by a newline
    is accepted with its newline. *)
Theorem identifiers_are_dotted_identifiers :
  (forall c arg s r s',
      c = identifier_coerce \/ c = full_identifier_coerce ->
      call c arg s = (Ret r, s') ->
      s' = s /\ (r = v_nil \/ r = arg /\ exists x, arg = VStr x)) /\
  (forall x s,
      call identifier_coerce (VStr x) s = (Ret (VStr x), s) ->
      call full_identifier_coerce (VStr x) s = (Ret (VStr x), s)) /\
  (forall a b s,
      plain a = true ->
      call identifier_coerce (VStr a) s = (Ret (VStr a), s) ->
      call full_identifier_coerce (VStr b) s = (Ret (VStr b), s) ->
      call full_identifier_coerce (VStr (a ++ String dot b)) s
      = (Ret (VStr (a ++ String dot b)), s)) /\
  (forall a s,
      plain a = true ->
      call identifier_coerce (VStr a) s = (Ret (VStr a), s) ->
      call identifier_coerce (VStr (a ++ String newline EmptyString)) s
      = (Ret (VStr (a ++ String newline EmptyString)), s)).
Proof.
  assert (Hid : forall x s,
             call identifier_coerce (VStr x) s = (Ret (VStr x), s) ->
             identifier_match x = true).
  { intros x s H. change (identifier_coerce_body (VStr x) s = (Ret (VStr x), s)) in H.
    unfold identifier_coerce_body, ret in H.
    destruct (identifier_match x); [reflexivity | discriminate H]. }
  assert (Hfull : forall x s,
             call full_identifier_coerce (VStr x) s = (Ret (VStr x), s) ->
             full_identifier_match x = true).
  { intros x s H.
    change (full_identifier_coerce_body (VStr x) s = (Ret (VStr x), s)) in H.
    unfold full_identifier_coerce_body, ret in H.
    destruct (full_identifier_match x); [reflexivity | discriminate H]. }
  split; [|split; [|split]].
  - intros c arg s r s' [-> | ->] H;
      [change (identifier_coerce_body arg s = (Ret r, s')) in H
      |change (full_identifier_coerce_body arg s = (Ret r, s')) in H];
      unfold identifier_coerce_body, full_identifier_coerce_body, ret in H;
      destruct arg; try (injection H as <- <-; auto; fail);
      match type of H with
      | context [if ?b then _ else _] => destruct b
      end; injection H as <- <-; eauto.
  - intros x s H.
    pose proof (Hid _ _ H) as Hm.
    change (full_identifier_coerce_body (VStr x) s = (Ret (VStr x), s)).
    unfold full_identifier_coerce_body.
    destruct x as [|c r]; [discriminate Hm|].
    simpl in Hm |- *. apply andb_true_iff in Hm as [-> Hr].
    rewrite (word_tail_dotted _ Hr). reflexivity.
  - intros a b s Ha Hida Hb.
    pose proof (Hid _ _ Hida) as Hm. pose proof (Hfull _ _ Hb) as Hmb.
    change (full_identifier_coerce_body (VStr (a ++ String dot b)) s
            = (Ret (VStr (a ++ String dot b)), s)).
    unfold full_identifier_coerce_body.
    destruct a as [|c r]; [discriminate Hm|].
    simpl in Hm |- *. apply andb_true_iff in Hm as [-> _].
    unfold plain in Ha. simpl in Ha. apply andb_true_iff in Ha as [_ Hr].
    rewrite (dotted_tail_app r b Hr Hmb). reflexivity.
  - intros a s Ha Hida. pose proof (Hid _ _ Hida) as Hm.
    change (identifier_coerce_body (VStr (a ++ String newline EmptyString)) s
            = (Ret (VStr (a ++ String newline EmptyString)), s)).
    unfold identifier_coerce_body.
    destruct a as [|c r]; [discriminate Hm|].
    simpl in Hm |- *. apply andb_true_iff in Hm as [-> _].
    unfold plain in Ha. simpl in Ha. apply andb_true_iff in Ha as [_ Hr].
    rewrite (word_tail_newline r Hr). reflexivity.
Qed.

(** ** [names_coerce] *)

(** [v] is a string that [identifier_coerce] accepts. *)
Definition is_identifier (v : value) : bool :=
  match v with VStr x => identifier_match x | _ => false end.

Lemma identifier_coerce_body_eq (v : value) :
  identifier_coerce_body v = ret (if is_identifier v then v else v_nil).
Proof. destruct v; reflexivity. Qed.

(** The loop of [iterable(identifier_coerce)] over a tuple: the tuple
    comes back as it is, or the first member that is no identifier goes
    to [scope]. *)
Lemma names_loop (self : loc) (items : list value) (s : store) :
  forall rounds i,
    (i + rounds)%nat = length items ->
    iterable_loop identifier_coerce_body self rounds i (VTuple items)
      false false false s
    = match List.find (fun v => negb (is_identifier v)) (drop i items) with
      | None => (Ret (VTuple items, false, false), s)
      | Some x => (Ret (v_nil, false, false), <[self := OCustom x]> s)
      end.
Proof.
  induction rounds as [|rounds IH]; intros i Hi.
  - rewrite Nat.add_0_r in Hi. subst i. rewrite drop_all. reflexivity.
  - assert (Hlt : (i < length items)%nat) by lia.
    destruct (lookup_lt_is_Some_2 items i Hlt) as [x Hx].
    cbn [iterable_loop].
    assert (Hlen : py_len (VTuple items) s = (Ret (length items), s))
      by reflexivity.
    rewrite (bind_run _ _ _ _ _ Hlen).
    replace (i <? length items)%nat with true by (symmetry; apply Nat.ltb_lt; lia).
    assert (Hget : py_getitem (VTuple items) i s = (Ret x, s)).
    { unfold py_getitem. cbn [is_sequence items_of]. rewrite bind_ret, Hx.
      reflexivity. }
    rewrite (bind_run _ _ _ _ _ Hget), identifier_coerce_body_eq, bind_ret_l.
    rewrite bind_read, (drop_S _ _ _ Hx). cbn [List.find].
    destruct (is_identifier x) eqn:E; cbn [negb]; cbv iota.
    + rewrite t_ok_true by (intros Hn; rewrite Hn in E; simpl in E; discriminate E).
      rewrite py_is_refl. cbn [negb]. apply IH. lia.
    + rewrite t_ok_nil. reflexivity.
Qed.

(** The argument of [names_coerce] as a tuple. *)
Definition names_tuple (arg : value) : M value :=
  match arg with
  | VStr _ => ret (VTuple [arg])
  | _ => py_tuple arg
  end.


Lemma names_coerce_from_tuple (arg : value) (items : list value) s :
  names_tuple arg s = (Ret (VTuple items), s) ->
  exists scope,
    call names_coerce arg s
    = (Ret (if forallb is_identifier items then VTuple items else v_nil),
       s ++ [OCustom scope]).
Proof.
  intros Htuple.
  change (call names_coerce arg s) with (names_coerce_body arg s).
  unfold names_coerce_body. fold (names_tuple arg).
  rewrite (bind_run _ _ _ _ _ Htuple).
  unfold new_custom, alloc. unfold bind at 1.
  unfold iterable_call.
  assert (Ho : sized_coerce_body (VTuple items) (s ++ [OCustom VUnset])
               = (Ret (VTuple items), s ++ [OCustom VUnset])) by reflexivity.
  rewrite (bind_run _ _ _ _ _ Ho), bind_read, t_ok_true by discriminate.
  cbn [is_sequence is_mutable_sequence]. rewrite bind_ret_l.
  assert (Hlen : py_len (VTuple items) (s ++ [OCustom VUnset])
                 = (Ret (length items), s ++ [OCustom VUnset])) by reflexivity.
  rewrite (bind_run _ _ _ _ _ Hlen).
  unfold bind at 1.
  rewrite (names_loop (length s) items _ (length items) 0 eq_refl), drop_0.
  destruct (List.find (fun v => negb (is_identifier v)) items) as [x|] eqn:Hfind.
  - exists x. rewrite bind_read, t_ok_nil, insert_last.
    replace (forallb is_identifier items) with false; [reflexivity|].
    symmetry. apply List.find_some in Hfind as [Hin Hx].
    apply not_true_is_false. intros Hall.
    rewrite forallb_forall in Hall. rewrite (Hall _ Hin) in Hx. discriminate.
  - exists VUnset. rewrite bind_read, t_ok_true by discriminate.
    replace (forallb is_identifier items) with true; [reflexivity|].
    symmetry. apply forallb_forall. intros x Hin.
    pose proof (List.find_none _ _ Hfind x Hin) as Hx.
    destruct (is_identifier x) eqn:E; [reflexivity|]. simpl in Hx. rewrite E in Hx. discriminate Hx.
Qed.

Lemma names_coerce_run (arg : value) (items : list value) s :
  match arg with
  | VStr _ => items = [arg]
  | _ => items_of arg s = (Ret items, s)
  end ->
  exists scope,
    call names_coerce arg s
    = (Ret (if forallb is_identifier items then VTuple items else v_nil),
       s ++ [OCustom scope]).
Proof.
  intros Hitems. apply names_coerce_from_tuple.
  unfold names_tuple.
  destruct arg; try (unfold py_tuple; rewrite (bind_run _ _ _ _ _ Hitems);
                     reflexivity).
  rewrite Hitems. reflexivity.
Qed.

(** [names_coerce] on a string checks that string alone; on any
    other iterable it checks the members: it returns the tuple of the
    members when each of them is a string that [identifier_coerce]
    accepts, and [nil] otherwise.  The objects of the store stay as they
    are. *)
Theorem names_coerce_checks_each_member (arg : value) (items : list value) s :
  match arg with
  | VStr _ => items = [arg]
  | _ => items_of arg s = (Ret items, s)
  end ->
  exists scope,
    call names_coerce arg s
    = (Ret (if forallb is_identifier items then VTuple items else v_nil),
       s ++ [OCustom scope]).
Proof. apply names_coerce_run. Qed.

(** ** The function coercers and the store *)








(** ** [some.__call__] *)

(** Each of the coercers [cs] returns [nil] on [arg], one after the
    other. *)
Inductive all_fail (arg : value) : list value -> store -> store -> Prop :=
| all_fail_nil s : all_fail arg [] s s
| all_fail_cons c cs s s1 s' :
    call c arg s = (Ret v_nil, s1) ->
    all_fail arg cs s1 s' ->
    all_fail arg (c :: cs) s s'.

Lemma some_loop_all_fail (self : loc) arg pre s s1 :
  all_fail arg pre s s1 ->
  forall rest, some_loop call self (pre ++ rest) arg s
               = some_loop call self rest arg s1.
Proof.
  induction 1 as [|c cs s s1 s' Hc _ IH]; intros rest; [reflexivity|].
  simpl. rewrite (bind_run _ _ _ _ _ Hc), bind_read, t_ok_nil. apply IH.
Qed.

(** A [some] instance tries its coercers in the order given, each on the
    argument itself.  The result of the first one that does not return
    [nil] is returned and that coercer is put in [scope]; the coercers
    after it are not called.  When all of them return [nil] the call
    returns [nil] and leaves [scope] as it is. *)
Theorem some_returns_the_first_success
    (self : loc) (inner : list value) (arg : value) (s : store) :
  (forall pre c post s1 r s2,
      inner = pre ++ c :: post ->
      all_fail arg pre s s1 ->
      call c arg s1 = (Ret r, s2) ->
      r <> v_nil ->
      call (Some_ self inner) arg s = (Ret r, <[self := OCustom c]> s2)) /\
  (forall s',
      all_fail arg inner s s' ->
      call (Some_ self inner) arg s = (Ret v_nil, s')).
Proof.
  split.
  - intros pre c post s1 r s2 -> Hpre Hc Hr.
    change (some_loop call self (pre ++ c :: post) arg s
            = (Ret r, <[self := OCustom c]> s2)).
    rewrite (some_loop_all_fail _ _ _ _ _ Hpre). simpl.
    rewrite (bind_run _ _ _ _ _ Hc), bind_read, t_ok_true by exact Hr.
    reflexivity.
  - intros s' H. change (some_loop call self inner arg s = (Ret v_nil, s')).
    rewrite <- (app_nil_r inner), (some_loop_all_fail _ _ _ _ _ H).
    reflexivity.
Qed.

(** ** [istype] *)

(** [isinstance(arg, tp)] for a class [tp]. *)
Definition instance_of (arg tp : value) : bool :=
  match tp with
  | VClass id => class_instance B arg id
  | VCoercerClass => is_coercer arg
  | _ => false
  end.

Lemma isinstance_any_classes (arg : value) (types : list value) s :
  forallb is_class types = true ->
  isinstance_any arg types s = (Ret (existsb (instance_of arg) types), s).
Proof.
  induction types as [|tp types IH]; [reflexivity|]. simpl.
  intros H. apply andb_true_iff in H as [Htp Hrest].
  destruct tp; try discriminate Htp; simpl;
    match goal with
    | |- context [if ?b then _ else _] => destruct b
    end; try reflexivity; apply IH, Hrest.
Qed.

(** An [istype] instance that [istype(types)] makes holds classes only.
    Calling it never raises and leaves the store as it is: the argument
    comes back when it is an instance of one of the classes, and [nil]
    otherwise.  [istype] of an empty tuple is [void_coerce]. *)
Theorem istype_is_a_pure_check :
  (forall types s self inner s',
      istype_new types s = (Ret (IsType self inner), s') ->
      forallb is_class inner = true) /\
  (forall self inner arg s,
      forallb is_class inner = true ->
      call (IsType self inner) arg s
      = (Ret (if existsb (instance_of arg) inner then arg else v_nil), s)) /\
  (forall s, istype_new (VTuple []) s = (Ret void_coerce, s)).
Proof.
  split; [|split].
  - intros types s self inner s' H. unfold istype_new in H.
    rewrite bind_read in H.
    destruct (truthy s types); [|discriminate H].
    apply bind_eq_ret in H as (self' & s1 & _ & H).
    apply bind_eq_ret in H as (r & s2 & Hv & H).
    destruct r; try discriminate H. injection H as Hself Hinner Hs. subst.
    unfold vouch_by in Hv.
    destruct (py_is types v_nil).
    + apply bind_eq_ret in Hv as (res & s3 & Hres & _). discriminate Hres.
    + apply bind_eq_ret in Hv as (res & s3 & Hres & Hv).
      rewrite bind_read in Hv.
      destruct (t_ok s3 res); [|
        apply bind_eq_ret in Hv as (? & ? & _ & Hv); discriminate Hv].
      injection Hv as -> ->.
      unfold one_arg in Hres. rewrite bind_ret_l in Hres.
      unfold types_tuple_coerce_body in Hres.
      destruct (is_class types) eqn:Hc.
      * injection Hres as <- <-. simpl. rewrite Hc. reflexivity.
      * destruct types; try discriminate Hres.
        unfold ret in Hres.
        match type of Hres with
        | context [forallb is_class ?l] =>
            destruct (forallb is_class l) eqn:Hall
        end; [injection Hres as Hi _; rewrite <- Hi; exact Hall
             | discriminate Hres].
    - intros self inner arg s H.
      change (istype_call inner arg s
              = (Ret (if existsb (instance_of arg) inner then arg else v_nil), s)).
      unfold istype_call.
      rewrite (bind_run _ _ _ _ _ (isinstance_any_classes arg inner s H)).
      reflexivity.
    - reflexivity.
Qed.

(** ** [flatten], and what [compose] and [some] are made of *)

(** The coercers that [flatten(cls.inward)] finds in [v], in order:
    tuples and the instances of [cls] are opened, anything else is a
    member. *)
Fixpoint leaves (cls : custom_class) (v : value) : list value :=
  let all :=
    fix all (l : list value) : list value :=
      match l with
      | [] => []
      | x :: l' => leaves cls x ++ all l'
      end in
  match v with
  | VTuple items => all items
  | Compose _ inner =>
      match cls with cls_compose => all inner | cls_some => [v] end
  | Some_ _ inner =>
      match cls with cls_some => all inner | cls_compose => [v] end
  | _ => [v]
  end.

(** The depth of the nesting of [v]. *)
Fixpoint height (cls : custom_class) (v : value) : nat :=
  let most :=
    fix most (l : list value) : nat :=
      match l with
      | [] => O
      | x :: l' => Nat.max (height cls x) (most l')
      end in
  match v with
  | VTuple items => S (most items)
  | Compose _ inner =>
      match cls with cls_compose => S (most inner) | cls_some => O end
  | Some_ _ inner =>
      match cls with cls_some => S (most inner) | cls_compose => O end
  | _ => O
  end.

(** The members found in [v] are coercers all. *)
Fixpoint coercer_tree (cls : custom_class) (v : value) : bool :=
  let every :=
    fix every (l : list value) : bool :=
      match l with
      | [] => true
      | x :: l' => coercer_tree cls x && every l'
      end in
  match v with
  | VTuple items => every items
  | Compose _ inner =>
      match cls with cls_compose => every inner | cls_some => true end
  | Some_ _ inner =>
      match cls with cls_some => every inner | cls_compose => true end
  | _ => is_coercer v
  end.

(** The members of [v] when [flatten] opens it. *)
Definition opened (cls : custom_class) (v : value) : option (list value) :=
  match v, cls with
  | VTuple items, _ => Some items
  | Compose _ inner, cls_compose => Some inner
  | Some_ _ inner, cls_some => Some inner
  | _, _ => None
  end.

Lemma leaves_opened cls v items :
  opened cls v = Some items ->
  leaves cls v = concat (map (leaves cls) items) /\
  height cls v = S (list_max (map (height cls) items)) /\
  coercer_tree cls v = forallb (coercer_tree cls) items.
Proof.
  assert (Hl : forall l,
             (fix all (l : list value) : list value :=
                match l with
                | [] => []
                | x :: l' => leaves cls x ++ all l'
                end) l = concat (map (leaves cls) l)).
  { induction l as [|x l IH]; simpl; [reflexivity | rewrite IH; reflexivity]. }
  assert (Hh : forall l,
             (fix most (l : list value) : nat :=
                match l with
                | [] => O
                | x :: l' => Nat.max (height cls x) (most l')
                end) l = list_max (map (height cls) l)).
  { induction l as [|x l IH]; simpl; [reflexivity | rewrite IH; reflexivity]. }
  assert (Hc : forall l,
             (fix every (l : list value) : bool :=
                match l with
                | [] => true
                | x :: l' => coercer_tree cls x && every l'
                end) l = forallb (coercer_tree cls) l).
  { induction l as [|x l IH]; simpl; [reflexivity | rewrite IH; reflexivity]. }
  destruct v, cls; try discriminate; intros [= <-]; simpl;
    rewrite Hl, Hh, Hc; auto.
Qed.

Lemma flatten_call_opened cls d c cs rs s :
  opened cls c = Some cs ->
  Forall2 (fun c r => flatten_call d (VInward cls) VCoercerClass c s
                      = (Ret r, s)) cs rs ->
  flatten_call (S d) (VInward cls) VCoercerClass c s = (Ret (concat rs), s).
Proof.
  intros Ho H.
  assert (Hin : inward cls c s = (Ret (VTuple cs), s)).
  { destruct c, cls; try discriminate Ho; injection Ho as ->; reflexivity. }
  change (flatten_call (S d) (VInward cls) VCoercerClass c s)
    with ((aux <- inward cls c ;;
           if is_tuple_or_list aux then
             members <- items_of aux ;;
             ls <- map_m (flatten_call d (VInward cls) VCoercerClass) members ;;
             ret (concat ls)
           else
             c <- vouch VCoercerClass [aux] [] ;;
             ret [c]) s).
  rewrite (bind_run _ _ _ _ _ Hin). simpl. rewrite bind_ret_l.
  rewrite (bind_run _ _ _ _ _ (map_m_Forall2 _ _ _ _ H)). reflexivity.
Qed.

Lemma flatten_call_leaves_of cls s (v : value) :
  forall d,
    coercer_tree cls v = true ->
    (height cls v < d)%nat ->
    flatten_call d (VInward cls) VCoercerClass v s = (Ret (leaves cls v), s).
Proof.
  assert (Hleaf : forall v d,
             opened cls v = None -> is_coercer v = true -> (0 < d)%nat ->
             flatten_call d (VInward cls) VCoercerClass v s = (Ret [v], s)).
  { intros c [|d] Ho Hc Hd; [lia|].
    apply flatten_call_leaf.
    - destruct c; try reflexivity; discriminate Hc.
    - destruct c, cls; try reflexivity; discriminate Ho.
    - apply is_coercer_not_nil, Hc.
    - apply coercer_new_coercer, Hc.
    - apply is_coercer_not_nil, Hc. }
  assert (Hopen : forall v items,
             opened cls v = Some items ->
             Forall (fun x => forall d,
                         coercer_tree cls x = true -> (height cls x < d)%nat ->
                         flatten_call d (VInward cls) VCoercerClass x s
                         = (Ret (leaves cls x), s)) items ->
             forall d,
               coercer_tree cls v = true -> (height cls v < d)%nat ->
               flatten_call d (VInward cls) VCoercerClass v s
               = (Ret (leaves cls v), s)).
  { intros c items Ho IH d Hc Hd.
    destruct (leaves_opened _ _ _ Ho) as (Hl & Hh & Ht).
    rewrite Hl. rewrite Hh in Hd. rewrite Ht in Hc.
    destruct d as [|d]; [lia|].
    apply (flatten_call_opened cls d c items _ s Ho).
    clear Ho Hl Hh Ht.
    induction IH as [|x l Hx _ IHl]; [constructor|].
    simpl in Hc, Hd. apply andb_true_iff in Hc as [Hcx Hcl].
    constructor; [apply Hx; [exact Hcx | lia] | apply IHl; [exact Hcl | lia]]. }
  induction v using value_ind'; intros d Hc Hd;
    try (apply Hleaf; [reflexivity | exact Hc | lia]).
  - apply (Hopen (VTuple items) items eq_refl H d Hc Hd).
  - destruct cls.
    + apply (Hopen (Compose self inner) inner eq_refl H d Hc Hd).
    + apply Hleaf; [reflexivity | reflexivity | lia].
  - destruct cls.
    + apply Hleaf; [reflexivity | reflexivity | lia].
    + apply (Hopen (Some_ self inner) inner eq_refl H d Hc Hd).
Qed.

(** [flatten(cls.inward)], the way [compose] and [some] use it, returns
    the coercers found in its argument in order, however the tuples and
    the instances of [cls] nest, as long as the nesting is less deep
    than the recursion limit; and it leaves the store as it is. *)
Theorem flatten_returns_the_leaves (cls : custom_class) (v : value) s :
  coercer_tree cls v = true ->
  (height cls v < recursion_limit)%nat ->
  flatten_call recursion_limit (VInward cls) VCoercerClass v s
  = (Ret (leaves cls v), s).
Proof. apply flatten_call_leaves_of. Qed.

Lemma leaves_not_opened cls (v : value) :
  Forall (fun x => opened cls x = None) (leaves cls v).
Proof.
  assert (Hopen : forall v items,
             opened cls v = Some items ->
             Forall (fun x => Forall (fun y => opened cls y = None)
                                (leaves cls x)) items ->
             Forall (fun y => opened cls y = None) (leaves cls v)).
  { intros c items Ho IH. rewrite (proj1 (leaves_opened _ _ _ Ho)).
    clear Ho. induction IH as [|x l Hx _ IHl]; simpl; [constructor|].
    apply Forall_app. auto. }
  induction v using value_ind';
    try (constructor; [reflexivity | constructor]).
  - exact (Hopen (VTuple items) items eq_refl H).
  - destruct cls; [exact (Hopen (Compose self inner) inner eq_refl H)|].
    constructor; [reflexivity | constructor].
  - destruct cls; [|exact (Hopen (Some_ self inner) inner eq_refl H)].
    constructor; [reflexivity | constructor].
Qed.

(** What [compose.__new__] and [some.__new__] return for the coercers
    [flat] that are left of the arguments: none gives the neutral
    coercer, one gives that coercer itself, more give a new instance. *)
Definition combined (make : loc -> list value -> value) (neutral : value)
    (flat : list value) (s : store) : result value * store :=
  match flat with
  | [] => (Ret neutral, s ++ [OCustom VUnset])
  | [c] => (Ret c, s ++ [OCustom VUnset])
  | _ :: _ :: _ =>
      (Ret (make (S (length s)) flat), s ++ [OCustom VUnset; OCustom VUnset])
  end.

Lemma new_instance_store (s : store) :
  <[length (s ++ [OCustom VUnset]) := OCustom VUnset]>
    ((s ++ [OCustom VUnset]) ++ [OCustom VUnset])
  = s ++ [OCustom VUnset; OCustom VUnset].
Proof. rewrite insert_last, <- app_assoc. reflexivity. Qed.

Lemma compose_new_of_leaves (cs : list value) (options : kwargs) s :
  coercer_tree cls_compose (VTuple cs) = true ->
  (height cls_compose (VTuple cs) < recursion_limit)%nat ->
  let flat := List.filter (fun c => negb (py_is c identity_coerce))
                (leaves cls_compose (VTuple cs)) in
  compose_new cs options s
  = match flat with
    | [] => (obj <- compose_of [] options ;;
             init_custom cls_compose obj ;;; ret obj) (s ++ [OCustom VUnset])
    | _ => combined Compose identity_coerce flat s
    end.
Proof.
  intros Hc Hh flat.
  rewrite (compose_new_run cs options (leaves cls_compose (VTuple cs)) s)
    by (apply flatten_call_leaves_of; assumption).
  fold flat.
  assert (Hflat : Forall (fun x => opened cls_compose x = None) flat).
  { unfold flat. apply List.Forall_forall. intros x Hx.
    apply List.filter_In in Hx as [Hx _].
    pose proof (leaves_not_opened cls_compose (VTuple cs)) as Hl.
    rewrite List.Forall_forall in Hl. exact (Hl x Hx). }
  destruct flat as [|c [|c' flat']]; [reflexivity| |].
  - inversion Hflat as [|? ? Hopen _]; subst.
    unfold combined, compose_of, bind, ret.
    destruct c; try discriminate Hopen; reflexivity.
  - unfold combined, compose_of, bind, new_custom, alloc, ret, init_custom,
      set_scope.
    rewrite new_instance_store, length_app. simpl. rewrite Nat.add_1_r.
    reflexivity.
Qed.

(** [compose(...)] depends on its arguments through the coercers found
    in them only, in their order and the identity left out: none gives
    [identity_coerce], one gives that coercer itself, two or more give an
    instance that holds them.  So [compose] is associative, tuples of
    coercers count as their members, and [identity_coerce] is neutral.
    The options are looked at only when no coercer is left. *)
Theorem compose_is_made_of_the_leaves (cs : list value) s :
  coercer_tree cls_compose (VTuple cs) = true ->
  (height cls_compose (VTuple cs) < recursion_limit)%nat ->
  let flat := List.filter (fun c => negb (py_is c identity_coerce))
                (leaves cls_compose (VTuple cs)) in
  compose_new cs [] s = combined Compose identity_coerce flat s /\
  (flat <> [] -> forall options, compose_new cs options s = compose_new cs [] s) /\
  (forall cs',
      coercer_tree cls_compose (VTuple cs') = true ->
      (height cls_compose (VTuple cs') < recursion_limit)%nat ->
      List.filter (fun c => negb (py_is c identity_coerce))
        (leaves cls_compose (VTuple cs')) = flat ->
      compose_new cs' [] s = compose_new cs [] s).
Proof.
  intros Hc Hh flat.
  assert (Hnew : compose_new cs [] s = combined Compose identity_coerce flat s).
  { rewrite (compose_new_of_leaves cs [] s Hc Hh). fold flat.
    destruct flat; reflexivity. }
  split; [exact Hnew|]. split.
  - intros Hne options. rewrite !(compose_new_of_leaves cs _ s Hc Hh).
    fold flat. destruct flat; [contradiction|reflexivity].
  - intros cs' Hc' Hh' Hsame. rewrite Hnew.
    rewrite (compose_new_of_leaves cs' [] s Hc' Hh'), Hsame.
    destruct flat; reflexivity.
Qed.

(** With no coercer left, [compose] returns its option [default], which
    is [identity_coerce] when it is not given, and raises [TypeError] for
    any other option. *)
Theorem compose_default_and_unexpected_options (cs : list value) s :
  coercer_tree cls_compose (VTuple cs) = true ->
  (height cls_compose (VTuple cs) < recursion_limit)%nat ->
  List.filter (fun c => negb (py_is c identity_coerce))
    (leaves cls_compose (VTuple cs)) = [] ->
  (forall dflt,
      is_compose dflt = false ->
      compose_new cs [("default", dflt)] s = (Ret dflt, s ++ [OCustom VUnset])) /\
  (forall options key v rest,
      snd (kw_pop "default" identity_coerce options) = (key, v) :: rest ->
      exists msg s',
        compose_new cs options s = (Raise (TypeError msg), s')).
Proof.
  intros Hc Hh Hflat. split.
  - intros dflt Hd. rewrite (compose_new_of_leaves cs _ s Hc Hh), Hflat.
    unfold compose_of, kw_pop, bind, ret. simpl.
    destruct dflt; try discriminate Hd; reflexivity.
  - intros options key v rest Hpop.
    rewrite (compose_new_of_leaves cs _ s Hc Hh), Hflat.
    unfold compose_of.
    destruct (kw_pop "default" identity_coerce options) as [res left].
    simpl in Hpop. subst left.
    unfold bind, alloc. eexists. eexists. reflexivity.
Qed.

Lemma some_new_of_leaves (cs : list value) s :
  coercer_tree cls_some (VTuple cs) = true ->
  (height cls_some (VTuple cs) < recursion_limit)%nat ->
  some_new cs s
  = combined Some_ void_coerce
      (List.filter (fun c => negb (py_is c void_coerce))
         (leaves cls_some (VTuple cs))) s.
Proof.
  intros Hc Hh.
  rewrite (some_new_run cs (leaves cls_some (VTuple cs)) s)
    by (apply flatten_call_leaves_of; assumption).
  set (flat := List.filter (fun c => negb (py_is c void_coerce))
                 (leaves cls_some (VTuple cs))).
  assert (Hflat : Forall (fun x => opened cls_some x = None) flat).
  { unfold flat. apply List.Forall_forall. intros x Hx.
    apply List.filter_In in Hx as [Hx _].
    pose proof (leaves_not_opened cls_some (VTuple cs)) as Hl.
    rewrite List.Forall_forall in Hl. exact (Hl x Hx). }
  destruct flat as [|c [|c' flat']]; [reflexivity| |].
  - inversion Hflat as [|? ? Hopen _]; subst.
    unfold combined, some_of, bind, ret.
    destruct c; try discriminate Hopen; reflexivity.
  - unfold combined, some_of, bind, new_custom, alloc, ret, init_custom,
      set_scope.
    rewrite new_instance_store, length_app. simpl. rewrite Nat.add_1_r.
    reflexivity.
Qed.

(** [some(...)] depends on its arguments through the coercers found in
    them only, in their order and [void_coerce] left out: none gives
    [void_coerce], one gives that coercer itself, two or more give an
    instance that holds them.  So [some] is associative and
    [void_coerce] is neutral. *)
Theorem some_is_made_of_the_leaves (cs : list value) s :
  coercer_tree cls_some (VTuple cs) = true ->
  (height cls_some (VTuple cs) < recursion_limit)%nat ->
  let flat := List.filter (fun c => negb (py_is c void_coerce))
                (leaves cls_some (VTuple cs)) in
  some_new cs s = combined Some_ void_coerce flat s /\
  (forall cs',
      coercer_tree cls_some (VTuple cs') = true ->
      (height cls_some (VTuple cs') < recursion_limit)%nat ->
      List.filter (fun c => negb (py_is c void_coerce))
        (leaves cls_some (VTuple cs')) = flat ->
      some_new cs' s = some_new cs s).
Proof.
  intros Hc Hh flat. split; [apply some_new_of_leaves; assumption|].
  intros cs' Hc' Hh' Hsame.
  rewrite (some_new_of_leaves cs s Hc Hh), (some_new_of_leaves cs' s Hc' Hh').
  rewrite Hsame. reflexivity.
Qed.

(** ** Names *)

Lemma substring_skip (x y : string) (n : nat) :
  substring (String.length x) n (x ++ y) = substring 0 n y.
Proof. induction x as [|c x IH]; [reflexivity | exact IH]. Qed.

Lemma substring_whole (x : string) : substring 0 (String.length x) x = x.
Proof. induction x as [|c x IH]; [reflexivity|]. simpl. rewrite IH. reflexivity. Qed.

Lemma substring_take (x y : string) :
  substring 0 (String.length x) (x ++ y) = x.
Proof.
  induction x as [|c x IH]; simpl; [destruct y; reflexivity|].
  rewrite IH. reflexivity.
Qed.

Lemma string_length_app (x y : string) :
  String.length (x ++ y) = (String.length x + String.length y)%nat.
Proof. induction x as [|c x IH]; simpl; [reflexivity | rewrite IH; reflexivity]. Qed.

Lemma string_app_assoc (x y z : string) : ((x ++ y) ++ z = x ++ y ++ z)%string.
Proof. induction x as [|c x IH]; simpl; [reflexivity | rewrite IH; reflexivity]. Qed.

(** [res[:-len(suffix)]] gives back what the suffix was put after. *)
Lemma strip_suffix_app (suffix x : string) :
  strip_suffix suffix (x ++ suffix) = x.
Proof.
  unfold strip_suffix, ends_with. rewrite string_length_app.
  replace (String.length x + String.length suffix - String.length suffix)%nat
    with (String.length x) by lia.
  rewrite substring_skip, substring_whole, String.eqb_refl.
  replace (String.length suffix <=? String.length x + String.length suffix)%nat
    with true by (symmetry; apply Nat.leb_le; lia).
  simpl. apply substring_take.
Qed.

(** The name of the function [f] without its suffix. *)
Definition short_name (f : funcname) : string :=
  strip_suffix "_coerce" (funcname_str f).

(** [coercer_name(c)] is [n], within the depth [d]. *)
Definition named (d : nat) (c : value) (n : string) : Prop :=
  forall s, coercer_name d c VNone s = (Ret (VStr n), s).

Lemma strs_of_strings (ns : list string) s :
  strs_of (map VStr ns) s = (Ret ns, s).
Proof.
  induction ns as [|n ns IH]; [reflexivity|]. simpl.
  rewrite (bind_run _ _ _ _ _ IH). reflexivity.
Qed.

Lemma coercer_name_tuple (d : nat) (cs : list value) (ns : list string)
    (join : value) s :
  Forall2 (named d) cs ns ->
  coercer_name (S d) (VTuple cs) join s
  = match join with
    | VStr sep => (Ret (VStr (join_str sep ns)), s)
    | VFunction id _ =>
        (joined <- (fun s => (fun_body B id s [VTuple (map VStr ns)] [], s)) ;;
         fun s => (Ret (VStr (py_format s joined)), s)) s
    | _ => if truthy s join
           then (Raise (TypeError "object is not callable"), s)
           else (Ret (VTuple (map VStr ns)), s)
    end.
Proof.
  intros H.
  assert (Hnames : map_m (fun c => coercer_name d c VNone) cs s
                   = (Ret (map VStr ns), s)).
  { apply map_m_Forall2. induction H as [|c n cs ns Hc _ IH]; simpl;
      constructor; [apply Hc | exact IH]. }
  cbn [coercer_name is_tuple_list_set items_of]. rewrite bind_ret.
  rewrite (bind_run _ _ _ _ _ Hnames). cbn [build].
  rewrite (bind_run (ret (VTuple (map VStr ns))) _ s _ s eq_refl).
  destruct join;
    try (rewrite bind_read;
         match goal with
         | |- context [truthy s ?j] => destruct (truthy s j)
         end; reflexivity).
  - cbn [items_of]. rewrite bind_ret_l.
    rewrite (bind_run _ _ _ _ _ (strs_of_strings ns s)). reflexivity.
  - reflexivity.
Qed.

Lemma coercer_name_custom (d : nat) (v : value) s :
  is_custom v = true ->
  coercer_name (S d) v VNone s
  = (name <- coercer_name d (custom_inner v) (VStr (custom_str_join v)) ;;
     fun s => (Ret (VStr (strip_suffix "_coerce"
                            (py_format s name ++ "_" ++ custom_cls_name v
                               ++ "_coerce"))), s)) s.
Proof.
  intros Hv.
  destruct v; try discriminate Hv;
    cbn [coercer_name is_tuple_list_set is_custom]; unfold bind, ret;
    match goal with
    | |- context [coercer_name d ?a ?j s] =>
        destruct (coercer_name d a j s) as [[r|e] s1]
    end; reflexivity.
Qed.

(** What [coercer_name] makes of the coercers of the module.  A function
    coercer is named as the function, without the suffix [_coerce]: the
    name of [int_coerce] is [int].  A tuple of coercers gives the tuple of
    their names, or, with a string to join them, the names joined by it.
    An instance of a [custom] class over a tuple of coercers is named by
    their names, joined by [_] ([:] for a [mapping]), then [_] and the
    name of the class: [int_float_compose]. *)
Theorem coercer_name_of_coercers (d : nat) :
  (forall f,
      named (S d) (VCoerce f) (short_name f) /\
      funcname_str f = (short_name f ++ "_coerce")%string) /\
  (forall cs ns s,
      Forall2 (named d) cs ns ->
      coercer_name (S d) (VTuple cs) VNone s = (Ret (VTuple (map VStr ns)), s) /\
      forall sep,
        coercer_name (S d) (VTuple cs) (VStr sep) s
        = (Ret (VStr (join_str sep ns)), s)) /\
  (forall v cs ns,
      is_custom v = true ->
      custom_inner v = VTuple cs ->
      Forall2 (named d) cs ns ->
      named (S (S d)) v
        (join_str (custom_str_join v) ns ++ "_" ++ custom_cls_name v)) /\
  (forall self c n,
      is_tuple_list_set c = false ->
      (forall join s, coercer_name (S d) c join s = (Ret (VStr n), s)) ->
      named (S (S d)) (Pargs self c) (n ++ "_pargs")).
Proof.
  split; [|split; [|split]].
  - intros f. split; [intros s; reflexivity | destruct f; reflexivity].
  - intros cs ns s H. split; [|intros sep];
      rewrite (coercer_name_tuple d cs ns _ s H); reflexivity.
  - intros v cs ns Hv Hinner H s.
    assert (Hname : coercer_name (S d) (custom_inner v)
                      (VStr (custom_str_join v)) s
                    = (Ret (VStr (join_str (custom_str_join v) ns)), s)).
    { rewrite Hinner.
      exact (coercer_name_tuple d cs ns (VStr (custom_str_join v)) s H). }
    rewrite (coercer_name_custom (S d) v s Hv), (bind_run _ _ _ _ _ Hname).
    cbn [py_format].
    replace (join_str (custom_str_join v) ns ++ "_" ++ custom_cls_name v
               ++ "_coerce")%string
      with ((join_str (custom_str_join v) ns ++ "_" ++ custom_cls_name v)
              ++ "_coerce")%string
      by (rewrite !string_app_assoc; reflexivity).
    rewrite strip_suffix_app. reflexivity.
  - intros self c n Hc Hn s.
    rewrite (coercer_name_custom (S d) (Pargs self c) s eq_refl).
    cbn [custom_inner custom_str_join custom_cls_name].
    rewrite (bind_run _ _ _ _ _ (Hn _ s)). cbn [py_format].
    replace (n ++ "_" ++ "pargs" ++ "_coerce")%string
      with ((n ++ "_pargs") ++ "_coerce")%string
      by (rewrite !string_app_assoc; reflexivity).
    rewrite strip_suffix_app. reflexivity.
Qed.

(** ** [create_int_range_coerce]

    The coercer that [create_int_range_coerce] returns is a closure over
    [min] and [max]; it is embedded as the function from its argument to
    its computation.  The values compared are results of [int_coerce],
    integers all. *)

(** [a <= b] and [a < b] of two integers. *)
Definition int_le (a b : value) : M bool :=
  match int_value a, int_value b with
  | Some x, Some y => ret (x <=? y)
  | _, _ => raise (TypeError "'<=' not supported")
  end.

Definition int_lt (a b : value) : M bool :=
  match int_value a, int_value b with
  | Some x, Some y => ret (x <? y)
  | _, _ => raise (TypeError "'<' not supported")
  end.

(** The closure [inner] of [create_int_range_coerce]. *)
Definition int_range_inner (min max : value) (arg : value) : M value :=
  arg <- call int_coerce arg ;;
  ok <- read (fun s => t_ok s arg) ;;
  if ok then
    above <- int_le min arg ;;
    if above then
      below <- int_le arg max ;;
      ret (if below then arg else v_nil)
    else ret v_nil
  else ret v_nil.

Definition create_int_range_coerce (min max : value) : M (value -> M value) :=
  min <- vouch int_coerce [min] [] ;;
  max <- vouch int_coerce [max] [] ;;
  less <- int_lt min max ;;
  if less then ret (int_range_inner min max)
  else
    fun s =>
      (Raise (ValueError
                (quote ++ py_format s min ++ quote
                   ++ " must be less than or equal "
                   ++ quote ++ py_format s max ++ quote)%string),
       s).

Lemma vouch_int_coerce (x a : value) s :
  call int_coerce x s = (Ret a, s) -> a <> v_nil ->
  vouch int_coerce [x] [] s = (Ret a, s).
Proof.
  intros Hx Ha.
  assert (Hn : py_is x v_nil = false).
  { destruct (py_is x v_nil) eqn:E; [|reflexivity].
    apply py_is_eq in E. subst x. injection Hx as <-. contradiction Ha.
    reflexivity. }
  unfold vouch, vouch_rec, vouch_by. rewrite Hn.
  unfold apply_rec, one_arg. cbn [param_name]. rewrite bind_ret_l.
  rewrite (bind_run _ _ _ _ _ Hx), bind_read, t_ok_true by exact Ha.
  reflexivity.
Qed.

(** The range of [create_int_range_coerce(min, max)] is closed: the
    coercer returns what [int_coerce] returns when that is an integer
    from [min] to [max], both included, and [nil] otherwise.  The bounds
    have to differ: [create_int_range_coerce] raises [ValueError] unless
    [min < max], for equal bounds too. *)
Theorem int_range_is_closed_and_not_empty
    (min max a b : value) (lo hi : Z) (s : store) :
  call int_coerce min s = (Ret a, s) -> a <> v_nil -> int_value a = Some lo ->
  call int_coerce max s = (Ret b, s) -> b <> v_nil -> int_value b = Some hi ->
  (hi <= lo ->
   exists msg,
     create_int_range_coerce min max s = (Raise (ValueError msg), s)) /\
  (lo < hi ->
   exists inner,
     create_int_range_coerce min max s = (Ret inner, s) /\
     (forall arg t v t' z,
         call int_coerce arg t = (Ret v, t') ->
         v <> v_nil -> int_value v = Some z ->
         inner arg t
         = (Ret (if (lo <=? z) && (z <=? hi) then v else v_nil), t')) /\
     (forall arg t t',
         call int_coerce arg t = (Ret v_nil, t') ->
         inner arg t = (Ret v_nil, t')) /\
     (forall t, inner a t = (Ret a, t) /\ inner b t = (Ret b, t))).
Proof.
  intros Hmin Ha Hlo Hmax Hb Hhi.
  assert (Hnew : create_int_range_coerce min max s
                 = if lo <? hi then (Ret (int_range_inner a b), s)
                   else (Raise (ValueError
                                  (quote ++ py_format s a ++ quote
                                     ++ " must be less than or equal "
                                     ++ quote ++ py_format s b ++ quote)%string),
                         s)).
  { unfold create_int_range_coerce.
    rewrite (bind_run _ _ _ _ _ (vouch_int_coerce _ _ _ Hmin Ha)).
    rewrite (bind_run _ _ _ _ _ (vouch_int_coerce _ _ _ Hmax Hb)).
    unfold int_lt. rewrite Hlo, Hhi, bind_ret_l.
    destruct (lo <? hi); reflexivity. }
  assert (Hin : forall arg t v t' z,
             call int_coerce arg t = (Ret v, t') ->
             v <> v_nil -> int_value v = Some z ->
             int_range_inner a b arg t
             = (Ret (if (lo <=? z) && (z <=? hi) then v else v_nil), t')).
  { intros arg t v t' z Hv Hn Hz. unfold int_range_inner.
    rewrite (bind_run _ _ _ _ _ Hv), bind_read, t_ok_true by exact Hn.
    unfold int_le. rewrite Hlo, Hhi, Hz, bind_ret_l.
    destruct (lo <=? z); [rewrite bind_ret_l|]; reflexivity. }
  split.
  - intros Hle. rewrite Hnew.
    replace (lo <? hi) with false by (symmetry; apply Z.ltb_ge; lia).
    eexists. reflexivity.
  - intros Hlt. rewrite Hnew.
    replace (lo <? hi) with true by (symmetry; apply Z.ltb_lt; lia).
    exists (int_range_inner a b). split; [reflexivity|].
    split; [exact Hin|]. split.
    + intros arg t t' Hv. unfold int_range_inner.
      rewrite (bind_run _ _ _ _ _ Hv), bind_read, t_ok_nil. reflexivity.
    + intros t. split.
      * rewrite (Hin a t a t lo (int_coerce_of_int _ _ _ Hlo) Ha Hlo).
        replace (lo <=? lo) with true by (symmetry; apply Z.leb_le; lia).
        replace (lo <=? hi) with true by (symmetry; apply Z.leb_le; lia).
        reflexivity.
      * rewrite (Hin b t b t hi (int_coerce_of_int _ _ _ Hhi) Hb Hhi).
        replace (lo <=? hi) with true by (symmetry; apply Z.leb_le; lia).
        replace (hi <=? hi) with true by (symmetry; apply Z.leb_le; lia).
        reflexivity.
Qed.

(** ** [typecast]

    A [typecast] instance is given by its location, for the field
    [scope], and by the classes of its field [inner].  The loop of
    [typecast.__call__] goes on as long as the class called returns
    [nil]: it is embedded with a number of rounds to run, and [None] is
    the outcome of a call that has not returned within them. *)

(** [except Exception] does not catch the exceptions that derive from
    [BaseException] only. *)
Definition is_Exception (e : exn) : bool :=
  negb (existsb (String.eqb (exn_class e))
          ["BaseException"; "KeyboardInterrupt"; "SystemExit";
           "GeneratorExit"]).

(** [typecast(types)]: [istype.__new__] for the class [typecast];
    [None] stands for [void_coerce]. *)
Definition typecast_new (types : value) : M (option (loc * list value)) :=
  nonempty <- read (fun s => truthy s types) ;;
  if nonempty then
    self <- new_custom ;;
    inner <- vouch types_tuple_coerce [types] [] ;;
    match inner with
    | VTuple tps => ret (Some (self, tps))
    | _ => raise (TypeError "isinstance() arg 2 must be a type")
    end
  else ret None.

(** The loop of [typecast.__call__], at [i] with [res]. *)
Fixpoint typecast_loop (rounds : nat) (self : loc) (inner : list value)
    (arg : value) (i : nat) (res : value) : M (option value) :=
  match rounds with
  | O => ret None
  | S rounds' =>
      ok <- read (fun s => t_ok s res) ;;
      if negb ok then
        match inner !! i with
        | Some tp =>
            fun s =>
              match call tp arg s with
              | (Ret r, s1) =>
                  (set_scope self tp ;;;
                   typecast_loop rounds' self inner arg i r) s1
              | (Raise e, s1) =>
                  if is_Exception e
                  then typecast_loop rounds' self inner arg (S i) res s1
                  else (Raise e, s1)
              end
        | None => ret (Some res)
        end
      else ret (Some res)
  end.

(** [typecast.__call__]. *)
Definition typecast_call (rounds : nat) (self : loc) (inner : list value)
    (arg : value) : M (option value) :=
  res <- istype_call inner arg ;;
  typecast_loop rounds self inner arg 0 res.

(** Calling the class [tp] with [arg] raises an exception that
    [except Exception] catches, and leaves the store as it is. *)
Definition refuses (arg tp : value) : Prop :=
  forall s, exists e, call tp arg s = (Raise e, s) /\ is_Exception e = true.

Lemma typecast_loop_refused (self : loc) (arg : value)
    (pre rest : list value) :
  Forall (refuses arg) pre ->
  forall done rounds s,
    typecast_loop (length pre + rounds) self (done ++ pre ++ rest) arg
      (length done) v_nil s
    = typecast_loop rounds self (done ++ pre ++ rest) arg
        (length done + length pre) v_nil s.
Proof.
  induction 1 as [|tp pre Htp _ IH]; intros done rounds s.
  - simpl. rewrite Nat.add_0_r. reflexivity.
  - cbn [length Nat.add typecast_loop]. rewrite bind_read, t_ok_nil.
    cbn [negb].
    assert (Hat : (done ++ (tp :: pre) ++ rest) !! length done = Some tp).
    { rewrite lookup_app_r by lia. rewrite Nat.sub_diag. reflexivity. }
    rewrite Hat. destruct (Htp s) as (e & -> & ->).
    specialize (IH (done ++ [tp]) rounds s).
    rewrite <- !app_assoc, length_app in IH. simpl in IH.
    rewrite Nat.add_1_r in IH.
    change ((tp :: pre) ++ rest) with (tp :: pre ++ rest).
    rewrite IH. f_equal. lia.
Qed.

Lemma typecast_new_classes (types : value) s self inner s' :
  typecast_new types s = (Ret (Some (self, inner)), s') ->
  forallb is_class inner = true.
Proof.
  unfold typecast_new. rewrite bind_read.
  destruct (truthy s types); [|discriminate].
  intros H. apply bind_eq_ret in H as (self' & s1 & _ & H).
  apply bind_eq_ret in H as (r & s2 & Hv & H).
  destruct r; try discriminate H. injection H as _ Hinner _. subst.
  assert (Hargs : [types] <> [] \/ ([] : kwargs) <> []) by (left; discriminate).
  rewrite (vouch_with_arguments types_tuple_coerce [types] [] s1 Hargs) in Hv.
  apply bind_eq_ret in Hv as (res & s3 & Happly & Hv). rewrite bind_read in Hv.
  destruct (t_ok s3 res);
    [injection Hv as -> -> |
     apply bind_eq_ret in Hv as (? & ? & _ & Hv); discriminate Hv].
  unfold apply, apply_rec, passed_args in Happly.
  destruct (py_is types v_nil); [discriminate Happly|].
  unfold one_arg in Happly. cbn [param_name] in Happly.
  rewrite bind_ret_l in Happly.
  change (types_tuple_coerce_body types s1 = (Ret (VTuple inner), s2))
    in Happly.
  unfold types_tuple_coerce_body in Happly.
  destruct (is_class types) eqn:Hc.
  - injection Happly as <- _. simpl. rewrite Hc. reflexivity.
  - destruct types; try discriminate Happly. unfold ret in Happly.
    match type of Happly with
    | context [forallb is_class ?l] => destruct (forallb is_class l) eqn:Hall
    end; [injection Happly as <- _; exact Hall | discriminate Happly].
Qed.

(** [typecast] returns an argument that is an instance of one of its
    classes as it is, without calling any class.  Otherwise it calls the
    classes with the argument, in order: the classes that raise are
    passed over, the result of the first one that returns a value other
    than [nil] is returned, and that class is put in [scope]; when every
    class raises the result is [nil].  A class that returns [nil] for the
    argument is called again and again: the call never returns.  The
    classes of an instance that [typecast(types)] makes are classes
    indeed. *)
Theorem typecast_tries_its_classes_in_order
    (self : loc) (inner : list value) (arg : value) (s : store) :
  forallb is_class inner = true ->
  (forall types s0 self' inner' s1,
      typecast_new types s0 = (Ret (Some (self', inner')), s1) ->
      forallb is_class inner' = true) /\
  (arg <> v_nil -> existsb (instance_of arg) inner = true ->
   forall rounds,
     typecast_call (S rounds) self inner arg s = (Ret (Some arg), s)) /\
  (existsb (instance_of arg) inner = false ->
   (forall pre tp post r s1 rounds,
       inner = pre ++ tp :: post ->
       Forall (refuses arg) pre ->
       call tp arg s = (Ret r, s1) -> r <> v_nil ->
       typecast_call (length pre + S (S rounds)) self inner arg s
       = (Ret (Some r), <[self := OCustom tp]> s1)) /\
   (Forall (refuses arg) inner ->
    forall rounds,
      typecast_call (length inner + S rounds) self inner arg s
      = (Ret (Some v_nil), s)) /\
   (forall pre tp post,
       inner = pre ++ tp :: post ->
       Forall (refuses arg) pre ->
       (forall s', call tp arg s' = (Ret v_nil, s')) ->
       forall rounds,
         fst (typecast_call rounds self inner arg s) = Ret None)).
Proof.
  intros Hcls.
  assert (Hstart : forall rounds,
             typecast_call rounds self inner arg s
             = typecast_loop rounds self inner arg 0
                 (if existsb (instance_of arg) inner then arg else v_nil) s).
  { intros rounds.
    assert (Hist : istype_call inner arg s
                   = (Ret (if existsb (instance_of arg) inner
                           then arg else v_nil), s)).
    { unfold istype_call.
      rewrite (bind_run _ _ _ _ _ (isinstance_any_classes arg inner s Hcls)).
      reflexivity. }
    unfold typecast_call. rewrite (bind_run _ _ _ _ _ Hist). reflexivity. }
  split; [exact typecast_new_classes|]. split.
  - intros Harg Hinst rounds. rewrite Hstart, Hinst.
    cbn [typecast_loop]. rewrite bind_read, t_ok_true by exact Harg.
    reflexivity.
  - intros Hinst. split; [|split].
    + intros pre tp post r s1 rounds -> Hpre Htp Hr.
      rewrite Hstart, Hinst.
      rewrite (typecast_loop_refused self arg pre (tp :: post) Hpre [] _ s).
      cbn [length Nat.add app typecast_loop].
      rewrite bind_read, t_ok_nil. cbn [negb].
      assert (Hat : (pre ++ tp :: post) !! length pre = Some tp).
      { rewrite lookup_app_r by lia. rewrite Nat.sub_diag. reflexivity. }
      rewrite Hat, Htp. unfold bind at 1, set_scope at 1.
      rewrite bind_read, t_ok_true by exact Hr. reflexivity.
    + intros Hall rounds. rewrite Hstart, Hinst.
      pose proof (typecast_loop_refused self arg inner [] Hall [] (S rounds) s)
        as Hskip.
      rewrite app_nil_r in Hskip. cbn [app length Nat.add] in Hskip.
      rewrite Hskip. cbn [typecast_loop].
      rewrite bind_read, t_ok_nil. cbn [negb].
      rewrite (lookup_ge_None_2 inner (length inner)) by lia. reflexivity.
    + intros pre tp post -> Hpre Htp rounds. rewrite Hstart, Hinst.
      assert (Hnever : forall rounds done todo s',
                 pre = done ++ todo ->
                 fst (typecast_loop rounds self (pre ++ tp :: post) arg
                        (length done) v_nil s') = Ret None).
      { clear rounds Hstart Hinst Hcls.
        induction rounds as [|rounds IH]; intros done todo s' Hsplit;
          [reflexivity|].
        cbn [typecast_loop]. rewrite bind_read, t_ok_nil. cbn [negb].
        destruct todo as [|c todo].
        - rewrite app_nil_r in Hsplit. subst done.
          assert (Hat : (pre ++ tp :: post) !! length pre = Some tp).
          { rewrite lookup_app_r by lia. rewrite Nat.sub_diag. reflexivity. }
          rewrite Hat, Htp. unfold bind at 1, set_scope at 1.
          apply (IH pre [] _ (eq_sym (app_nil_r pre))).
        - assert (Hat : (pre ++ tp :: post) !! length done = Some c).
          { subst pre. rewrite <- app_assoc.
            rewrite lookup_app_r by lia. rewrite Nat.sub_diag. reflexivity. }
          assert (Hc : refuses arg c).
          { rewrite Forall_forall in Hpre. apply Hpre. subst pre.
            apply elem_of_app. right. left. }
          rewrite Hat. destruct (Hc s') as (e & -> & ->).
          specialize (IH (done ++ [c]) todo s').
          rewrite length_app in IH. simpl in IH. rewrite Nat.add_1_r in IH.
          apply IH. subst pre. rewrite <- app_assoc. reflexivity. }
      exact (Hnever rounds [] pre s eq_refl).
Qed.

(** ** The constructors of [combo], [iterable] and [mapping] *)

Lemma combo_new_from (cs given : list value) s :
  Forall (fun c => is_coercer c = true) cs ->
  pargs_call call (length (s ++ [OCustom VUnset])) VCoercerClass
    (VTuple given) (s ++ [OCustom VUnset; OCustom VUnset])
  = (Ret (VTuple cs), s ++ [OCustom VUnset; OCustom VUnset]) ->
  combo_new given s
  = (Ret (Combo (length s) cs), s ++ [OCustom VUnset; OCustom VUnset]).
Proof.
  intros Hcs Hp. unfold combo_new, new_custom.
  unfold bind at 1. unfold alloc at 1.
  rewrite (bind_run _ _ _ _ _ (pargs_new_coercer VCoercerClass _ eq_refl)).
  change (call (Pargs (length (s ++ [OCustom VUnset])) VCoercerClass)
            (VTuple given))
    with (pargs_call call (length (s ++ [OCustom VUnset])) VCoercerClass
            (VTuple given)).
  rewrite <- app_assoc. cbn [app].
  rewrite (bind_run _ _ _ _ _ Hp).
  cbn [items_of]. rewrite bind_ret_l.
  erewrite bind_run.
  2:{ apply map_m_Forall2 with (rs := cs). clear Hp.
      induction Hcs as [|c cs Hc _ IH]; [constructor|].
      constructor; [apply vouch_coercer, Hc | exact IH]. }
  reflexivity.
Qed.

Lemma coercers_go_through (cs : list value) :
  Forall (fun c => is_coercer c = true) cs ->
  Forall2 (fun item new => forall s,
               call VCoercerClass item s = (Ret new, s) /\ new <> v_nil) cs cs.
Proof.
  induction 1 as [|c cs Hc _ IH]; constructor; [|exact IH].
  intros s0. split; [apply coercer_new_coercer, Hc|].
  apply is_coercer_not_nil, Hc.
Qed.

(** [combo] takes its coercers as arguments, or as one tuple of them:
    [combo((f, g))] is [combo(f, g)]; a single coercer makes a [combo] of
    one. *)
Theorem combo_takes_coercers_or_a_tuple_of_them (cs : list value) s :
  Forall (fun c => is_coercer c = true) cs ->
  let made := (Ret (Combo (length s) cs),
               s ++ [OCustom VUnset; OCustom VUnset]) in
  combo_new cs s = made /\
  (forallb is_class cs = false -> combo_new [VTuple cs] s = made).
Proof.
  intros Hcs made.
  pose proof (coercers_go_through cs Hcs) as Hall.
  split.
  - apply (combo_new_from cs cs s Hcs).
    destruct cs as [|c [|c' cs']].
    + reflexivity.
    + inversion Hcs as [|? ? Hc _]; subst.
      unfold pargs_call. cbn [is_iterable items_of]. rewrite bind_ret_l.
      unfold bind at 1. unfold bind at 1.
      change (call VCoercerClass c) with (coercer_new c).
      rewrite (coercer_new_coercer c _ Hc), bind_read, t_ok_true
        by (apply is_coercer_not_nil, Hc).
      reflexivity.
    + rewrite pargs_call_many by discriminate.
      rewrite (bind_run _ _ _ _ _ (pargs_loop_all _ _ _ _ Hall [] _)).
      reflexivity.
  - intros Hcls. apply (combo_new_from cs [VTuple cs] s Hcs).
    assert (Hnil : call VCoercerClass (VTuple cs)
                     (s ++ [OCustom VUnset; OCustom VUnset])
                   = (Ret v_nil, s ++ [OCustom VUnset; OCustom VUnset])).
    { change (call VCoercerClass (VTuple cs)) with (coercer_new (VTuple cs)).
      unfold coercer_new. cbn [is_boolean py_is as_num py_eq is_coercer
                                 has_coercer_mark is_custom is_function orb andb].
      unfold types_tuple_coerce_body. cbn [is_class]. rewrite Hcls.
      reflexivity. }
    rewrite (pargs_call_single _ _ _ cs _ _ _ Hnil eq_refl eq_refl).
    rewrite (bind_run _ _ _ _ _ (pargs_loop_all _ _ _ _ Hall [] _)).
    reflexivity.
Qed.

(** The defaults of the constructors.  [mapping()] is
    [istype(Mapping)]; a key or value coercer that is not given is the
    identity.  The outer coercer of [iterable(m, outer)] is
    [compose(coercer(outer), sized_coerce)]: [sized_coerce] alone by
    default, and after the type check for a class. *)
Theorem mapping_and_iterable_defaults (c : value) s :
  is_coercer c = true ->
  mapping_new VUnset VUnset s
  = (Ret (IsType (length s) [VClass (abc_Mapping B)]), s ++ [OCustom VUnset]) /\
  mapping_new c VUnset s
  = (Ret (Mapping (length s) c identity_coerce), s ++ [OCustom VUnset]) /\
  mapping_new VUnset c s
  = (Ret (Mapping (length s) identity_coerce c), s ++ [OCustom VUnset]) /\
  iterable_new c (VBool true) s
  = (Ret (Iterable (length s) c sized_coerce),
     s ++ [OCustom VUnset; OCustom VUnset]) /\
  (forall id,
      iterable_new c (VClass id) s
      = (Ret (Iterable (length s) c
                (Compose (3 + length s)
                   [IsType (1 + length s) [VClass id]; sized_coerce])),
         s ++ [OCustom VUnset; OCustom VUnset; OCustom VUnset;
               OCustom VUnset])).
Proof.
  intros Hc.
  assert (Htrue : forall t, vouch VCoercerClass [VBool true] [] t
                            = (Ret identity_coerce, t)) by reflexivity.
  split; [reflexivity|]. split; [|split; [|split]].
  - unfold mapping_new. rewrite (coercer_is_not_Unset c Hc). cbn [andb].
    unfold new_custom, alloc, py_or. unfold bind at 1. unfold bind at 1.
    rewrite (coercer_is_true c _ Hc).
    rewrite (bind_run _ _ _ _ _ (vouch_coercer c _ Hc)).
    reflexivity.
  - unfold mapping_new. cbn [py_is andb].
    replace (py_is c VUnset) with false
      by (symmetry; apply coercer_is_not_Unset, Hc).
    unfold new_custom, alloc, py_or. unfold bind at 1. unfold bind at 1.
    cbn [truthy]. rewrite (bind_run _ _ _ _ _ (Htrue _)).
    unfold bind at 1. rewrite (coercer_is_true c _ Hc).
    rewrite (bind_run _ _ _ _ _ (vouch_coercer c _ Hc)).
    reflexivity.
  - apply iterable_new_coercer, Hc.
  - intros id. unfold iterable_new, new_custom, alloc.
    unfold bind at 1. rewrite (bind_run _ _ _ _ _ (vouch_coercer c _ Hc)).
    assert (Ho : coercer_new (VClass id) (s ++ [OCustom VUnset])
                 = (Ret (IsType (length (s ++ [OCustom VUnset])) [VClass id]),
                    (s ++ [OCustom VUnset]) ++ [OCustom VUnset]))
      by reflexivity.
    rewrite (bind_run _ _ _ _ _ Ho).
    rewrite (bind_run _ _ _ _ _
               (compose_new_atoms
                  [IsType (length (s ++ [OCustom VUnset])) [VClass id];
                   sized_coerce] _
                  ltac:(repeat constructor; discriminate)
                  ltac:(simpl; lia))).
    rewrite !length_app. cbn [length]. rewrite <- !app_assoc. cbn [app].
    replace (length s + 1)%nat with (1 + length s)%nat by lia.
    replace (S (1 + length s + 1))%nat with (3 + length s)%nat by lia.
    reflexivity.
Qed.

(** ** The type checkers *)

(** What [types_tuple_coerce] returns is [nil] or a tuple of classes: the
    tuple of a class alone for a class, the argument itself for a tuple
    of classes, the empty tuple included.  Applied to a tuple of its own
    making it returns that tuple.  [type_coerce] accepts the classes
    only, and [callable_coerce] accepts every coercer. *)
Theorem types_tuple_coerce_normalises (arg : value) s :
  (forall r s',
      call types_tuple_coerce arg s = (Ret r, s') ->
      s' = s /\
      (r = v_nil \/
       exists tps,
         r = VTuple tps /\ forallb is_class tps = true /\
         call types_tuple_coerce r s = (Ret r, s) /\
         (is_class arg = true -> tps = [arg]) /\
         (is_class arg = false -> r = arg))) /\
  call type_coerce arg s = (Ret (if is_class arg then arg else v_nil), s) /\
  (call type_coerce arg s = (Ret arg, s) -> arg <> v_nil ->
   call types_tuple_coerce arg s = (Ret (VTuple [arg]), s)) /\
  (is_coercer arg = true -> call callable_coerce arg s = (Ret arg, s)).
Proof.
  split; [|split; [reflexivity|split]].
  - intros r s' H.
    change (types_tuple_coerce_body arg s = (Ret r, s')) in H.
    unfold types_tuple_coerce_body in H.
    destruct (is_class arg) eqn:Hc.
    + injection H as <- <-. split; [reflexivity|]. right.
      exists [arg]. split; [reflexivity|].
      assert (Hall : forallb is_class [arg] = true)
        by (simpl; rewrite Hc; reflexivity).
      split; [exact Hall|]. split.
      * change (types_tuple_coerce_body (VTuple [arg]) s
                = (Ret (VTuple [arg]), s)).
        unfold types_tuple_coerce_body. cbn [is_class]. rewrite Hall.
        reflexivity.
      * split; [reflexivity | discriminate].
    + destruct arg; try (injection H as <- <-; auto; fail).
      unfold ret in H.
      destruct (forallb is_class items) eqn:Hall;
        injection H as <- <-; (split; [reflexivity|]); [|left; reflexivity].
      right. exists items. split; [reflexivity|]. split; [exact Hall|].
      split.
      * change (types_tuple_coerce_body (VTuple items) s
                = (Ret (VTuple items), s)).
        unfold types_tuple_coerce_body. cbn [is_class]. rewrite Hall.
        reflexivity.
      * split; [discriminate | reflexivity].
  - intros H Hn.
    change (type_coerce_body arg s = (Ret arg, s)) in H.
    change (types_tuple_coerce_body arg s = (Ret (VTuple [arg]), s)).
    unfold type_coerce_body, ret in H. unfold types_tuple_coerce_body.
    destruct (is_class arg); [reflexivity|].
    injection H as H. symmetry in H. contradiction.
  - intros Hc. change (callable_coerce_body arg s = (Ret arg, s)).
    unfold callable_coerce_body.
    destruct arg; try discriminate Hc; reflexivity.
Qed.

(** * What a call writes in the store *)

(** [kept n A s s']: the store [s'] has every object of [s], and those
    at the locations below [n] that are not in [A] are as they were. *)
Definition kept (n : nat) (A : list loc) (s s' : store) : Prop :=
  (length s <= length s')%nat /\
  forall l, (l < n)%nat -> ~ In l A -> s' !! l = s !! l.

Lemma kept_refl n A s : kept n A s s.
Proof. split; [lia | reflexivity]. Qed.

Lemma kept_trans n A s1 s2 s3 :
  kept n A s1 s2 -> kept n A s2 s3 -> kept n A s1 s3.
Proof.
  intros [H1 K1] [H2 K2]. split; [lia|].
  intros l Hl Hin. rewrite (K2 l Hl Hin). apply K1; assumption.
Qed.

Lemma kept_mono n A A' s s' :
  (forall l, In l A -> In l A') -> kept n A s s' -> kept n A' s s'.
Proof.
  intros Hsub [H K]. split; [exact H|].
  intros l Hl Hin. apply K; [exact Hl|]. intros HA. apply Hin, Hsub, HA.
Qed.

Lemma kept_app n A s extra : (n <= length s)%nat -> kept n A s (s ++ extra).
Proof.
  intros Hn. split; [rewrite length_app; lia|].
  intros l Hl _. apply lookup_app_l. lia.
Qed.


(** [framed n A Q m]: run in a store with [n] objects or more, [m]
    keeps the objects below [n] that are not in [A], and what it returns
    satisfies [Q]. *)
Definition framed {X} (n : nat) (A : list loc) (Q : X -> Prop) (m : M X)
  : Prop :=
  forall s, (n <= length s)%nat ->
    kept n A s (snd (m s)) /\ forall a, fst (m s) = Ret a -> Q a.

Definition frames {X} (n : nat) (A : list loc) (m : M X) : Prop :=
  framed n A (fun _ => True) m.

Lemma framed_bind {X Y} n A (Q : X -> Prop) (R : Y -> Prop)
    (m : M X) (k : X -> M Y) :
  framed n A Q m -> (forall a, Q a -> framed n A R (k a)) ->
  framed n A R (bind m k).
Proof.
  intros Hm Hk s Hn. destruct (Hm s Hn) as [Hkept HQ].
  unfold bind. destruct (m s) as [[a|e] s1]; simpl in *.
  - assert (Hn1 : (n <= length s1)%nat) by (destruct Hkept; lia).
    destruct (Hk a (HQ a eq_refl) s1 Hn1) as [Hk1 HR].
    split; [eapply kept_trans; eassumption | exact HR].
  - split; [exact Hkept | discriminate].
Qed.

Lemma frames_bind {X Y} n A (m : M X) (k : X -> M Y) :
  frames n A m -> (forall a, frames n A (k a)) -> frames n A (bind m k).
Proof.
  intros Hm Hk.
  apply (framed_bind n A (fun _ => True)); [exact Hm | intros a _; apply Hk].
Qed.

Lemma framed_weaken {X} n A (Q Q' : X -> Prop) (m : M X) :
  framed n A Q m -> (forall a, Q a -> Q' a) -> framed n A Q' m.
Proof.
  intros Hm HQ s Hn. destruct (Hm s Hn) as [Hkept H].
  split; [exact Hkept | intros a Ha; apply HQ, H, Ha].
Qed.

Lemma framed_frames {X} n A (Q : X -> Prop) (m : M X) :
  framed n A Q m -> frames n A m.
Proof. intros H. apply (framed_weaken n A Q); [exact H | intros; exact I]. Qed.

Lemma framed_mono {X} n A A' (Q : X -> Prop) (m : M X) :
  (forall l, In l A -> In l A') -> framed n A Q m -> framed n A' Q m.
Proof.
  intros Hsub Hm s Hn. destruct (Hm s Hn) as [Hkept H].
  split; [eapply kept_mono; eassumption | exact H].
Qed.

(** A computation that leaves the store. *)
Lemma frames_same {X} n A (m : M X) :
  (forall s, snd (m s) = s) -> frames n A m.
Proof. intros H s _. rewrite H. split; [apply kept_refl | auto]. Qed.

Lemma framed_ret {X} n A (Q : X -> Prop) (a : X) : Q a -> framed n A Q (ret a).
Proof.
  intros H s _. split; [apply kept_refl|]. intros b [= <-]. exact H.
Qed.

Lemma framed_raise {X} n A (Q : X -> Prop) (e : exn) : framed n A Q (raise e).
Proof. intros s _. split; [apply kept_refl | discriminate]. Qed.

Lemma framed_alloc n A (o : obj) : framed n A (fun l => (n <= l)%nat) (alloc o).
Proof.
  intros s Hn. split; [apply kept_app; exact Hn|].
  intros a [= <-]. exact Hn.
Qed.


Lemma frames_try_or {X} n A (m : M X) (dflt : X) :
  frames n A m -> frames n A (try_or m dflt).
Proof.
  intros Hm s Hn. destruct (Hm s Hn) as [Hkept _].
  unfold try_or. destruct (m s) as [[a|e] s1]; split; auto.
Qed.

Lemma frames_map_m {X Y} n A (f : X -> M Y) (l : list X) :
  (forall x, frames n A (f x)) -> frames n A (map_m f l).
Proof.
  intros Hf. induction l as [|x l IH]; cbn [map_m].
  - apply framed_ret. exact I.
  - apply frames_bind; [apply Hf | intros y].
    apply frames_bind; [exact IH | intros ys]. apply framed_ret. exact I.
Qed.

(** The steps of a proof that a computation is framed: the binds are
    opened, the tests and the matches are split, and what leaves the
    store or only adds an object to it is closed. *)
Ltac frame_leaf :=
  first
    [ apply framed_ret; exact I
    | apply framed_raise
    | apply frames_same; intros; reflexivity
    | apply frames_same; intros; apply items_of_snd
    | apply frames_same; intros; apply hash_of_snd
    | apply frames_same; intros; apply py_contains_snd
    | apply (framed_frames _ _ _ _ (framed_alloc _ _ _))
    | apply frames_map_m; intros; frame_leaf
    | assumption ].

Ltac frame_step :=
  first
    [ frame_leaf
    | apply frames_bind; [|intros ?]
    | apply frames_try_or
    | match goal with
      | |- frames _ _ (if ?b then _ else _) => destruct b
      | |- frames _ _ (match ?x with _ => _ end) => destruct x
      | |- frames _ _ (let '(_, _) := ?x in _) => destruct x
      end ].

Ltac frame := repeat frame_step.



Lemma frames_py_contains n A c x : frames n A (py_contains c x).
Proof. frame. Qed.



Lemma frames_py_tuple n A v : frames n A (py_tuple v).
Proof. unfold py_tuple. frame. Qed.




























Section loops.

Variables (n : nat) (A : list loc) (self : loc).
Hypothesis Hself : In self A \/ (n <= self)%nat.









End loops.



(** * Coercing in place *)










(** [c] called on the members [xs] one after the other, each call in
    the store that the call before left, each time with success: [ys]
    are the results and [s'] is the store at the end. *)
Inductive coerced_each (c : value)
  : list value -> store -> list value -> store -> Prop :=
| coerced_each_nil s : coerced_each c [] s [] s
| coerced_each_cons x xs s y s1 ys s' :
    call c x s = (Ret y, s1) ->
    y <> v_nil ->
    coerced_each c xs s1 ys s' ->
    coerced_each c (x :: xs) s (y :: ys) s'.

Lemma coerced_each_length c xs s ys s' :
  coerced_each c xs s ys s' -> length ys = length xs.
Proof. induction 1; simpl; congruence. Qed.

Lemma pargs_loop_each (self : loc) (c : value) xs s ys s' :
  coerced_each c xs s ys s' ->
  forall done,
    pargs_loop call self c xs done s = (Ret (Some (done ++ ys)), s').
Proof.
  induction 1 as [s | x xs s y s1 ys s' Hc Hy _ IH]; intros done.
  - simpl. rewrite app_nil_r. reflexivity.
  - cbn [pargs_loop].
    rewrite (bind_run _ _ _ _ _ Hc), bind_read, t_ok_true by exact Hy.
    rewrite IH, <- app_assoc. simpl.
    destruct (py_is y x) eqn:E; [|reflexivity].
    apply py_is_eq in E. rewrite E. reflexivity.
Qed.


(** ** [pargs.__call__] *)

(** [pargs(c)] maps [c] over the arguments: when [c], called on the
    members of a tuple one after the other, each call in the store that
    the call before left, succeeds each time, the call returns the tuple
    of the results, as many as the members, whatever their number, and
    leaves the store that the last of these calls left. *)
Theorem pargs_maps_the_coercer (self : loc) (c : value)
    (items : list value) (s : store) (ys : list value) (s' : store) :
  coerced_each c items s ys s' ->
  call (Pargs self c) (VTuple items) s = (Ret (VTuple ys), s') /\
  length ys = length items.
Proof.
  intros Hall. split; [|eapply coerced_each_length; exact Hall].
  change (pargs_call call self c (VTuple items) s = (Ret (VTuple ys), s')).
  unfold pargs_call. cbn [is_iterable items_of]. rewrite bind_ret_l.
  destruct Hall as [s | x xs s y s1 ys s' Hx Hy Hrest].
  - reflexivity.
  - destruct Hrest as [s1 | x2 xs s1 y2 s2 ys s' Hx2 Hy2 Hrest].
    + unfold bind at 1. unfold bind at 1.
      rewrite Hx, bind_read, t_ok_true by exact Hy. reflexivity.
    + rewrite bind_ret_l. cbn [py_is].
      assert (Hall : coerced_each c (x :: x2 :: xs) s (y :: y2 :: ys) s').
      { eapply coerced_each_cons; [exact Hx | exact Hy |].
        eapply coerced_each_cons; eassumption. }
      rewrite (bind_run _ _ _ _ _ (pargs_loop_each self c _ _ _ _ Hall [])).
      reflexivity.
Qed.

(** ** [iterable] and [mapping]: failures *)



End Algebra.

(** * A run time to evaluate the module on

    [float] reads the decimal integers, with an optional fractional part
    of zeros; [hash] gives equal numbers the same hash; [str] writes a
    string as it is and a list of strings as Python does. *)

Fixpoint digits_value (x : string) (acc : Z) : option Z :=
  match x with
  | EmptyString => Some acc
  | String c r =>
      let n := Z.of_nat (nat_of_ascii c) in
      if (48 <=? n) && (n <=? 57) then digits_value r (10 * acc + (n - 48))
      else None
  end.

Fixpoint all_zeros (x : string) : bool :=
  match x with
  | EmptyString => true
  | String c r => Ascii.eqb c "0"%char && all_zeros r
  end.

Fixpoint split_dot (x : string) : string * option string :=
  match x with
  | EmptyString => (EmptyString, None)
  | String c r =>
      if Ascii.eqb c "."%char then (EmptyString, Some r)
      else let '(a, b) := split_dot r in (String c a, b)
  end.

Definition sample_float_of_str (x : string) : option float :=
  let '(whole, frac) := split_dot x in
  match whole, digits_value whole 0 with
  | String _ _, Some z =>
      match frac with
      | None => Some (float_lit z)
      | Some f => if all_zeros f then Some (float_lit z) else None
      end
  | _, _ => None
  end.

Fixpoint str_sum (x : string) : Z :=
  match x with
  | EmptyString => 0
  | String c r => Z.of_nat (nat_of_ascii c) + 31 * str_sum r
  end.

Definition float_hash (f : float) : Z :=
  match int_of_float f with
  | Ret z => if float_eq_int f z then z else 7
  | Raise _ => 0
  end.

Definition sample_hash (v : value) : Z :=
  match v with
  | VStr x => 1000003 + str_sum x
  | _ =>
      match as_num v with
      | Some (NInt z) => z
      | Some (NFloat f) => float_hash f
      | Some (NComplex re im) =>
          if float_eq_int im 0 then float_hash re else 11
      | None => 0
      end
  end.

Definition apostrophe : string := String "039"%char EmptyString.

Definition sample_repr (v : value) : string :=
  match v with
  | VStr x => (apostrophe ++ x ++ apostrophe)%string
  | _ => "<object>"
  end.

Definition sample_str (s : store) (v : value) : string :=
  match v with
  | VStr x => x
  | VList l =>
      match s !! l with
      | Some (OList items) =>
          ("[" ++ join_str ", " (map sample_repr items) ++ "]")%string
      | _ => "<object>"
      end
  | _ => "<object>"
  end.

Definition sample : Builtins := {|
  float_of_str := sample_float_of_str;
  py_hash := sample_hash;
  py_str := sample_str;
  both_args_repr := fun _ _ _ => "...";
  fun_name := fun _ => "f";
  fun_body := fun _ _ _ _ => Ret v_nil;
  class_name := fun _ => "C";
  class_call := fun _ _ _ _ => Raise (TypeError "cannot create instances");
  class_instance := fun _ _ => false;
  abc_Mapping := 0%nat;
|}.
Lemma positive_int_coerce_accepts_zero_witness :
  call sample int_coerce (VStr "7") [] = (Ret (VInt 7), []) /\
  call sample positive_int_coerce (VStr "7") [] = (Ret (VInt 7), []) /\
  call sample int_coerce (VInt (-1)) [] = (Ret (VInt (-1)), []) /\
  call sample positive_int_coerce (VInt (-1)) [] = (Ret v_nil, []) /\
  (call sample int_coerce (VInt (-1)) [] = (Ret v_nil, []) \/
   exists r z, call sample int_coerce (VInt (-1)) [] = (Ret r, []) /\
               int_value r = Some z /\ z < 0).
Proof.
  pose proof (positive_int_coerce_accepts_zero sample)
    as [_ [Hpos [Honly [Hneg _]]]].
  assert (Hnil : call sample positive_int_coerce (VInt (-1)) []
                 = (Ret v_nil, [])).
  { apply (Hneg (VInt (-1)) [] (VInt (-1)) [] (-1));
      [reflexivity | reflexivity | lia]. }
  split; [reflexivity|]. split.
  - apply (Hpos (VStr "7") [] (VInt 7) [] 7);
      [reflexivity | discriminate | reflexivity | lia].
  - split; [reflexivity|]. split; [exact Hnil|].
    exact (Honly (VInt (-1)) [] [] Hnil).
Defined.

(** [compose(int_coerce, float_coerce)] on ["3"]. *)
Lemma compose_applies_in_order_witness :
  chain sample [int_coerce; float_coerce] (VStr "3") []
    (VFloat (float_lit 3)) [] /\
  call sample (Compose 0 [int_coerce; float_coerce]) (VStr "3") []
  = (Ret (VFloat (float_lit 3)), []) /\
  chain sample [int_coerce] (VStr "3") [OCustom VUnset]
    (VInt 3) [OCustom VUnset] /\
  call sample void_coerce (VInt 3) [OCustom VUnset]
  = (Ret v_nil, [OCustom VUnset]) /\
  call sample (Compose 0 [int_coerce; void_coerce; float_coerce]) (VStr "3")
    [OCustom VUnset]
  = (Ret v_nil, [OCustom (VTuple [VInt 3; void_coerce])]) /\
  scope_of [OCustom (VTuple [VInt 3; void_coerce])] 0
  = Some (VTuple [VInt 3; void_coerce]).
Proof.
  assert (H : chain sample [int_coerce; float_coerce] (VStr "3") []
                (VFloat (float_lit 3)) []).
  { apply (chain_cons sample _ _ _ _ (VInt 3) []);
      [reflexivity | discriminate |].
    apply (chain_cons sample _ _ _ _ (VFloat (float_lit 3)) []);
      [reflexivity | discriminate | constructor]. }
  assert (H1 : chain sample [int_coerce] (VStr "3") [OCustom VUnset]
                 (VInt 3) [OCustom VUnset]).
  { apply (chain_cons sample _ _ _ _ (VInt 3) [OCustom VUnset]);
      [reflexivity | discriminate | constructor]. }
  split; [exact H|].
  split; [exact (proj1 (compose_applies_in_order sample 0 _ _ _) _ _ H)|].
  split; [exact H1|]. split; [reflexivity|].
  destruct (proj2 (compose_applies_in_order sample 0
                     [int_coerce; void_coerce; float_coerce] (VStr "3")
                     [OCustom VUnset])
              [int_coerce] void_coerce [float_coerce] (VInt 3)
              [OCustom VUnset] [OCustom VUnset] eq_refl H1 eq_refl)
    as [Hcall Hscope].
  split; [exact Hcall|]. apply Hscope. simpl. lia.
Defined.

(** [compose] of the instance that [compose(int_coerce, float_coerce)] is. *)
Lemma compose_some_degenerate_witness :
  is_coercer (Compose 0 [int_coerce; float_coerce]) = true /\
  compose_built (Compose 0 [int_coerce; float_coerce]) /\
  (exists A' s',
    compose_new sample [Compose 0 [int_coerce; float_coerce]] []
      [OCustom VUnset] = (Ret A', s') /\
    (is_compose (Compose 0 [int_coerce; float_coerce]) = false ->
     A' = Compose 0 [int_coerce; float_coerce]) /\
    (forall self inner,
        Compose 0 [int_coerce; float_coerce] = Compose self inner ->
        exists self', A' = Compose self' inner) /\
    (forall v t, fst (call sample A' v t)
                 = fst (call sample (Compose 0 [int_coerce; float_coerce]) v t))) /\
  compose_new sample [identity_coerce; v_t; VBool true] [] []
  = (Ret identity_coerce, [OCustom VUnset]) /\
  some_new sample [void_coerce; VNone; VBool false] []
  = (Ret void_coerce, [OCustom VUnset]).
Proof.
  assert (Hb : compose_built (Compose 0 [int_coerce; float_coerce])).
  { split; [|simpl; lia].
    repeat constructor; discriminate. }
  pose proof (compose_some_degenerate sample) as (Hid & _ & Hvoid & _ & Hone).
  split; [reflexivity|]. split; [exact Hb|].
  split; [exact (Hone (Compose 0 [int_coerce; float_coerce]) [OCustom VUnset]
                   eq_refl Hb)|].
  split.
  - apply (Hid [identity_coerce; v_t; VBool true] []).
    apply List.Forall_cons; [left; reflexivity|].
    apply List.Forall_cons; [right; left; reflexivity|].
    apply List.Forall_cons; [right; right; reflexivity | apply List.Forall_nil].
  - apply (Hvoid [void_coerce; VNone; VBool false] []).
    apply List.Forall_cons; [left; reflexivity|].
    apply List.Forall_cons; [right; left; reflexivity|].
    apply List.Forall_cons; [right; right; reflexivity | apply List.Forall_nil].
Defined.

(** C5 fails on the code: [vouch(void_coerce, 1)] raises [TypeError],
    and its message starts with a quoted name. *)
Lemma vouch_raises_TypeError :
  call sample void_coerce (VInt 1) [] = (Ret v_nil, []) /\
  vouch sample void_coerce [VInt 1] [] []
  = (Raise (TypeError (vouch_message "void" "...")), []) /\
  forall name repr,
    fst (vouch sample void_coerce [VInt 1] [] [])
    <> Raise (Exn "CoercionError"
                (name ++ " fails with arguments: " ++ repr)%string).
Proof.
  split; [reflexivity|]. split; [reflexivity|].
  intros name repr H. vm_compute in H. discriminate H.
Qed.

Lemma vouch_called_with_arguments_witness :
  ([VStr "x"] <> [] \/ [] <> ([] : kwargs)) /\
  vouch sample int_coerce [VStr "x"] [] []
  = (Raise (TypeError (vouch_message "int" "...")), []) /\
  vouch sample int_coerce [VStr "3"] [] [] = (Ret (VInt 3), []).
Proof.
  assert (H : [VStr "x"] <> [] \/ [] <> ([] : kwargs)) by (left; discriminate).
  assert (H3 : [VStr "3"] <> [] \/ [] <> ([] : kwargs)) by (left; discriminate).
  split; [exact H|]. split.
  - exact (proj2 (vouch_called_with_arguments sample int_coerce [VStr "x"] [] [] H)
             [] (VStr "int") [] eq_refl eq_refl).
  - apply (proj1 (vouch_called_with_arguments sample int_coerce [VStr "3"] [] []
                    H3) (VInt 3) []); [reflexivity | discriminate].
Defined.

Lemma pargs_spreads_a_single_sequence_witness :
  float_of_str sample "3.0" = Some (float_lit 3) /\
  (c <- pargs_new sample int_coerce ;;
   call sample c (VTuple [VTuple [VInt 1; VFloat (float_lit 2); VStr "3.0"]])) []
  = (Ret (VTuple [VInt 1; VInt 2; VInt 3]), [OCustom VUnset]) /\
  call sample int_coerce VNone [OCustom VUnset] = (Ret v_nil, [OCustom VUnset]) /\
  call sample (Pargs 0 int_coerce) (VTuple [VNone]) [OCustom VUnset]
  = (Ret v_nil, [OCustom VNone]) /\
  call sample (Pargs 0 int_coerce) (VTuple [VStr "7"]) [OCustom VUnset]
  = (Ret (VTuple [VInt 7]), [OCustom VUnset]) /\
  exists items, VTuple [VInt 7] = VTuple items.
Proof.
  pose proof (pargs_spreads_a_single_sequence sample eq_refl)
    as (_ & Hnested & Hnil & Htuple).
  split; [reflexivity|]. split; [exact (Hnested [])|].
  split; [reflexivity|].
  split; [exact (Hnil 0%nat int_coerce VNone [OCustom VUnset] [OCustom VUnset]
                   eq_refl eq_refl)|].
  split; [reflexivity|].
  apply (Htuple 0%nat int_coerce (VTuple [VStr "7"]) [OCustom VUnset]
           (VTuple [VInt 7]) [OCustom VUnset]); [reflexivity | discriminate].
Defined.

Lemma unique_member_fails_on_collision_witness :
  float_of_str sample "1" = Some (float_lit 1) /\
  py_hash sample (VInt 1) <> py_hash sample (VStr "1") /\
  (c <- create_unique_member_coerce sample int_coerce (VList 0) ;;
   call sample c (VStr "1")) [OList [VInt 1]]
  = (Ret v_nil, [OList [VInt 1]]) /\
  (c <- create_unique_member_coerce sample int_coerce (VList 0) ;;
   call sample c (VStr "1")) [OList []]
  = (Ret (VInt 1), [OList []]) /\
  call sample int_coerce (VStr "2") [OList [VInt 1]]
  = (Ret (VInt 2), [OList [VInt 1]]) /\
  py_contains sample (VList 0) (VInt 2) [OList [VInt 1]]
  = (Ret false, [OList [VInt 1]]) /\
  call sample (VUniqueMember int_coerce (VList 0)) (VStr "2") [OList [VInt 1]]
  = (Ret (VInt 2), [OList [VInt 1]]) /\
  call sample (VUniqueMember int_coerce (VList 0)) (VInt 1) [OList [VInt 1]]
  = (Ret (VInt 1), [OList [VInt 1]]) /\
  call sample (VUniqueMember int_coerce (VList 0)) (VStr "x") [OList [VInt 1]]
  = (Ret v_nil, [OList [VInt 1]]) /\
  call sample (VUniqueMember identity_coerce (VTuple [])) (VList 0)
    [OList [VInt 1]]
  = (Raise (TypeError "unhashable type"), [OList [VInt 1]]).
Proof.
  assert (H : py_hash sample (VInt 1) <> py_hash sample (VStr "1"))
    by (vm_compute; discriminate).
  assert (H2 : py_hash sample (VInt 2) <> py_hash sample (VStr "2"))
    by (vm_compute; discriminate).
  pose proof (unique_member_fails_on_collision sample eq_refl H)
    as (Hheld & Hempty & Hgen & Hnil & _).
  split; [reflexivity|]. split; [exact H|].
  split; [exact (Hheld [OList [VInt 1]] 0%nat eq_refl)|].
  split; [exact (Hempty [OList []] 0%nat eq_refl)|].
  split; [reflexivity|]. split; [reflexivity|].
  split.
  { destruct (Hgen int_coerce (VList 0%nat) (VStr "2") [OList [VInt 1]]
                (VInt 2) [OList [VInt 1]] eq_refl ltac:(discriminate))
      as (_ & _ & Hout & _).
    exact (Hout eq_refl eq_refl H2 eq_refl). }
  split.
  { destruct (Hgen int_coerce (VList 0%nat) (VInt 1) [OList [VInt 1]]
                (VInt 1) [OList [VInt 1]] eq_refl ltac:(discriminate))
      as (_ & Hsame & _).
    exact (Hsame eq_refl eq_refl eq_refl). }
  split.
  { exact (Hnil int_coerce (VList 0%nat) (VStr "x") [OList [VInt 1]]
             [OList [VInt 1]] eq_refl). }
  destruct (Hgen identity_coerce (VTuple []) (VList 0%nat) [OList [VInt 1]]
              (VList 0%nat) [OList [VInt 1]] eq_refl ltac:(discriminate))
    as (_ & _ & _ & _ & Hraise).
  exact (Hraise (or_introl eq_refl)).
Defined.

(** C7, at a tuple that holds [Unset] and at a string.
    [combo(identity_coerce, identity_coerce)] returns the empty tuple
    for [(Unset, 1)], though the coercers and the members are two each:
    the member [Unset] ends the walk.  For ["ab"] it returns the string
    that [str] makes of the list of the results, ten characters long.
    Neither result is the sequence of the i-th results, as long as the
    shorter of the coercers and the members, that the docstring of
    [combo] describes. *)
Lemma combo_result_shorter_or_longer :
  (c <- combo_new sample [identity_coerce; identity_coerce] ;;
   call sample c (VTuple [VUnset; VInt 1])) []
  = (Ret (VTuple []), [OCustom VUnset; OCustom VUnset; OList []]) /\
  (c <- combo_new sample [identity_coerce; identity_coerce] ;;
   call sample c (VStr "ab")) []
  = (Ret (VStr "['a', 'b']"),
     [OCustom VUnset; OCustom VUnset; OList [VStr "a"; VStr "b"]]).
Proof. split; reflexivity. Qed.

Lemma combo_coerces_in_lockstep_witness :
  float_of_str sample "3" = Some (float_lit 3) /\
  float_of_str sample "4" = Some (float_lit 4) /\
  (c <- combo_new sample [int_coerce; float_coerce] ;;
   call sample c (VTuple [VStr "3"; VStr "4"])) []
  = (Ret (VTuple [VInt 3; VFloat (float_lit 4)]),
     [OCustom VUnset; OCustom VUnset; OList [VInt 3; VFloat (float_lit 4)]]) /\
  lockstep sample (VTuple [VStr "3"; VStr "4"; VStr "5"])
    [VStr "3"; VStr "4"; VStr "5"] [int_coerce; float_coerce]
    [VStr "3"; VStr "4"; VStr "5"] [] [VInt 3; VFloat (float_lit 4)] [] /\
  call sample (Combo 0 [int_coerce; float_coerce])
    (VTuple [VStr "3"; VStr "4"; VStr "5"]) []
  = (Ret (VTuple [VInt 3; VFloat (float_lit 4)]),
     [OList [VInt 3; VFloat (float_lit 4)]]) /\
  call sample (Combo 0 [int_coerce; float_coerce]) (VTuple [VStr "3"; VStr "x"])
    [OCustom VUnset]
  = (Ret v_nil, [OCustom (VTuple [VStr "x"; float_coerce])]).
Proof.
  pose proof (combo_coerces_in_lockstep sample eq_refl eq_refl)
    as (Hok & Hfail & Hex).
  assert (Hl : lockstep sample (VTuple [VStr "3"; VStr "4"; VStr "5"])
                 [VStr "3"; VStr "4"; VStr "5"] [int_coerce; float_coerce]
                 [VStr "3"; VStr "4"; VStr "5"] []
                 [VInt 3; VFloat (float_lit 4)] []).
  { apply (lockstep_step sample _ _ _ _ _ _ _ (VInt 3) []);
      [reflexivity | reflexivity | discriminate |].
    apply (lockstep_step sample _ _ _ _ _ _ _ (VFloat (float_lit 4)) []);
      [reflexivity | reflexivity | discriminate |].
    apply lockstep_no_coercer. }
  assert (Hp : lockstep sample (VTuple [VStr "3"; VStr "x"])
                 [VStr "3"; VStr "x"] [int_coerce] [VStr "3"] [OCustom VUnset]
                 [VInt 3] [OCustom VUnset]).
  { apply (lockstep_step sample _ _ _ _ _ _ _ (VInt 3) [OCustom VUnset]);
      [reflexivity | reflexivity | discriminate |].
    apply lockstep_no_coercer. }
  split; [reflexivity|]. split; [reflexivity|]. split; [exact (Hex [])|].
  split; [exact Hl|]. split.
  - apply (proj1 (proj2 (proj2
             (Hok 0%nat [int_coerce; float_coerce]
                (VTuple [VStr "3"; VStr "4"; VStr "5"])
                [VStr "3"; VStr "4"; VStr "5"] []
                [VInt 3; VFloat (float_lit 4)] [] eq_refl eq_refl
                ltac:(repeat constructor; discriminate) Hl)))
             [VStr "3"; VStr "4"; VStr "5"] eq_refl).
  - exact (Hfail 0%nat [int_coerce] float_coerce [] (VTuple [VStr "3"; VStr "x"])
             [VStr "3"] (VStr "x") [] [OCustom VUnset] [VInt 3]
             [OCustom VUnset] [OCustom VUnset] eq_refl eq_refl
             ltac:(repeat constructor; discriminate) eq_refl Hp eq_refl eq_refl).
Defined.


(** * The further properties, on the run time *)

Lemma t_and_nil_test_against_nil_witness :
  exists a b,
    call sample v_t (VInt 0) [] = (Ret a, []) /\
    call sample v_nil (VInt 0) [] = (Ret b, []) /\
    a = v_t /\ b = v_nil.
Proof.
  destruct (t_and_nil_test_against_nil sample (VInt 0) [])
    as (a & b & Ha & Hb & _ & _ & _ & Hfalse & Hnil).
  exists a, b. split; [exact Ha|]. split; [exact Hb|].
  split; [apply Hfalse; [reflexivity | discriminate] | exact Hnil].
Defined.

Lemma vouch_never_returns_nil_witness :
  vouch sample int_coerce [VStr "3"] [] [] = (Ret (VInt 3), []) /\
  VInt 3 <> v_nil /\
  apply sample int_coerce (passed_args [VStr "3"]) [] [] = (Ret (VInt 3), []) /\
  call sample (VVouch int_coerce "int" false) (VStr "3") [] = (Ret (VInt 3), []) /\
  vouch sample int_coerce [v_nil] [] []
  = (Raise (TypeError "wrong number of arguments"), []).
Proof.
  pose proof (vouch_never_returns_nil sample int_coerce)
    as (Hret & Hraise & _ & Hwrap).
  destruct (Hret [VStr "3"] [] [] (VInt 3) []
              ltac:(left; discriminate) eq_refl) as [Hn Happly].
  split; [reflexivity|]. split; [exact Hn|]. split; [exact Happly|].
  split; [reflexivity|].
  apply Hraise; [left; discriminate | reflexivity].
Defined.

Lemma coercer_makes_a_coercer_or_nil_witness :
  coercer_new sample (VFunction 0 false) [] = (Ret (VFunction 0 true), []) /\
  (v_nil = VFunction 0 true \/ is_coercer (VFunction 0 true) = true) /\
  coercer_new sample (VFunction 0 true) [] = (Ret (VFunction 0 true), []) /\
  coercer_new sample (VStr "int") [] = (Ret v_nil, []).
Proof.
  pose proof (coercer_makes_a_coercer_or_nil sample) as (Hres & _ & Hnil).
  destruct (Hres (VFunction 0 false) [] (VFunction 0 true) [] eq_refl)
    as [Hc Hidem].
  split; [reflexivity|].
  split; [destruct Hc as [Hc | Hc]; [left; symmetry; exact Hc | right; exact Hc]|].
  split; [apply Hidem; discriminate|].
  apply Hnil. left. eexists. reflexivity.
Defined.

Lemma numeric_coercers_are_idempotent_witness :
  In positive_int_coerce
    [float_coerce; int_coerce; number_coerce; positive_int_coerce] /\
  call sample positive_int_coerce (VStr "7") [] = (Ret (VInt 7), []) /\
  call sample positive_int_coerce (VInt 7) [] = (Ret (VInt 7), []).
Proof.
  assert (Hin : In positive_int_coerce
                  [float_coerce; int_coerce; number_coerce; positive_int_coerce])
    by (simpl; auto).
  split; [exact Hin|]. split; [reflexivity|].
  exact (proj2 (numeric_coercers_are_idempotent sample positive_int_coerce
                  (VStr "7") [] (VInt 7) [] Hin eq_refl
                  ltac:(discriminate))).
Defined.

(** [2.5] is no integer: [number_coerce] returns it, [int_coerce] fails. *)
Lemma number_coerce_is_int_or_float_witness :
  let half5 := VFloat (S754_finite false 5 (-1)) in
  call sample int_coerce (VStr "7") [] = (Ret (VInt 7), []) /\
  call sample number_coerce (VStr "7") [] = (Ret (VInt 7), []) /\
  call sample number_coerce half5 [] = (Ret half5, []) /\
  (call sample int_coerce half5 [] = (Ret half5, []) \/
   call sample int_coerce half5 [] = (Ret v_nil, []) /\
   call sample float_coerce half5 [] = (Ret half5, []) /\
   exists f, half5 = VFloat f) /\
  call sample number_coerce v_nil [] = (Ret v_nil, []) /\
  call sample int_coerce v_nil [] = (Ret v_nil, []).
Proof.
  intros half5.
  pose proof (number_coerce_is_int_or_float sample (VStr "7") [])
    as (Hint & _ & _).
  pose proof (number_coerce_is_int_or_float sample half5 [])
    as (_ & Hnum & _).
  pose proof (number_coerce_is_int_or_float sample v_nil [])
    as (_ & _ & Hnil).
  split; [reflexivity|].
  split; [apply Hint; [reflexivity | discriminate]|].
  split; [reflexivity|].
  split; [apply Hnum; [reflexivity | discriminate]|].
  split; [reflexivity|]. apply Hnil. reflexivity.
Defined.

Lemma identifiers_are_dotted_identifiers_witness :
  call sample full_identifier_coerce (VStr "os.path.join") []
  = (Ret (VStr "os.path.join"), []) /\
  call sample full_identifier_coerce (VStr "join") [] = (Ret (VStr "join"), []) /\
  call sample identifier_coerce (VStr "os.path") [] = (Ret v_nil, []) /\
  call sample identifier_coerce (VStr (String "x" (String newline EmptyString))) []
  = (Ret (VStr (String "x" (String newline EmptyString))), []).
Proof.
  pose proof (identifiers_are_dotted_identifiers sample)
    as (Hshape & Hsub & Hdot & Hnl).
  split; [exact (Hdot "os" "path.join" [] eq_refl eq_refl eq_refl)|].
  split; [exact (Hsub "join" [] eq_refl)|].
  split.
  - destruct (Hshape identifier_coerce (VStr "os.path") [] v_nil []
                (or_introl eq_refl) eq_refl) as [_ _]. reflexivity.
  - exact (Hnl "x" [] eq_refl eq_refl).
Defined.

Lemma names_coerce_checks_each_member_witness :
  items_of (VList 0) [OList [VStr "a"; VStr "b1"]]
  = (Ret [VStr "a"; VStr "b1"], [OList [VStr "a"; VStr "b1"]]) /\
  (exists scope,
      call sample names_coerce (VList 0) [OList [VStr "a"; VStr "b1"]]
      = (Ret (VTuple [VStr "a"; VStr "b1"]),
         [OList [VStr "a"; VStr "b1"]; OCustom scope])) /\
  (exists scope,
      call sample names_coerce (VTuple [VStr "a"; VStr "1b"]) []
      = (Ret v_nil, [OCustom scope])) /\
  (exists scope,
      call sample names_coerce (VStr "ab") []
      = (Ret (VTuple [VStr "ab"]), [OCustom scope])).
Proof.
  split; [reflexivity|].
  split; [exact (names_coerce_checks_each_member sample (VList 0)
                   [VStr "a"; VStr "b1"] [OList [VStr "a"; VStr "b1"]] eq_refl)|].
  split; [exact (names_coerce_checks_each_member sample
                   (VTuple [VStr "a"; VStr "1b"]) [VStr "a"; VStr "1b"] []
                   eq_refl)|].
  exact (names_coerce_checks_each_member sample (VStr "ab") [VStr "ab"] []
           eq_refl).
Defined.


(** [some(int_coerce, identifier_coerce)] on ["x"] and on [None]. *)
Lemma some_returns_the_first_success_witness :
  all_fail sample (VStr "x") [int_coerce] [OCustom VUnset] [OCustom VUnset] /\
  call sample (Some_ 0 [int_coerce; identifier_coerce; float_coerce]) (VStr "x")
    [OCustom VUnset]
  = (Ret (VStr "x"), [OCustom identifier_coerce]) /\
  all_fail sample VNone [int_coerce; identifier_coerce]
    [OCustom VUnset] [OCustom VUnset] /\
  call sample (Some_ 0 [int_coerce; identifier_coerce]) VNone [OCustom VUnset]
  = (Ret v_nil, [OCustom VUnset]).
Proof.
  assert (H1 : all_fail sample (VStr "x") [int_coerce]
                 [OCustom VUnset] [OCustom VUnset]).
  { apply (all_fail_cons sample _ _ _ _ [OCustom VUnset]);
      [reflexivity | constructor]. }
  assert (H2 : all_fail sample VNone [int_coerce; identifier_coerce]
                 [OCustom VUnset] [OCustom VUnset]).
  { apply (all_fail_cons sample _ _ _ _ [OCustom VUnset]); [reflexivity|].
    apply (all_fail_cons sample _ _ _ _ [OCustom VUnset]);
      [reflexivity | constructor]. }
  split; [exact H1|]. split.
  - exact (proj1 (some_returns_the_first_success sample 0
                    [int_coerce; identifier_coerce; float_coerce] (VStr "x")
                    [OCustom VUnset])
             [int_coerce] identifier_coerce [float_coerce] [OCustom VUnset]
             (VStr "x") [OCustom VUnset] eq_refl H1 eq_refl
             ltac:(discriminate)).
  - split; [exact H2|].
    exact (proj2 (some_returns_the_first_success sample 0
                    [int_coerce; identifier_coerce] VNone [OCustom VUnset])
             [OCustom VUnset] H2).
Defined.

Lemma istype_is_a_pure_check_witness :
  istype_new sample (VTuple [VClass 7; VCoercerClass]) []
  = (Ret (IsType 0 [VClass 7; VCoercerClass]), [OCustom VUnset]) /\
  forallb is_class [VClass 7; VCoercerClass] = true /\
  call sample (IsType 0 [VClass 7; VCoercerClass]) int_coerce [OCustom VUnset]
  = (Ret int_coerce, [OCustom VUnset]) /\
  call sample (IsType 0 [VClass 7; VCoercerClass]) (VInt 1) [OCustom VUnset]
  = (Ret v_nil, [OCustom VUnset]).
Proof.
  pose proof (istype_is_a_pure_check sample) as (Hnew & Hcall & _).
  pose proof (Hnew (VTuple [VClass 7; VCoercerClass]) [] 0%nat
                [VClass 7; VCoercerClass] [OCustom VUnset] eq_refl) as Hcls.
  split; [reflexivity|]. split; [exact Hcls|].
  split; [exact (Hcall 0%nat _ int_coerce [OCustom VUnset] Hcls)
         | exact (Hcall 0%nat _ (VInt 1) [OCustom VUnset] Hcls)].
Defined.

Lemma flatten_returns_the_leaves_witness :
  let v := VTuple [int_coerce;
                   VTuple [float_coerce;
                           Compose 0 [identifier_coerce; int_coerce]];
                   Some_ 1 [void_coerce; int_coerce]] in
  coercer_tree cls_compose v = true /\
  (height cls_compose v < recursion_limit)%nat /\
  flatten_call sample recursion_limit (VInward cls_compose) VCoercerClass v []
  = (Ret [int_coerce; float_coerce; identifier_coerce; int_coerce;
          Some_ 1 [void_coerce; int_coerce]], []).
Proof.
  intros v.
  assert (Hh : (height cls_compose v < recursion_limit)%nat)
    by (unfold recursion_limit; simpl; lia).
  split; [reflexivity|]. split; [exact Hh|].
  exact (flatten_returns_the_leaves sample cls_compose v [] eq_refl Hh).
Defined.

(** [compose(compose(int, float), identity, (identifier,))] and
    [compose(int, compose(float, identifier))]. *)
Lemma compose_is_made_of_the_leaves_witness :
  let cs := [Compose 0 [int_coerce; float_coerce]; identity_coerce;
             VTuple [identifier_coerce]] in
  let cs' := [int_coerce; Compose 0 [float_coerce; identifier_coerce]] in
  coercer_tree cls_compose (VTuple cs) = true /\
  (height cls_compose (VTuple cs) < recursion_limit)%nat /\
  compose_new sample cs [] [OCustom VUnset]
  = (Ret (Compose 2 [int_coerce; float_coerce; identifier_coerce]),
     [OCustom VUnset; OCustom VUnset; OCustom VUnset]) /\
  compose_new sample cs [("default", void_coerce)] [OCustom VUnset]
  = compose_new sample cs [] [OCustom VUnset] /\
  compose_new sample cs' [] [OCustom VUnset]
  = compose_new sample cs [] [OCustom VUnset].
Proof.
  intros cs cs'.
  assert (Hh : (height cls_compose (VTuple cs) < recursion_limit)%nat)
    by (unfold recursion_limit; simpl; lia).
  assert (Hh' : (height cls_compose (VTuple cs') < recursion_limit)%nat)
    by (unfold recursion_limit; simpl; lia).
  pose proof (compose_is_made_of_the_leaves sample cs [OCustom VUnset]
                eq_refl Hh) as (Hnew & Hopt & Hsame).
  split; [reflexivity|]. split; [exact Hh|]. split; [exact Hnew|].
  split; [apply Hopt; discriminate|].
  exact (Hsame cs' eq_refl Hh' eq_refl).
Defined.

Lemma compose_default_and_unexpected_options_witness :
  let cs := [identity_coerce; VTuple [identity_coerce]] in
  coercer_tree cls_compose (VTuple cs) = true /\
  (height cls_compose (VTuple cs) < recursion_limit)%nat /\
  compose_new sample cs [("default", int_coerce)] []
  = (Ret int_coerce, [OCustom VUnset]) /\
  exists msg s',
    compose_new sample cs [("default", int_coerce); ("dflt", void_coerce)] []
    = (Raise (TypeError msg), s').
Proof.
  intros cs.
  assert (Hh : (height cls_compose (VTuple cs) < recursion_limit)%nat)
    by (unfold recursion_limit; simpl; lia).
  pose proof (compose_default_and_unexpected_options sample cs []
                eq_refl Hh eq_refl) as (Hd & Hraise).
  split; [reflexivity|]. split; [exact Hh|].
  split; [exact (Hd int_coerce eq_refl)|].
  exact (Hraise [("default", int_coerce); ("dflt", void_coerce)]
           "dflt" void_coerce [] eq_refl).
Defined.

(** [some(some(int, identifier), void, float)] and
    [some(int, (identifier, float))]. *)
Lemma some_is_made_of_the_leaves_witness :
  let cs := [Some_ 0 [int_coerce; identifier_coerce]; void_coerce;
             float_coerce] in
  let cs' := [int_coerce; VTuple [identifier_coerce; float_coerce]] in
  coercer_tree cls_some (VTuple cs) = true /\
  (height cls_some (VTuple cs) < recursion_limit)%nat /\
  some_new sample cs [OCustom VUnset]
  = (Ret (Some_ 2 [int_coerce; identifier_coerce; float_coerce]),
     [OCustom VUnset; OCustom VUnset; OCustom VUnset]) /\
  some_new sample cs' [OCustom VUnset] = some_new sample cs [OCustom VUnset].
Proof.
  intros cs cs'.
  assert (Hh : (height cls_some (VTuple cs) < recursion_limit)%nat)
    by (unfold recursion_limit; simpl; lia).
  assert (Hh' : (height cls_some (VTuple cs') < recursion_limit)%nat)
    by (unfold recursion_limit; simpl; lia).
  pose proof (some_is_made_of_the_leaves sample cs [OCustom VUnset]
                eq_refl Hh) as (Hnew & Hsame).
  split; [reflexivity|]. split; [exact Hh|]. split; [exact Hnew|].
  exact (Hsame cs' eq_refl Hh' eq_refl).
Defined.

Lemma coercer_name_of_coercers_witness :
  Forall2 (named sample 5) [int_coerce; float_coerce] ["int"; "float"] /\
  coercer_name sample 6 (VTuple [int_coerce; float_coerce]) VNone []
  = (Ret (VTuple [VStr "int"; VStr "float"]), []) /\
  coercer_name sample 6 (VTuple [int_coerce; float_coerce]) (VStr "_") []
  = (Ret (VStr "int_float"), []) /\
  coercer_name sample 7 (Compose 0 [int_coerce; float_coerce]) VNone []
  = (Ret (VStr "int_float_compose"), []) /\
  coercer_name sample 7 (Mapping 0 int_coerce float_coerce) VNone []
  = (Ret (VStr "int:float_mapping"), []) /\
  coercer_name sample 7 (Pargs 0 int_coerce) VNone []
  = (Ret (VStr "int_pargs"), []).
Proof.
  pose proof (coercer_name_of_coercers sample 5) as (_ & Htuple & Hcustom & Hpargs).
  assert (H : Forall2 (named sample 5) [int_coerce; float_coerce]
                ["int"; "float"]).
  { repeat constructor; intros s; reflexivity. }
  split; [exact H|].
  split; [exact (proj1 (Htuple _ _ [] H))|].
  split; [exact (proj2 (Htuple _ _ [] H) "_")|].
  split; [exact (Hcustom (Compose 0 [int_coerce; float_coerce]) _ _
                   eq_refl eq_refl H [])|].
  split; [exact (Hcustom (Mapping 0 int_coerce float_coerce) _ _
                   eq_refl eq_refl H [])|].
  exact (Hpargs 0%nat int_coerce "int" eq_refl (fun join s => eq_refl) []).
Defined.

(** [create_int_range_coerce("3", 7)] and [create_int_range_coerce(3, 3)]. *)
Lemma int_range_is_closed_and_not_empty_witness :
  (exists inner,
      create_int_range_coerce sample (VStr "3") (VInt 7) [] = (Ret inner, []) /\
      inner (VStr "5") [] = (Ret (VInt 5), []) /\
      inner (VInt 8) [] = (Ret v_nil, []) /\
      inner (VStr "x") [] = (Ret v_nil, []) /\
      inner (VInt 3) [] = (Ret (VInt 3), []) /\
      inner (VInt 7) [] = (Ret (VInt 7), [])) /\
  (exists msg,
      create_int_range_coerce sample (VInt 3) (VInt 3) []
      = (Raise (ValueError msg), [])).
Proof.
  split.
  - destruct (proj2 (int_range_is_closed_and_not_empty sample
                       (VStr "3") (VInt 7) (VInt 3) (VInt 7) 3 7 []
                       eq_refl ltac:(discriminate) eq_refl
                       eq_refl ltac:(discriminate) eq_refl) ltac:(lia))
      as (inner & Hnew & Hin & Hnil & Hbounds).
    exists inner. split; [exact Hnew|].
    split; [exact (Hin (VStr "5") [] (VInt 5) [] 5 eq_refl
                     ltac:(discriminate) eq_refl)|].
    split; [exact (Hin (VInt 8) [] (VInt 8) [] 8 eq_refl
                     ltac:(discriminate) eq_refl)|].
    split; [exact (Hnil (VStr "x") [] [] eq_refl)|].
    exact (Hbounds []).
  - exact (proj1 (int_range_is_closed_and_not_empty sample
                    (VInt 3) (VInt 3) (VInt 3) (VInt 3) 3 3 []
                    eq_refl ltac:(discriminate) eq_refl
                    eq_refl ltac:(discriminate) eq_refl) ltac:(lia)).
Defined.

(** A run time with the class [int], at 1, which reads decimal strings,
    and with a [float] that reads [inf] and [nan] too. *)
Definition int_class (args : list value) : result value :=
  match args with
  | [VInt z] => Ret (VInt z)
  | [VStr (String c r)] =>
      match digits_value (String c r) 0 with
      | Some z => Ret (VInt z)
      | None => Raise (ValueError "invalid literal for int() with base 10")
      end
  | _ => Raise (TypeError "int() argument must be a string or a number")
  end.

Definition with_int : Builtins := {|
  float_of_str := fun x =>
    if String.eqb x "inf" then Some (S754_infinity false)
    else if String.eqb x "nan" then Some S754_nan
    else sample_float_of_str x;
  py_hash := sample_hash;
  py_str := sample_str;
  both_args_repr := fun _ _ _ => "...";
  fun_name := fun _ => "f";
  fun_body := fun _ _ _ _ => Ret v_nil;
  class_name := fun id => if Nat.eqb id 1 then "int" else "C";
  class_call := fun id _ args _ =>
    if Nat.eqb id 1 then int_class args
    else Raise (TypeError "cannot create instances");
  class_instance := fun v id =>
    Nat.eqb id 1 && match v with VInt _ => true | _ => false end;
  abc_Mapping := 0%nat;
|}.

Lemma int_coerce_raises_on_infinity_and_nan_witness :
  (number_coerce = int_coerce \/ number_coerce = number_coerce) /\
  call with_int number_coerce (VFloat (S754_infinity true)) []
  = (Raise (OverflowError "cannot convert float infinity to integer"), []) /\
  call with_int number_coerce (VFloat S754_nan) []
  = (Raise (ValueError "cannot convert float NaN to integer"), []) /\
  float_of_str with_int "inf" = Some (S754_infinity false) /\
  exists e, call with_int number_coerce (VStr "inf") [] = (Raise e, []).
Proof.
  assert (Hc : number_coerce = int_coerce \/ number_coerce = number_coerce)
    by (right; reflexivity).
  pose proof (int_coerce_raises_on_infinity_and_nan with_int number_coerce []
                Hc) as (Hinf & Hnan & Hstr).
  split; [exact Hc|]. split; [exact (Hinf true)|]. split; [exact Hnan|].
  split; [reflexivity|].
  exact (Hstr "inf" (S754_infinity false) eq_refl
           (or_introl (ex_intro _ false eq_refl))).
Defined.

(** [typecast(int)] on [5], on ["12"] and on ["1x"];
    [typecast((int, coercer))] on ["1x"]. *)
Lemma typecast_tries_its_classes_in_order_witness :
  typecast_new with_int (VClass 1) [] = (Ret (Some (0%nat, [VClass 1])), [OCustom VUnset]) /\
  forallb is_class [VClass 1] = true /\
  typecast_call with_int 1 0 [VClass 1] (VInt 5) [OCustom VUnset]
  = (Ret (Some (VInt 5)), [OCustom VUnset]) /\
  typecast_call with_int 2 0 [VClass 1] (VStr "12") [OCustom VUnset]
  = (Ret (Some (VInt 12)), [OCustom (VClass 1)]) /\
  Forall (refuses with_int (VStr "1x")) [VClass 1] /\
  typecast_call with_int 2 0 [VClass 1] (VStr "1x") [OCustom VUnset]
  = (Ret (Some v_nil), [OCustom VUnset]) /\
  fst (typecast_call with_int 100 0 [VClass 1; VCoercerClass] (VStr "1x")
         [OCustom VUnset]) = Ret None.
Proof.
  assert (Href : Forall (refuses with_int (VStr "1x")) [VClass 1]).
  { constructor; [|constructor]. intros s. eexists. split; reflexivity. }
  pose proof (typecast_tries_its_classes_in_order with_int 0 [VClass 1]
                (VInt 5) [OCustom VUnset] eq_refl) as (Hnew & Hinst & _).
  pose proof (typecast_tries_its_classes_in_order with_int 0 [VClass 1]
                (VStr "12") [OCustom VUnset] eq_refl) as (_ & _ & Hcast).
  pose proof (typecast_tries_its_classes_in_order with_int 0 [VClass 1]
                (VStr "1x") [OCustom VUnset] eq_refl) as (_ & _ & Hnil).
  pose proof (typecast_tries_its_classes_in_order with_int 0
                [VClass 1; VCoercerClass] (VStr "1x") [OCustom VUnset]
                eq_refl) as (_ & _ & Hloop).
  split; [reflexivity|].
  split; [exact (Hnew (VClass 1) [] 0%nat [VClass 1] [OCustom VUnset] eq_refl)|].
  split; [exact (Hinst ltac:(discriminate) eq_refl 0%nat)|].
  split; [exact (proj1 (Hcast eq_refl) [] (VClass 1) [] (VInt 12)
                   [OCustom VUnset] 0%nat eq_refl (List.Forall_nil _)
                   eq_refl ltac:(discriminate))|].
  split; [exact Href|].
  split; [exact (proj1 (proj2 (Hnil eq_refl)) Href 0%nat)|].
  exact (proj2 (proj2 (Hloop eq_refl)) [VClass 1] VCoercerClass [] eq_refl
           Href (fun s' => eq_refl) 100%nat).
Defined.

(** [combo(int_coerce, float_coerce)] and
    [combo((int_coerce, float_coerce))]. *)
Lemma combo_takes_coercers_or_a_tuple_of_them_witness :
  Forall (fun c => is_coercer c = true) [int_coerce; float_coerce] /\
  combo_new sample [int_coerce; float_coerce] []
  = (Ret (Combo 0 [int_coerce; float_coerce]), [OCustom VUnset; OCustom VUnset]) /\
  combo_new sample [VTuple [int_coerce; float_coerce]] []
  = (Ret (Combo 0 [int_coerce; float_coerce]), [OCustom VUnset; OCustom VUnset]).
Proof.
  assert (H : Forall (fun c => is_coercer c = true) [int_coerce; float_coerce])
    by (repeat constructor).
  pose proof (combo_takes_coercers_or_a_tuple_of_them sample
                [int_coerce; float_coerce] [] H) as [Hmany Htuple].
  split; [exact H|]. split; [exact Hmany | exact (Htuple eq_refl)].
Defined.

Lemma mapping_and_iterable_defaults_witness :
  is_coercer int_coerce = true /\
  mapping_new sample int_coerce VUnset []
  = (Ret (Mapping 0 int_coerce identity_coerce), [OCustom VUnset]) /\
  mapping_new sample VUnset VUnset []
  = (Ret (IsType 0 [VClass 0]), [OCustom VUnset]) /\
  iterable_new sample int_coerce (VClass 7) []
  = (Ret (Iterable 0 int_coerce
            (Compose 3 [IsType 1 [VClass 7]; sized_coerce])),
     [OCustom VUnset; OCustom VUnset; OCustom VUnset; OCustom VUnset]).
Proof.
  pose proof (mapping_and_iterable_defaults sample int_coerce [] eq_refl)
    as (Hnone & Hkey & _ & _ & Hcls).
  split; [reflexivity|]. split; [exact Hkey|]. split; [exact Hnone|].
  exact (Hcls 7%nat).
Defined.

Lemma types_tuple_coerce_normalises_witness :
  call sample types_tuple_coerce (VClass 7) [] = (Ret (VTuple [VClass 7]), []) /\
  call sample types_tuple_coerce (VTuple [VClass 7]) []
  = (Ret (VTuple [VClass 7]), []) /\
  call sample types_tuple_coerce (VTuple [VClass 7; VInt 1]) []
  = (Ret v_nil, []) /\
  call sample callable_coerce (Compose 0 [int_coerce; float_coerce]) []
  = (Ret (Compose 0 [int_coerce; float_coerce]), []).
Proof.
  pose proof (types_tuple_coerce_normalises sample (VClass 7) [])
    as (Hshape & _ & Hone & _).
  pose proof (types_tuple_coerce_normalises sample
                (Compose 0 [int_coerce; float_coerce]) []) as (_ & _ & _ & Hcall).
  split; [exact (Hone eq_refl ltac:(discriminate))|].
  split.
  - destruct (Hshape (VTuple [VClass 7]) [] (Hone eq_refl ltac:(discriminate)))
      as [_ [Hnil | (tps & Htps & _ & Hidem & _)]];
      [discriminate Hnil | exact Hidem].
  - split; [reflexivity | exact (Hcall eq_refl)].
Defined.


(** [pargs(int_coerce)] on [("1", "2")]. *)
Lemma pargs_maps_the_coercer_witness :
  coerced_each sample int_coerce [VStr "1"; VStr "2"] [OCustom VUnset]
    [VInt 1; VInt 2] [OCustom VUnset] /\
  call sample (Pargs 0 int_coerce) (VTuple [VStr "1"; VStr "2"]) [OCustom VUnset]
  = (Ret (VTuple [VInt 1; VInt 2]), [OCustom VUnset]).
Proof.
  assert (H : coerced_each sample int_coerce [VStr "1"; VStr "2"]
                [OCustom VUnset] [VInt 1; VInt 2] [OCustom VUnset]).
  { apply (coerced_each_cons sample int_coerce (VStr "1") [VStr "2"]
             [OCustom VUnset] (VInt 1) [OCustom VUnset]);
      [reflexivity | discriminate |].
    apply (coerced_each_cons sample int_coerce (VStr "2") []
             [OCustom VUnset] (VInt 2) [OCustom VUnset]);
      [reflexivity | discriminate |].
    apply coerced_each_nil. }
  split; [exact H|].
  exact (proj1 (pargs_maps_the_coercer sample 0 int_coerce
                  [VStr "1"; VStr "2"] [OCustom VUnset] _ _ H)).
Defined.


